(** * ISADS: product image search and download system

    A shallow embedding of the decision pipeline of the repository
    (URL filter, download manager, quality analyzer, image validator and
    the folder classification of [main.js]) together with the properties
    stated about it.

    Conventions of the embedding.
    - JavaScript strings are [string]s of 8-bit code units; [toLowerCase]
      lowers the letters A to Z, which is what it does on such strings as
      far as the ASCII patterns of the source can observe.
    - JavaScript numbers that carry scores, ratios and thresholds are
      rationals ([Q]); counters are [nat]; sizes and pixel dimensions are [Z].
    - Everything the program asks of the outside world (the URL parser, the
      network, the image decoder, the clock, the disk) appears as an explicit
      input of the function that asks for it.
    - A thrown [Error] is a value of a sum type; the [catch] blocks of the
      source are the matches on it. *)

From Stdlib Require Import ZArith QArith Qminmax Qpower Lia Lqa String Ascii List Bool
  DecimalString.
From stdpp Require Import gmap strings list.
Import ListNotations.
Local Open Scope string_scope.
Local Open Scope list_scope.

(** ** JavaScript string primitives used by the source *)

Module JsString.

Definition lower_ascii (c : ascii) : ascii :=
  let n := nat_of_ascii c in
  if ((65 <=? n) && (n <=? 90))%nat then ascii_of_nat (n + 32) else c.

(** [String.prototype.toLowerCase]. *)
Fixpoint toLowerCase (s : string) : string :=
  match s with
  | EmptyString => EmptyString
  | String c r => String (lower_ascii c) (toLowerCase r)
  end.

(** [s.startsWith(p)]. *)
Definition startsWith (s p : string) : bool := String.prefix p s.

(** [s.includes(p)]. *)
Fixpoint includes (s p : string) : bool :=
  String.prefix p s ||
  match s with
  | EmptyString => false
  | String _ r => includes r p
  end.

(** [s.replace(c, '')] for a one-character pattern [c]: only the first
    occurrence goes. *)
Fixpoint remove_first (c : ascii) (s : string) : string :=
  match s with
  | EmptyString => EmptyString
  | String d r => if Ascii.eqb c d then r else String d (remove_first c r)
  end.

(** [s.split(c)] for a one-character separator. *)
Fixpoint split_on (c : ascii) (s : string) : list string :=
  match s with
  | EmptyString => [EmptyString]
  | String d r =>
      if Ascii.eqb c d then EmptyString :: split_on c r
      else match split_on c r with
           | [] => [String d EmptyString]
           | w :: ws => String d w :: ws
           end
  end.

(** [arr.includes(x)] on an array of strings. *)
Definition array_includes (arr : list string) (x : string) : bool :=
  existsb (String.eqb x) arr.

(** Truthiness of a string value. *)
Definition truthy (s : string) : bool := negb (String.eqb s "").

Definition rev_string (s : string) : string :=
  string_of_list_ascii (List.rev (list_ascii_of_string s)).

(** The class [\s] of regular expressions, on 8-bit code units: tab to
    carriage return, space and no-break space. *)
Definition is_space (c : ascii) : bool :=
  let n := nat_of_ascii c in
  ((9 <=? n) && (n <=? 13) || (n =? 32) || (n =? 160))%nat.

End JsString.

(** ** Node's [path] module (POSIX flavour), as far as the source uses it *)

Module Path.
Import JsString.

Definition slash : ascii := "/"%char.
Definition dot : ascii := "."%char.

Fixpoint drop_leading (c : ascii) (s : string) : string :=
  match s with
  | String d r => if Ascii.eqb c d then drop_leading c r else s
  | EmptyString => EmptyString
  end.

Fixpoint take_until (c : ascii) (s : string) : string :=
  match s with
  | String d r => if Ascii.eqb c d then EmptyString else String d (take_until c r)
  | EmptyString => EmptyString
  end.

(** The right-most path component, trailing separators ignored. *)
Definition last_component (p : string) : string :=
  rev_string (take_until slash (drop_leading slash (rev_string p))).

(** Scanning a component from its right end: [Some (e, rest)] when a dot
    was met, [e] being the characters after it (reversed) and [rest] the
    characters before it (reversed). *)
Fixpoint split_at_dot (r : string) : option (string * string) :=
  match r with
  | EmptyString => None
  | String d r' =>
      if Ascii.eqb dot d then Some (EmptyString, r')
      else match split_at_dot r' with
           | Some (e, rest) => Some (String d e, rest)
           | None => None
           end
  end.

(** [path.extname]: from the last dot of the last component to its end;
    empty when there is no dot, when the only dot opens the component, or
    when the component is [..]. *)
Definition extname (p : string) : string :=
  let c := last_component p in
  match split_at_dot (rev_string c) with
  | None => ""
  | Some (e, rest) =>
      if String.eqb rest "" then ""
      else if String.eqb c ".." then ""
      else String dot (rev_string e)
  end.

(** [path.basename(p, ext)]. *)
Definition basename (p ext : string) : string :=
  let c := last_component p in
  let n := String.length c in
  let k := String.length ext in
  if (negb (String.eqb ext c) && (k <=? n)%nat &&
      String.eqb (String.substring (n - k) k c) ext)%bool
  then String.substring 0 (n - k) c
  else c.

End Path.

(** ** [config/settings.js] (src/src/config/settings.js) *)

Module Settings.

Definition maxImagesPerItem : nat := 6.
Definition imageMatchingThreshold : Q := 0.7.
Definition allowedFormats : list string := ["jpg"; "jpeg"; "png"].
Definition concurrentDownloads : nat := 5.
Definition retryAttempts : nat := 2.
Definition backoffMultiplier : Q := 1.5.
Definition nifSuffix : string := " (NIF)".
Definition nsSuffix : string := " (NS)".

End Settings.

(** ** The MD5 digest behind [crypto.createHash('md5')]

    Buffers are lists of bytes, each a [Z] in the range 0..255; 32-bit words
    are [Z]s with the wrap-around written out. *)

Module Md5.
Local Open Scope Z_scope.

Definition mask32 : Z := 4294967295.
Definition add32 (a b : Z) : Z := Z.land (a + b) mask32.
Definition not32 (a : Z) : Z := Z.lxor a mask32.
Definition rotl32 (x c : Z) : Z :=
  Z.land (Z.lor (Z.shiftl x c) (Z.shiftr x (32 - c))) mask32.

Definition K : list Z :=
  [3614090360; 3905402710; 606105819; 3250441966; 4118548399; 1200080426;
   2821735955; 4249261313; 1770035416; 2336552879; 4294925233; 2304563134;
   1804603682; 4254626195; 2792965006; 1236535329; 4129170786; 3225465664;
   643717713; 3921069994; 3593408605; 38016083; 3634488961; 3889429448;
   568446438; 3275163606; 4107603335; 1163531501; 2850285829; 4243563512;
   1735328473; 2368359562; 4294588738; 2272392833; 1839030562; 4259657740;
   2763975236; 1272893353; 4139469664; 3200236656; 681279174; 3936430074;
   3572445317; 76029189; 3654602809; 3873151461; 530742520; 3299628645;
   4096336452; 1126891415; 2878612391; 4237533241; 1700485571; 2399980690;
   4293915773; 2240044497; 1873313359; 4264355552; 2734768916; 1309151649;
   4149444226; 3174756917; 718787259; 3951481745].

Definition shifts : list Z :=
  [7; 12; 17; 22; 7; 12; 17; 22; 7; 12; 17; 22; 7; 12; 17; 22;
   5; 9; 14; 20; 5; 9; 14; 20; 5; 9; 14; 20; 5; 9; 14; 20;
   4; 11; 16; 23; 4; 11; 16; 23; 4; 11; 16; 23; 4; 11; 16; 23;
   6; 10; 15; 21; 6; 10; 15; 21; 6; 10; 15; 21; 6; 10; 15; 21].

Definition word_le (b0 b1 b2 b3 : Z) : Z :=
  Z.lor (Z.lor b0 (Z.shiftl b1 8)) (Z.lor (Z.shiftl b2 16) (Z.shiftl b3 24)).

Fixpoint words_of (bytes : list Z) : list Z :=
  match bytes with
  | b0 :: b1 :: b2 :: b3 :: r => word_le b0 b1 b2 b3 :: words_of r
  | _ => []
  end.

Definition bytes_of_word (w : Z) : list Z :=
  [Z.land w 255; Z.land (Z.shiftr w 8) 255;
   Z.land (Z.shiftr w 16) 255; Z.land (Z.shiftr w 24) 255].

Definition bytes_of_len64 (n : Z) : list Z :=
  List.map (fun k => Z.land (Z.shiftr n (8 * k)) 255) [0; 1; 2; 3; 4; 5; 6; 7].

(** The message, the bit 1, zero bits up to 56 modulo 64 bytes, and the
    bit length on 64 bits. *)
Definition pad (msg : list Z) : list Z :=
  let n := Z.of_nat (List.length msg) in
  let zeros := Z.to_nat ((55 - n) mod 64) in
  msg ++ [128] ++ List.repeat 0 zeros ++ bytes_of_len64 (8 * n).

Definition round (M : list Z) (st : Z * Z * Z * Z) (i : Z) : Z * Z * Z * Z :=
  let '(A, B, C, D) := st in
  let '(F, g) :=
    if i <? 16 then (Z.lor (Z.land B C) (Z.land (not32 B) D), i)
    else if i <? 32 then (Z.lor (Z.land D B) (Z.land (not32 D) C), (5 * i + 1) mod 16)
    else if i <? 48 then (Z.lxor (Z.lxor B C) D, (3 * i + 5) mod 16)
    else (Z.lxor C (Z.lor B (not32 D)), (7 * i) mod 16) in
  let F' :=
    add32 (add32 (add32 F A) (List.nth (Z.to_nat i) K 0))
          (List.nth (Z.to_nat g) M 0) in
  (D, add32 B (rotl32 F' (List.nth (Z.to_nat i) shifts 0)), B, C).

Definition rounds : list Z := List.map Z.of_nat (List.seq 0 64).

Definition block (st : Z * Z * Z * Z) (M : list Z) : Z * Z * Z * Z :=
  let '(A0, B0, C0, D0) := st in
  let '(A, B, C, D) := List.fold_left (round M) rounds st in
  (add32 A0 A, add32 B0 B, add32 C0 C, add32 D0 D).

Fixpoint blocks (fuel : nat) (st : Z * Z * Z * Z) (ws : list Z) : Z * Z * Z * Z :=
  match fuel with
  | O => st
  | S fuel' =>
      match ws with
      | [] => st
      | _ => blocks fuel' (block st (List.firstn 16 ws)) (List.skipn 16 ws)
      end
  end.

Definition digest (msg : list Z) : list Z :=
  let ws := words_of (pad msg) in
  let '(A, B, C, D) :=
    blocks (List.length ws) (1732584193, 4023233417, 2562383102, 271733878) ws in
  bytes_of_word A ++ bytes_of_word B ++ bytes_of_word C ++ bytes_of_word D.

Definition hex_digit (n : Z) : ascii :=
  List.nth (Z.to_nat n)
    (list_ascii_of_string "0123456789abcdef") "0"%char.

Fixpoint hex (bytes : list Z) : string :=
  match bytes with
  | [] => EmptyString
  | b :: r => String (hex_digit (Z.shiftr b 4)) (String (hex_digit (Z.land b 15)) (hex r))
  end.

(** [crypto.createHash('md5').update(buffer).digest('hex')]. *)
Definition md5hex (msg : list Z) : string := hex (digest msg).

Definition bytes_of_string (s : string) : list Z :=
  List.map (fun c => Z.of_nat (nat_of_ascii c)) (list_ascii_of_string s).

End Md5.

(** ** [utils/helpers.js] (src/unnamed/part_005) *)

Module Helpers.
Import JsString.

Section WithUrlParser.

(** The platform's URL parser: [pathname_of u] is [new URL(u).pathname],
    and [None] when the constructor throws. *)
Variable pathname_of : string -> option string.

Definition isValidUrl (url : string) : bool :=
  match pathname_of url with
  | Some _ => true
  | None => false
  end.

Definition getFileExtension (url : string) : string :=
  match pathname_of url with
  | Some pathname =>
      let extension := toLowerCase (Path.extname pathname) in
      if truthy extension then extension else ".jpg"
  | None =>
      let extension := toLowerCase (Path.extname url) in
      if truthy extension then extension else ".jpg"
  end.

End WithUrlParser.

Definition isAllowedExtension (extension : string) : bool :=
  let normalizedExt := remove_first Path.dot (toLowerCase extension) in
  array_includes Settings.allowedFormats normalizedExt.

(** *** [Helpers.retry]

    [fn] is an effectful thunk: [fn k st] is what its k-th call does in
    state [st], [inl] for a thrown error and [inr] for a result.  The
    function returns the outcome, the state, and the delays it slept, in
    milliseconds.  The outcome is [None] only for [maxRetries = 0], where
    the source throws the [undefined] it never assigned. *)

Definition backoffDelay (baseDelay : Q) (attempt : nat) : Q :=
  baseDelay * Qpower Settings.backoffMultiplier (Z.of_nat (attempt - 1)).

Fixpoint retry_from {St E A : Type} (fn : nat -> St -> (E + A) * St)
    (baseDelay : Q) (attempt remaining : nat) (lastError : option E)
    (slept : list Q) (st : St) : option (E + A) * St * list Q :=
  match remaining with
  | O => (option_map inl lastError, st, slept)
  | S remaining' =>
      match fn attempt st with
      | (inr v, st) => (Some (inr v), st, slept)
      | (inl e, st) =>
          if (remaining' =? 0)%nat then (Some (inl e), st, slept)
          else retry_from fn baseDelay (S attempt) remaining' (Some e)
                          (slept ++ [backoffDelay baseDelay attempt]) st
      end
  end.

Definition retry {St E A : Type} (fn : nat -> St -> (E + A) * St)
    (maxRetries : nat) (baseDelay : Q) (st : St) : option (E + A) * St * list Q :=
  retry_from fn baseDelay 1 maxRetries None [] st.

(** *** [Helpers.sanitizeFilename] *)

(** The characters the first [replace] turns into an underscore: less-than,
    greater-than, colon, double quote, slash, backslash, bar, question
    mark and star, by character code. *)
Definition is_invalid_char (c : ascii) : bool :=
  existsb (Nat.eqb (nat_of_ascii c)) [60; 62; 58; 34; 47; 92; 124; 63; 42]%nat.

Fixpoint replace_invalid (s : string) : string :=
  match s with
  | EmptyString => EmptyString
  | String c r => String (if is_invalid_char c then "_"%char else c) (replace_invalid r)
  end.

(** [s.replace(/\s+/g, ' ')]; [inRun] tells that the previous character
    was a space of the run being replaced. *)
Fixpoint collapse_spaces (inRun : bool) (s : string) : string :=
  match s with
  | EmptyString => EmptyString
  | String c r =>
      if is_space c
      then (if inRun then collapse_spaces true r
            else String " "%char (collapse_spaces true r))
      else String c (collapse_spaces false r)
  end.

Fixpoint trim_start (s : string) : string :=
  match s with
  | String c r => if is_space c then trim_start r else s
  | EmptyString => EmptyString
  end.

Definition trim (s : string) : string :=
  rev_string (trim_start (rev_string (trim_start s))).

Definition maxFolderNameLength : nat := 255.

Definition sanitizeFilename (filename : string) : string :=
  let sanitized := trim (collapse_spaces false (replace_invalid filename)) in
  if (maxFolderNameLength <? String.length sanitized)%nat
  then String.substring 0 maxFolderNameLength sanitized
  else sanitized.

End Helpers.

(** ** [modules/imageSearch.js] (src/unnamed/part_001): the URL filter and
    the average hash *)

Module ImageSearch.
Import JsString.

Definition excludePatterns : list string :=
  ["logo"; "icon"; "banner"; "avatar"; "profile";
   "thumbnail"; "preview"; "sample"; "watermark";
   "advertisement"; "ad"; "button"; "social";
   "placeholder"; "loading"; "default";
   "category"; "brand"; "store"; "seller"].

Definition smallImagePatterns : list string :=
  ["_50x50"; "_100x100"; "_150x150"; "_180x180";
   "thumb"; "small"; "mini"; "tiny"].

Section WithUrlParser.
Variable pathname_of : string -> option string.

(** The predicate of [urls.filter(url => ...)]. *)
Definition keepUrl (url : string) : bool :=
  if negb (Helpers.isValidUrl pathname_of url) then false
  else
    let extension := Helpers.getFileExtension pathname_of url in
    if negb (Helpers.isAllowedExtension extension) then false
    else
      let urlLower := toLowerCase url in
      if existsb (includes urlLower) excludePatterns then false
      else if existsb (includes urlLower) smallImagePatterns then false
      else true.

Definition filterImageUrls (urls : list string) : list string :=
  List.filter keepUrl urls.

End WithUrlParser.

(** The 64-bit average hash of [generateImageHash]: one bit per pixel of the
    8x8 greyscale raster, set when the pixel is above the mean. *)
Definition generateImageHash (raster : list Z) : string :=
  let sum := List.fold_left Z.add raster 0%Z in
  let avg := (inject_Z sum / inject_Z (Z.of_nat (List.length raster)))%Q in
  string_of_list_ascii
    (List.map (fun pixel => if Qle_bool (inject_Z pixel) avg then "0"%char else "1"%char)
              raster).

Fixpoint matching (h1 h2 : string) : nat :=
  match h1, h2 with
  | String a r1, String b r2 =>
      ((if Ascii.eqb a b then 1 else 0) + matching r1 r2)%nat
  | _, _ => 0%nat
  end.

Definition calculateHashSimilarity (hash1 hash2 : string) : Q :=
  if negb (String.length hash1 =? String.length hash2)%nat then 0
  else (inject_Z (Z.of_nat (matching hash1 hash2)) /
        inject_Z (Z.of_nat (String.length hash1)))%Q.

End ImageSearch.

(** ** Numbers and buffers *)

Module Js.

Definition Qleb (x y : Q) : bool := Qle_bool x y.
Definition Qltb (x y : Q) : bool := negb (Qle_bool y x).

(** Template-literal rendering of an integer. *)
Definition dec (n : Z) : string := NilZero.string_of_int (Z.to_int n).

(** What [sharp(buffer).metadata()] resolves to. *)
Record Metadata := {
  format : string;
  width : Z;
  height : Z
}.

(** A [Buffer]: its bytes, together with what the image decoder makes of
    them.  [decoded] is [None] when [sharp(buffer).metadata()] rejects;
    [grey8x8] is the raw output of
    [sharp(buffer).resize(8, 8, {fit: 'fill'}).greyscale().raw()], one
    byte per pixel, and [None] when that pipeline rejects. *)
Record Buffer := {
  data : list Z;
  decoded : option Metadata;
  grey8x8 : option (list Z)
}.

Definition byteLength (b : Buffer) : Z := Z.of_nat (List.length (data b)).

(** An insertion-ordered [Map] with string keys. *)
Fixpoint map_get {V : Type} (m : list (string * V)) (k : string) : option V :=
  match m with
  | [] => None
  | (k', v) :: r => if String.eqb k k' then Some v else map_get r k
  end.

Fixpoint map_set {V : Type} (m : list (string * V)) (k : string) (v : V)
  : list (string * V) :=
  match m with
  | [] => [(k, v)]
  | (k', v') :: r =>
      if String.eqb k k' then (k', v) :: r else (k', v') :: map_set r k v
  end.

End Js.

(** ** [modules/qualityAnalyzer.js] (second half of
    src/src/modules/downloadManager.js) *)

Module QualityAnalyzer.
Import Js.

Record Analysis := {
  url : string;
  isValid : bool;
  score : Q;
  dimensions : option (Z * Z);
  aspectRatio : Q;
  fileSize : Z;
  a_format : option string;
  hasPlainBackground : bool;
  backgroundConfidence : Q;
  sharpness : Q;
  hasWatermark : bool;
  watermarkConfidence : Q;
  isSquare : bool;
  meetsSizeRequirements : bool;
  issues : list string;
  error : option string
}.

Definition isSquareImage (width height : Z) : bool :=
  let aspectRatio := (inject_Z width / inject_Z height)%Q in
  Qleb 0.95 aspectRatio && Qleb aspectRatio 1.05.

(** The method [meetsSizeRequirements]; the field of [Analysis] has the
    plain name. *)
Definition meetsSizeRequirements' (width height : Z) : bool :=
  let minSize := 600%Z in
  let maxSize := 1200%Z in
  (minSize <=? width)%Z && (width <=? maxSize)%Z &&
  (minSize <=? height)%Z && (height <=? maxSize)%Z.

Definition calculateStrictQualityScore (analysis : Analysis) : Q :=
  let score := 0%Q in
  let score := if isSquare analysis then (score + 0.3)%Q else score in
  let score := if meetsSizeRequirements analysis then (score + 0.25)%Q else score in
  let score := (score + backgroundConfidence analysis * 0.3)%Q in
  let score := if negb (hasWatermark analysis) then (score + 0.1)%Q else score in
  let score := (score + sharpness analysis * 0.05)%Q in
  Qmin 1 score.

Definition cacheAndReturn (cache : list (string * Analysis)) (key : string)
    (result : Analysis) : Analysis * list (string * Analysis) :=
  let cache := map_set cache key result in
  let cache := if (1000 <? List.length cache)%nat then List.tl cache else cache in
  (result, cache).

Definition generateCacheKey (buffer : Buffer) : string := Md5.md5hex (data buffer).

Definition blank (u : string) (imageBuffer : Buffer) : Analysis :=
  {| url := u; isValid := false; score := 0; dimensions := None;
     aspectRatio := 0; fileSize := byteLength imageBuffer; a_format := None;
     hasPlainBackground := false; backgroundConfidence := 0; sharpness := 0;
     hasWatermark := false; watermarkConfidence := 0; isSquare := false;
     meetsSizeRequirements := false; issues := []; error := None |}.

Definition with_issues (a : Analysis) (l : list string) : Analysis :=
  {| url := url a; isValid := isValid a; score := score a;
     dimensions := dimensions a; aspectRatio := aspectRatio a;
     fileSize := fileSize a; a_format := a_format a;
     hasPlainBackground := hasPlainBackground a;
     backgroundConfidence := backgroundConfidence a; sharpness := sharpness a;
     hasWatermark := hasWatermark a; watermarkConfidence := watermarkConfidence a;
     isSquare := isSquare a; meetsSizeRequirements := meetsSizeRequirements a;
     issues := l; error := error a |}.

Definition with_verdict (a : Analysis) (v : bool) (s : Q) : Analysis :=
  {| url := url a; isValid := v; score := s;
     dimensions := dimensions a; aspectRatio := aspectRatio a;
     fileSize := fileSize a; a_format := a_format a;
     hasPlainBackground := hasPlainBackground a;
     backgroundConfidence := backgroundConfidence a; sharpness := sharpness a;
     hasWatermark := hasWatermark a; watermarkConfidence := watermarkConfidence a;
     isSquare := isSquare a; meetsSizeRequirements := meetsSizeRequirements a;
     issues := issues a; error := error a |}.

(** The analysis of a buffer whose metadata was read: everything between
    [sharp(imageBuffer).metadata()] and the final [cacheAndReturn].  The
    background, watermark and sharpness analyses are skipped in the source,
    which assigns their results as constants. *)
Definition measured (u : string) (imageBuffer : Buffer) (metadata : Metadata)
  : Analysis :=
  let w := width metadata in
  let h := height metadata in
  let square := isSquareImage w h in
  let sized := meetsSizeRequirements' w h in
  let issues0 :=
    ((if negb square then ["Not square: " +:+ dec w +:+ "x" +:+ dec h] else []) ++
     (if negb sized
      then ["Size out of range (600-1200): " +:+ dec w +:+ "x" +:+ dec h]
      else []))%list in
  let sharp := 0.8%Q in
  let issues1 :=
    (issues0 ++
     (if Qltb sharp 0.3 then ["Image too blurry (sharpness: 80.0%)"] else []))%list in
  let analysis :=
    {| url := u; isValid := false; score := 0; dimensions := Some (w, h);
       aspectRatio := (inject_Z w / inject_Z h)%Q;
       fileSize := byteLength imageBuffer; a_format := Some (format metadata);
       hasPlainBackground := true; backgroundConfidence := 0.8;
       sharpness := sharp; hasWatermark := false; watermarkConfidence := 0.1;
       isSquare := square; meetsSizeRequirements := sized;
       issues := issues1; error := None |} in
  let valid :=
    (List.length (issues analysis) =? 0)%nat && isSquare analysis &&
    meetsSizeRequirements analysis && hasPlainBackground analysis &&
    negb (hasWatermark analysis) in
  let analysis := with_verdict analysis valid 0 in
  with_verdict analysis valid (calculateStrictQualityScore analysis).

(** The object returned from the [catch] block; the fields it does not
    have in the source hold the values of [blank] here. *)
Definition failedAnalysis (u : string) : Analysis :=
  {| url := u; isValid := false; score := 0; dimensions := None;
     aspectRatio := 0; fileSize := 0; a_format := None;
     hasPlainBackground := false; backgroundConfidence := 0; sharpness := 0;
     hasWatermark := false; watermarkConfidence := 0; isSquare := false;
     meetsSizeRequirements := false; issues := ["Analysis failed"];
     error := Some "sharp: metadata failed" |}.

Definition analyzeImage (cache : list (string * Analysis))
    (imageBuffer : Buffer) (u : string) : Analysis * list (string * Analysis) :=
  let cacheKey := generateCacheKey imageBuffer in
  match map_get cache cacheKey with
  | Some cached => (cached, cache)
  | None =>
      let analysis := blank u imageBuffer in
      if (byteLength imageBuffer <? 10000)%Z then
        cacheAndReturn cache cacheKey (with_issues analysis ["File size too small"])
      else if (5000000 <? byteLength imageBuffer)%Z then
        cacheAndReturn cache cacheKey (with_issues analysis ["File size too large"])
      else
        match decoded imageBuffer with
        | None => (failedAnalysis u, cache)
        | Some metadata => cacheAndReturn cache cacheKey (measured u imageBuffer metadata)
        end
  end.

(** The cache after the analyser, created empty, has analysed the buffers of
    [history] in turn. *)
Definition cacheAfter (history : list (Buffer * string)) : list (string * Analysis) :=
  List.fold_left (fun cache '(b, u) => snd (analyzeImage cache b u)) history [].

End QualityAnalyzer.

(** ** [utils/imageValidator.js] (src/unnamed/part_007) *)

Module ImageValidator.
Import JsString Js.

Definition duplicateThreshold : Q := 0.9.
Definition matchThreshold : Q := 0.70.
Definition perfectMatchThreshold : Q := 1.0.

(** [a / b] on two counts. *)
Definition ratio (a b : nat) : Q :=
  (inject_Z (Z.of_nat a) / inject_Z (Z.of_nat b))%Q.

(** [brandName && brandName !== 'NONE'], for a brand that is [null]
    ([None]) or a string. *)
Definition branded (brandName : option string) : bool :=
  match brandName with
  | Some b => truthy b && negb (String.eqb b "NONE")
  | None => false
  end.

(** *** Duplicate detection *)

Record DuplicateState := {
  processedHashes : gset string;
  similarImages : list (string * string)
}.

Definition resetDuplicateDetection (_ : DuplicateState) : DuplicateState :=
  {| processedHashes := ∅; similarImages := [] |}.

Fixpoint differing (h1 h2 : string) : nat :=
  match h1, h2 with
  | String a r1, String b r2 =>
      ((if Ascii.eqb a b then 0 else 1) + differing r1 r2)%nat
  | _, _ => 0%nat
  end.

Definition calculateHammingDistance (hash1 hash2 : string) : nat :=
  if negb (String.length hash1 =? String.length hash2)%nat then 64%nat
  else differing hash1 hash2.

(** [hash] is what [calculateImageHash(imagePath)] resolved to, [None]
    for [null]. *)
Definition isDuplicate (st : DuplicateState) (hash : option string)
    (imagePath : string) : bool * DuplicateState :=
  match hash with
  | None => (false, st)
  | Some hash =>
      if bool_decide (hash ∈ processedHashes st) then (true, st)
      else if existsb
                (fun '(existingHash, _) =>
                   let hammingDistance := calculateHammingDistance hash existingHash in
                   let similarity := (1 - ratio hammingDistance 64)%Q in
                   Qleb duplicateThreshold similarity)
                (similarImages st)
      then (true, st)
      else (false,
            {| processedHashes := {[hash]} ∪ processedHashes st;
               similarImages := map_set (similarImages st) hash imagePath |})
  end.

(** *** Match confidence *)

Record Tokens := {
  sizes : list string;
  colors : list string;
  materials : list string;
  brands : list string;
  attributes : list string
}.

Definition colorWords : list string :=
  ["red"; "blue"; "green"; "yellow"; "black"; "white"; "gray"; "grey";
   "brown"; "pink"; "purple"; "orange"; "silver"; "gold"; "beige"; "navy";
   "maroon"].

Definition materialWords : list string :=
  ["cotton"; "polyester"; "silk"; "wool"; "leather"; "plastic"; "metal";
   "wood"; "glass"; "ceramic"; "rubber"; "steel"; "aluminum"].

Definition descriptiveWords : list string :=
  ["acetylene"; "welding"; "plasma"; "safety"; "bronze"; "chicken"; "apple";
   "iphone"; "xiaomi"; "pad"; "cutting"; "tip"; "rod"; "electrode";
   "glasses"; "packing"; "ring"; "bucket"; "pie"; "phone"; "harris";
   "lincoln"; "hypertherm"; "3m"; "garlock"; "jollibee"; "popeyes"; "clear"].

Definition is_lower_alnum (c : ascii) : bool :=
  let n := nat_of_ascii c in
  ((97 <=? n) && (n <=? 122) || (48 <=? n) && (n <=? 57))%nat.

(** The character class [[a-zA-Z0-9\-_]]. *)
Definition is_id_char (c : ascii) : bool :=
  let n := nat_of_ascii c in
  ((97 <=? n) && (n <=? 122) || (65 <=? n) && (n <=? 90) ||
   (48 <=? n) && (n <=? 57) || (n =? 45) || (n =? 95))%nat.

Fixpoint filter_chars (f : ascii -> bool) (s : string) : string :=
  match s with
  | EmptyString => EmptyString
  | String c r => if f c then String c (filter_chars f r) else filter_chars f r
  end.

(** The non-empty fields of [s.split(/\s+/)]. *)
Fixpoint words (s : string) (cur : string) : list string :=
  match s with
  | EmptyString => if String.eqb cur "" then [] else [rev_string cur]
  | String c r =>
      if is_space c
      then (if String.eqb cur "" then words r "" else rev_string cur :: words r "")
      else words r (String c cur)
  end.

(** [/^[a-zA-Z0-9\-_]{8,}/.test(s)]. *)
Fixpoint leading_id_chars (n : nat) (s : string) : bool :=
  match n with
  | O => true
  | S n' =>
      match s with
      | String c r => is_id_char c && leading_id_chars n' r
      | EmptyString => false
      end
  end.

Definition hasDescriptiveWords (filename : string) : bool :=
  let lowerFilename := toLowerCase filename in
  existsb (includes lowerFilename) descriptiveWords.

Definition isCrypticFilename (filename : string) : bool :=
  leading_id_chars 8 filename && negb (hasDescriptiveWords filename).

Definition calculateEcommerceMatchConfidence (productName : string)
    (brandName : option string) : Q :=
  let confidence := 0.85%Q in
  let confidence := if branded brandName then 0.95%Q else confidence in
  let productTokens :=
    List.filter (fun token => (2 <? String.length token)%nat)
                (split_on " " (toLowerCase productName)) in
  let confidence :=
    if (3 <=? List.length productTokens)%nat
    then Qmin (confidence + 0.05) 1.0 else confidence in
  let confidence := if negb (branded brandName) then 0.75%Q else confidence in
  confidence.

(** How many of [needles] occur in [haystack]: the [forEach] loops that
    count with [includes]. *)
Definition count_included (haystack : string) (needles : list string) : nat :=
  List.length (List.filter (includes haystack) needles).

Definition calculateAttributeMatch (productTokens : Tokens) (filename : string) : Q :=
  let filenameText := toLowerCase filename in
  let totalAttributes :=
    (List.length (sizes productTokens) + List.length (colors productTokens) +
     List.length (materials productTokens))%nat in
  let matchCount :=
    (count_included filenameText (List.map toLowerCase (sizes productTokens)) +
     count_included filenameText (colors productTokens) +
     count_included filenameText (materials productTokens))%nat in
  if (0 <? totalAttributes)%nat then ratio matchCount totalAttributes else 0.5%Q.

Definition calculateSizeMatch (productTokens : Tokens) (filename : string) : Q :=
  if (List.length (sizes productTokens) =? 0)%nat then 0.5%Q
  else
    let filenameText := toLowerCase filename in
    ratio (count_included filenameText (List.map toLowerCase (sizes productTokens)))
          (List.length (sizes productTokens)).

Definition calculateBrandMatch (productTokens : Tokens) (filename : string)
    (brandName : option string) : Q :=
  let filenameText := toLowerCase filename in
  match brandName with
  | Some b =>
      if negb (branded brandName) then 0.5%Q
      else
        let brand := toLowerCase b in
        if includes filenameText brand then 1.0%Q
        else if (3 <? String.length brand)%nat &&
                includes filenameText (String.substring 0 3 brand) then 0.8%Q
        else if (String.length brand <=? 3)%nat && includes filenameText brand
        then 1.0%Q
        else if (0 <? List.length (brands productTokens))%nat then
          ratio (List.length
                   (List.filter (includes filenameText) (brands productTokens)))
                (List.length (brands productTokens))
        else 0.0%Q
  | None => 0.5%Q
  end.

Section WithLibraries.

(** [compareTwoStrings] of the string-similarity package (a Dice
    coefficient, documented to lie between 0 and 1) and the matches of
    the four size patterns of [extractProductTokens] on the lower-cased
    product name, given by the regular-expression engine. *)
Variable compareTwoStrings : string -> string -> Q.
Variable sizeMatches : string -> list string.

Definition extractProductTokens (productName : string)
    (brandName : option string) : Tokens :=
  let text := toLowerCase productName in
  {| sizes := sizeMatches text;
     colors := List.filter (includes text) colorWords;
     materials := List.filter (includes text) materialWords;
     brands :=
       match brandName with
       | Some b =>
           if branded brandName then
             toLowerCase b ::
             (if (3 <? String.length b)%nat
              then [String.substring 0 4 (toLowerCase b)] else [])
           else []
       | None => []
       end;
     attributes :=
       List.filter (fun word => (2 <? String.length word)%nat) (words text "") |}.

Definition calculateTextSimilarity (text1 text2 : string) : Q :=
  let clean s := filter_chars (fun c => is_lower_alnum c || is_space c)
                              (toLowerCase s) in
  compareTwoStrings (clean text1) (clean text2).

(** The body of the [try] block of [calculateMatchConfidence];
    [productName] is [None] for a value that is not a string, on which
    [extractProductTokens] throws. *)
Definition matchConfidenceBody (imagePath : string)
    (productName : option string) (brandName : option string) : option Q :=
  match productName with
  | None => None
  | Some productName =>
      let productTokens := extractProductTokens productName brandName in
      let filename := Path.basename imagePath (Path.extname imagePath) in
      if isCrypticFilename filename then
        Some (Qmin (calculateEcommerceMatchConfidence productName brandName) 1.0)
      else
        let brandScore := calculateBrandMatch productTokens filename brandName in
        let nameScore := calculateTextSimilarity filename productName in
        let attributeScore := calculateAttributeMatch productTokens filename in
        let sizeScore := calculateSizeMatch productTokens filename in
        let confidence :=
          (0 + brandScore * 0.40 + nameScore * 0.30 +
           attributeScore * 0.20 + sizeScore * 0.10)%Q in
        let confidence :=
          match brandName with
          | Some b =>
              if branded brandName &&
                 includes (toLowerCase filename) (toLowerCase b) &&
                 Qltb 0.8 (calculateTextSimilarity filename productName)
              then Qmin (confidence + 0.2) 1.0 else confidence
          | None => confidence
          end in
        let confidence :=
          if negb (branded brandName)
          then (nameScore * 0.6 + attributeScore * 0.3 + sizeScore * 0.1)%Q
          else confidence in
        Some (Qmin confidence 1.0)
  end.

Definition calculateMatchConfidence (imagePath : string)
    (productName : option string) (brandName : option string) : Q :=
  match matchConfidenceBody imagePath productName brandName with
  | Some confidence => confidence
  | None => 0
  end.

Record Validation := {
  isMatch : bool;
  confidence : Q;
  needsNSFolder : bool;
  isPerfectMatch : bool;
  brandMatched : bool
}.

Definition validateImageMatch (imagePath : string)
    (productName : option string) (itemId : string)
    (brandName : option string) : Validation :=
  let confidence := calculateMatchConfidence imagePath productName brandName in
  let isHighConfidence := Qleb matchThreshold confidence in
  let isPerfectMatch := Qleb perfectMatchThreshold confidence in
  {| isMatch := isHighConfidence;
     confidence := confidence;
     needsNSFolder := negb isHighConfidence;
     isPerfectMatch := isPerfectMatch;
     brandMatched := branded brandName |}.

End WithLibraries.

End ImageValidator.

(** ** [modules/downloadManager.js] (src/src/modules/downloadManager.js) *)

Module DownloadManager.
Import JsString Js.

Record Stats := {
  totalAttempted : nat;
  successful : nat;
  failed : nat;
  qualityRejected : nat;
  duplicatesSkipped : nat;
  lowMatchSkipped : nat
}.

(** One element of [metadata.json]. *)
Record SidecarEntry := {
  fileName : string;
  entryUrl : string;
  downloadDate : Z;
  qualityScore : Q;
  entryDimensions : option (Z * Z);
  entryBackgroundConfidence : Q;
  entryHasWatermark : bool
}.

(** The output tree: image files by path, and the [metadata.json] of each
    directory, an array of entries.  [Async.SidecarFile], further down, has
    the other contents such a file can have. *)
Record Disk := {
  files : gmap string (list Z);
  sidecars : gmap string (list SidecarEntry)
}.

Record State := {
  downloadedHashes : gset string;
  itemImageCounts : gmap string nat;
  stats : Stats;
  analyzerCache : list (string * QualityAnalyzer.Analysis);
  duplicateState : ImageValidator.DuplicateState;
  disk : Disk
}.

Definition zeroStats : Stats :=
  {| totalAttempted := 0; successful := 0; failed := 0; qualityRejected := 0;
     duplicatesSkipped := 0; lowMatchSkipped := 0 |}.

(** The state the constructor builds, over a given output tree. *)
Definition initial (d : Disk) : State :=
  {| downloadedHashes := ∅; itemImageCounts := ∅; stats := zeroStats;
     analyzerCache := [];
     duplicateState :=
       {| ImageValidator.processedHashes := ∅; ImageValidator.similarImages := [] |};
     disk := d |}.

Definition emptyDisk : Disk := {| files := ∅; sidecars := ∅ |}.

Definition set_stats (st : State) (s : Stats) : State :=
  {| downloadedHashes := downloadedHashes st; itemImageCounts := itemImageCounts st;
     stats := s; analyzerCache := analyzerCache st;
     duplicateState := duplicateState st; disk := disk st |}.

Definition set_cache (st : State) (c : list (string * QualityAnalyzer.Analysis))
  : State :=
  {| downloadedHashes := downloadedHashes st; itemImageCounts := itemImageCounts st;
     stats := stats st; analyzerCache := c;
     duplicateState := duplicateState st; disk := disk st |}.

Definition set_disk (st : State) (d : Disk) : State :=
  {| downloadedHashes := downloadedHashes st; itemImageCounts := itemImageCounts st;
     stats := stats st; analyzerCache := analyzerCache st;
     duplicateState := duplicateState st; disk := d |}.

Definition set_duplicateState (st : State) (d : ImageValidator.DuplicateState)
  : State :=
  {| downloadedHashes := downloadedHashes st; itemImageCounts := itemImageCounts st;
     stats := stats st; analyzerCache := analyzerCache st;
     duplicateState := d; disk := disk st |}.

(** [downloadedHashes.add(h); itemImageCounts.set(id, n)]. *)
Definition track (st : State) (h id : string) (n : nat) : State :=
  {| downloadedHashes := {[h]} ∪ downloadedHashes st;
     itemImageCounts := <[id := n]> (itemImageCounts st);
     stats := stats st; analyzerCache := analyzerCache st;
     duplicateState := duplicateState st; disk := disk st |}.

Definition bump_totalAttempted (s : Stats) : Stats :=
  {| totalAttempted := S (totalAttempted s); successful := successful s;
     failed := failed s; qualityRejected := qualityRejected s;
     duplicatesSkipped := duplicatesSkipped s; lowMatchSkipped := lowMatchSkipped s |}.

Definition bump_successful (s : Stats) : Stats :=
  {| totalAttempted := totalAttempted s; successful := S (successful s);
     failed := failed s; qualityRejected := qualityRejected s;
     duplicatesSkipped := duplicatesSkipped s; lowMatchSkipped := lowMatchSkipped s |}.

Definition bump_failed (s : Stats) : Stats :=
  {| totalAttempted := totalAttempted s; successful := successful s;
     failed := S (failed s); qualityRejected := qualityRejected s;
     duplicatesSkipped := duplicatesSkipped s; lowMatchSkipped := lowMatchSkipped s |}.

Definition bump_qualityRejected (s : Stats) : Stats :=
  {| totalAttempted := totalAttempted s; successful := successful s;
     failed := failed s; qualityRejected := S (qualityRejected s);
     duplicatesSkipped := duplicatesSkipped s; lowMatchSkipped := lowMatchSkipped s |}.

Definition bump_duplicatesSkipped (s : Stats) : Stats :=
  {| totalAttempted := totalAttempted s; successful := successful s;
     failed := failed s; qualityRejected := qualityRejected s;
     duplicatesSkipped := S (duplicatesSkipped s); lowMatchSkipped := lowMatchSkipped s |}.

Inductive Error :=
| MaximumImagesReached
| UnsupportedExtension (urlExt : string)
| UnsupportedContentType (contentType : string)
| RequestFailed (message : string)
| DecodeFailed
| UnsupportedFormat (fmt : string)
| DuplicateImage
| QualityValidationFailed (issues : list string)
| WriteFailed
| StatFailed
| FileSizeMismatch
| SidecarWriteFailed.

(** The text of the [Error] thrown by the source, where it fixes one. *)
Definition message (e : Error) : string :=
  match e with
  | MaximumImagesReached => "Maximum images per item reached (5)"
  | UnsupportedExtension x => "Unsupported file extension in URL: " +:+ x
  | UnsupportedContentType c => "Unsupported Content-Type: " +:+ c
  | RequestFailed m => m
  | DecodeFailed => "Input buffer contains unsupported image format"
  | UnsupportedFormat f => "Unsupported MIME/format from data: " +:+ f
  | DuplicateImage => "Duplicate image detected"
  | QualityValidationFailed l =>
      "Image quality validation failed: " +:+ String.concat ", " l
  | WriteFailed => "writeFile failed"
  | StatFailed => "stat failed"
  | FileSizeMismatch => "File size mismatch after writing"
  | SidecarWriteFailed => "writeFileSync failed"
  end.

(** What the outside world answers during one call of
    [downloadSingleImage]:
    - [head]: the [content-type] header of the HEAD response, [None] when
      the request rejects;
    - [get]: the body of the GET response, or the message of the error it
      rejects with (a timeout, a reset connection);
    - [crop]: the square crop, re-encoded as JPEG, for a target size, and
      [None] when that pipeline rejects;
    - [now]: [Date.now()] when the file name is made;
    - [writeFile]: whether [fs.writeFile] resolves (the file then holds the
      buffer), [fstat]: the size [fs.stat] reports, [None] when it
      rejects; [writeSidecar]: whether writing [metadata.json] returns. *)
Record World := {
  head : option string;
  get : string + Buffer;
  crop : Z -> option Buffer;
  now : Z;
  writeFile : bool;
  fstat : option Z;
  writeSidecar : bool
}.

Record Success := {
  filePath : string;
  resultUrl : string;
  resultFileSize : Z;
  resultQualityScore : Q;
  resultDimensions : option (Z * Z);
  resultBackgroundConfidence : Q;
  resultHasWatermark : bool
}.

(** The local of [downloadSingleImage] that is read before the first
    [await] and used after the last one. *)
Record Pending := {
  currentCount : nat
}.

Definition generateImageHash (imageBuffer : Buffer) : string :=
  match grey8x8 imageBuffer with
  | Some resized => Md5.md5hex resized
  | None => Md5.md5hex (data imageBuffer)
  end.

(** [Helpers.generateUniqueFilename], at the clock value [timestamp]. *)
Definition generateUniqueFilename (baseFilename extension : string)
    (timestamp : Z) : string :=
  let hash :=
    String.substring 0 8
      (Md5.md5hex (Md5.bytes_of_string (baseFilename +:+ "_" +:+ dec timestamp))) in
  baseFilename +:+ "_" +:+ hash +:+ extension.

(** [path.join(dir, name)] on a directory path without a trailing
    separator. *)
Definition join (dir name : string) : string := dir +:+ "/" +:+ name.

(** The [catch] block of [downloadSingleImage]. *)
Definition throw {A : Type} (st : State) (e : Error) : (Error + A) * State :=
  (inl e, set_stats st (bump_failed (stats st))).

Section WithUrlParser.
Variable pathname_of : string -> option string.

(** [downloadSingleImage] up to its first [await]. *)
Definition beginDownload (st : State) (url itemId : string)
  : (Error + Pending) * State :=
  let currentCount := default 0%nat (itemImageCounts st !! itemId) in
  if (5 <=? currentCount)%nat then throw st MaximumImagesReached
  else
    let st := set_stats st (bump_totalAttempted (stats st)) in
    let urlExt :=
      match pathname_of url with
      | Some pathname => toLowerCase (Path.extname pathname)
      | None => toLowerCase (Path.extname url)
      end in
    if truthy urlExt && negb (array_includes [".jpg"; ".jpeg"; ".png"] urlExt)
    then throw st (UnsupportedExtension urlExt)
    else (inr {| currentCount := currentCount |}, st).

(** [downloadSingleImage] from its first [await] on, no other call taking
    a turn in between, over a [metadata.json] that is an array of entries
    or is not there.  [Async.resume] has the turns one by one and the other
    contents of the file. *)
Definition finishDownload (st : State) (pending : Pending)
    (url outputDir itemId : string) (imageIndex : nat) (w : World)
  : (Error + Success) * State :=
  let contentType := default "" (head w) in
  if truthy contentType &&
     negb (startsWith contentType "image/jpeg" || startsWith contentType "image/png")
  then throw st (UnsupportedContentType contentType)
  else
    match get w with
    | inl msg => throw st (RequestFailed msg)
    | inr imageBuffer =>
        match decoded imageBuffer with
        | None => throw st DecodeFailed
        | Some meta =>
            let fmt := toLowerCase (format meta) in
            if negb (array_includes ["jpeg"; "jpg"; "png"] fmt)
            then throw st (UnsupportedFormat (format meta))
            else
              let imageHash := generateImageHash imageBuffer in
              if bool_decide (imageHash ∈ downloadedHashes st) then
                throw (set_stats st (bump_duplicatesSkipped (stats st)))
                      DuplicateImage
              else
                let minSide := Z.min (width meta) (height meta) in
                let targetSize := Z.max 500 (Z.min 1200 minSide) in
                let imageBuffer :=
                  match crop w targetSize with
                  | Some cropped => cropped
                  | None => imageBuffer
                  end in
                let '(qualityAnalysis, cache) :=
                  QualityAnalyzer.analyzeImage (analyzerCache st) imageBuffer url in
                let st := set_cache st cache in
                if negb (QualityAnalyzer.isValid qualityAnalysis) then
                  throw (set_stats st (bump_qualityRejected (stats st)))
                        (QualityValidationFailed
                           (QualityAnalyzer.issues qualityAnalysis))
                else
                  let baseFilename := itemId +:+ "_" +:+ dec (Z.of_nat imageIndex) in
                  let filename := generateUniqueFilename baseFilename ".jpg" (now w) in
                  let filePath := join outputDir filename in
                  if negb (writeFile w) then throw st WriteFailed
                  else
                    let st :=
                      set_disk st
                        {| files := <[filePath := data imageBuffer]> (files (disk st));
                           sidecars := sidecars (disk st) |} in
                    match fstat w with
                    | None => throw st StatFailed
                    | Some size =>
                        if negb (size =? byteLength imageBuffer)%Z
                        then throw st FileSizeMismatch
                        else
                          let st :=
                            track st imageHash itemId (currentCount pending + 1) in
                          let st := set_stats st (bump_successful (stats st)) in
                          let metadataPath := join outputDir "metadata.json" in
                          let metadata :=
                            default [] (sidecars (disk st) !! metadataPath) in
                          let metadata :=
                            metadata ++
                            [{| fileName := filename; entryUrl := url;
                                downloadDate := now w;
                                qualityScore := QualityAnalyzer.score qualityAnalysis;
                                entryDimensions :=
                                  QualityAnalyzer.dimensions qualityAnalysis;
                                entryBackgroundConfidence :=
                                  QualityAnalyzer.backgroundConfidence qualityAnalysis;
                                entryHasWatermark :=
                                  QualityAnalyzer.hasWatermark qualityAnalysis |}] in
                          if negb (writeSidecar w) then throw st SidecarWriteFailed
                          else
                            let st :=
                              set_disk st
                                {| files := files (disk st);
                                   sidecars :=
                                     <[metadataPath := metadata]> (sidecars (disk st)) |} in
                            (inr {| filePath := filePath; resultUrl := url;
                                    resultFileSize := size;
                                    resultQualityScore :=
                                      QualityAnalyzer.score qualityAnalysis;
                                    resultDimensions :=
                                      QualityAnalyzer.dimensions qualityAnalysis;
                                    resultBackgroundConfidence :=
                                      QualityAnalyzer.backgroundConfidence
                                        qualityAnalysis;
                                    resultHasWatermark :=
                                      QualityAnalyzer.hasWatermark qualityAnalysis |},
                             st)
                    end
        end
    end.

(** A call of [downloadSingleImage] that no other task interleaves
    with. *)
Definition downloadSingleImage (st : State) (url outputDir itemId : string)
    (imageIndex : nat) (w : World) : (Error + Success) * State :=
  match beginDownload st url itemId with
  | (inl e, st) => (inl e, st)
  | (inr pending, st) => finishDownload st pending url outputDir itemId imageIndex w
  end.

End WithUrlParser.

(** A candidate URL, with what the world answers to the k-th attempt at
    downloading it (k from 1). *)
Definition Candidate : Type := string * (nat -> World).

Record Product := {
  itemid : string;
  name : string;
  brand : option string;
  imageMatchingConfidence : option Q
}.

Record DownloadResult := {
  itemId : string;
  attempted : nat;
  downloaded : nat;
  failedCount : nat;
  downloadedFiles : list string;
  errors : list (nat * string);
  validationResults : list (string * Q * bool);
  averageConfidence : Q;
  perfectMatches : nat;
  highConfidenceMatches : nat;
  needsNSFolder : bool
}.

(** [array.slice(i, i + size)] for i = 0, size, 2 size, ... *)
Fixpoint chunk_acc {A : Type} (size room : nat) (cur : list A) (l : list A)
  : list (list A) :=
  match l with
  | [] => match cur with [] => [] | _ => [List.rev cur] end
  | x :: r =>
      match room with
      | O => List.rev cur :: chunk_acc size (size - 1) [x] r
      | S room' => chunk_acc size room' (x :: cur) r
      end
  end.

Definition chunksOf {A : Type} (size : nat) (l : list A) : list (list A) :=
  chunk_acc size size [] l.

Section Pipeline.
Variable pathname_of : string -> option string.
Variable compareTwoStrings : string -> string -> Q.
Variable sizeMatches : string -> list string.

(** [chunk.map((url, index) => this.downloadSingleImage(...))]: every
    call runs up to its first [await] before any of them resumes. *)
Fixpoint beginAll (st : State) (chunk : list Candidate) (itemId : string)
  : list (Candidate * (Error + Pending)) * State :=
  match chunk with
  | [] => ([], st)
  | c :: r =>
      let '(b, st) := beginDownload pathname_of st (fst c) itemId in
      let '(bs, st) := beginAll st r itemId in
      ((c, b) :: bs, st)
  end.

(** [await Promise.allSettled(chunkPromises)], for the schedule in which
    the started calls resume and run to their end one after the other,
    in the order of the chunk.  [Async.allSettled] takes the schedule as an
    input. *)
Fixpoint finishAll (st : State) (started : list (Candidate * (Error + Pending)))
    (outputDir itemId : string) (imageIndex : nat)
  : list (Error + Success) * State :=
  match started with
  | [] => ([], st)
  | (c, b) :: r =>
      let '(res, st) :=
        match b with
        | inl e => (inl e, st)
        | inr pending =>
            finishDownload st pending (fst c) outputDir itemId imageIndex (snd c 1%nat)
        end in
      let '(rs, st) := finishAll st r outputDir itemId (S imageIndex) in
      (res :: rs, st)
  end.

(** [processDownloadsInChunks] for that schedule. *)
Definition processDownloadsInChunks (st : State) (imageUrls : list Candidate)
    (outputDir itemId : string) : list (Error + Success) * State :=
  let chunkSize := Settings.concurrentDownloads in
  let '(results, st, _) :=
    List.fold_left
      (fun '(results, st, i) chunk =>
         let '(started, st) := beginAll st chunk itemId in
         let '(chunkResults, st) :=
           finishAll st started outputDir itemId (i + 1) in
         (results ++ chunkResults, st, (i + chunkSize)%nat))
      (chunksOf chunkSize imageUrls) ([], st, 0%nat) in
  (results, st).

(** The loop over the settled results. *)
Fixpoint collect (product : Product) (results : list (Error + Success))
    (i : nat) (acc : DownloadResult) (validImageCount : nat)
    (totalConfidence : Q) : DownloadResult * nat * Q :=
  match results with
  | [] => (acc, validImageCount, totalConfidence)
  | inr ok :: r =>
      let validation :=
        ImageValidator.validateImageMatch compareTwoStrings sizeMatches
          (filePath ok) (Some (name product)) (itemid product) (brand product) in
      let acc :=
        {| itemId := itemId acc; attempted := attempted acc;
           downloaded := S (downloaded acc); failedCount := failedCount acc;
           downloadedFiles := downloadedFiles acc ++ [filePath ok];
           errors := errors acc;
           validationResults :=
             validationResults acc ++
             [(filePath ok, ImageValidator.confidence validation,
               ImageValidator.isMatch validation)];
           averageConfidence := averageConfidence acc;
           perfectMatches := perfectMatches acc;
           highConfidenceMatches := highConfidenceMatches acc;
           needsNSFolder := needsNSFolder acc |} in
      collect product r (S i) acc (S validImageCount)
              (totalConfidence + ImageValidator.confidence validation)%Q
  | inl e :: r =>
      let acc :=
        {| itemId := itemId acc; attempted := attempted acc;
           downloaded := downloaded acc; failedCount := S (failedCount acc);
           downloadedFiles := downloadedFiles acc;
           errors := errors acc ++ [(S i, message e)];
           validationResults := validationResults acc;
           averageConfidence := averageConfidence acc;
           perfectMatches := perfectMatches acc;
           highConfidenceMatches := highConfidenceMatches acc;
           needsNSFolder := needsNSFolder acc |} in
      collect product r (S i) acc validImageCount totalConfidence
  end.

(** [downloadProductImages] when [fs.ensureDir(outputDir)] resolves (the
    output tree holds files only, so that it leaves no trace in it), the
    confidences being added and divided as the rationals they are.
    [Async.downloadProductImages] has the failure of [fs.ensureDir] and the
    rounding sum and quotient of doubles. *)
Definition downloadProductImages (st : State) (product : Product)
    (imageUrls : list Candidate) (outputDir : string)
  : DownloadResult * Product * State :=
  let st :=
    set_duplicateState st
      (ImageValidator.resetDuplicateDetection (duplicateState st)) in
  let imagesToDownload := List.firstn Settings.maxImagesPerItem imageUrls in
  let '(results, st) :=
    processDownloadsInChunks st imagesToDownload outputDir (itemid product) in
  let downloadResult :=
    {| itemId := itemid product; attempted := List.length results;
       downloaded := 0; failedCount := 0; downloadedFiles := []; errors := [];
       validationResults := []; averageConfidence := 0; perfectMatches := 0;
       highConfidenceMatches := 0; needsNSFolder := false |} in
  let '(downloadResult, validImageCount, totalConfidence) :=
    collect product results 0 downloadResult 0 0%Q in
  let avgConfidence :=
    if (0 <? validImageCount)%nat
    then (totalConfidence / inject_Z (Z.of_nat validImageCount))%Q else 0%Q in
  let count f :=
    List.length (List.filter (fun v => f (snd (fst v)))
                             (validationResults downloadResult)) in
  let downloadResult :=
    {| itemId := itemId downloadResult; attempted := attempted downloadResult;
       downloaded := downloaded downloadResult;
       failedCount := failedCount downloadResult;
       downloadedFiles := downloadedFiles downloadResult;
       errors := errors downloadResult;
       validationResults := validationResults downloadResult;
       averageConfidence := avgConfidence;
       perfectMatches := count (Qleb 1.0);
       highConfidenceMatches := count (Qleb 0.7);
       needsNSFolder := Qltb avgConfidence 0.7 |} in
  let product :=
    {| itemid := itemid product; name := name product; brand := brand product;
       imageMatchingConfidence := Some avgConfidence |} in
  (downloadResult, product, st).

(** What [processQueue] does with one queued download, no other task
    interleaving: [Helpers.retry] around [downloadSingleImage]. *)
Definition downloadImageWithQueue (st : State) (c : Candidate)
    (outputDir itemId : string) (imageIndex : nat)
  : option (Error + Success) * State * list Q :=
  Helpers.retry
    (fun attempt st =>
       downloadSingleImage pathname_of st (fst c) outputDir itemId imageIndex
                           (snd c attempt))
    Settings.retryAttempts 1000 st.

End Pipeline.

End DownloadManager.

(** ** [main.js] (src/src/main.js) and the folder rules of
    [modules/fileManager.js] (src/unnamed/part_004) *)

Module Main.
Import JsString Js DownloadManager.

Inductive Classification := Found | NotSure | NoImageFound.

(** [FileManager.generateFolderName], at the clock value [timestamp]. *)
Definition generateFolderName (product : Product) (isNotSure : bool)
    (timestamp : Z) : string :=
  let folderName := itemid product in
  let folderName := if isNotSure then folderName +:+ " (NS)" else folderName in
  let folderName := Helpers.sanitizeFilename folderName in
  if negb (truthy folderName) || (String.length (Helpers.trim folderName) =? 0)%nat
  then
    let folderName := "product_" +:+ dec timestamp in
    if isNotSure then folderName +:+ "_NS" else folderName
  else folderName.

(** The predicate of the [filter] of step 4 of [run]. *)
Definition isNifProduct (downloadResults : list DownloadResult)
    (product : Product) : bool :=
  match List.find (fun r => String.eqb (itemId r) (itemid product)) downloadResults with
  | None => true
  | Some result => (downloaded result =? 0)%nat
  end.

(** The predicate of the [filter] of step 5 of [run]. *)
Definition isLowConfidenceProduct (p : Product) : bool :=
  let c := default 0%Q (imageMatchingConfidence p) in
  Qltb c 0.7 && Qltb 0 c.

(** The terminal state of an item: step 4 hands it to
    [handleNoImageFound], step 5 to [handleLowConfidenceMatches], and an
    item handed to neither keeps the folder of [setupFolderStructure]. *)
Definition classification (downloadResults : list DownloadResult)
    (product : Product) : Classification :=
  if isNifProduct downloadResults product then NoImageFound
  else if isLowConfidenceProduct product then NotSure
  else Found.

(** The same decision on the two numbers it reads: the images kept for
    the item and their average confidence. *)
Definition classify (kept : nat) (avgConfidence : Q) : Classification :=
  if (kept =? 0)%nat then NoImageFound
  else if Qltb avgConfidence 0.7 && Qltb 0 avgConfidence then NotSure
  else Found.

(** The folder the handlers leave for an item. *)
Definition folderName (c : Classification) (product : Product) (timestamp : Z)
  : string :=
  match c with
  | NoImageFound => generateFolderName product false timestamp +:+ Settings.nifSuffix
  | NotSure => generateFolderName product true timestamp
  | Found => generateFolderName product false timestamp
  end.

End Main.

(** ** Concrete inputs used by the examples *)

Module Examples.
Import JsString Js DownloadManager.

(** A URL parser for the examples: the pathname of an absolute URL made of
    a scheme, an authority and a path, with neither query nor fragment;
    a string without [://] does not parse. *)
Fixpoint after_scheme (s : string) : option string :=
  match s with
  | String ":" (String "/" (String "/" r)) => Some r
  | String _ r => after_scheme r
  | EmptyString => None
  end.

Fixpoint from_slash (s : string) : string :=
  match s with
  | String "/" _ => s
  | String _ r => from_slash r
  | EmptyString => "/"
  end.

Definition simple_pathname (u : string) : option string :=
  option_map from_slash (after_scheme u).

(** An 8x8 greyscale raster: 63 pixels of value 10 and a last pixel. *)
Definition raster (last : Z) : list Z := List.repeat 10%Z 63 ++ [last].

(** A downloaded JPEG body of 800x800 pixels whose thumbnail is [r]. *)
Definition body (r : list Z) : Buffer :=
  {| data := 255%Z :: 216%Z :: r;
     decoded := Some {| format := "jpeg"; width := 800; height := 800 |};
     grey8x8 := Some r |}.

(** Its square crop re-encoded as JPEG: 10000 bytes, 800x800. *)
Definition cropped (fill : Z) : Buffer :=
  {| data := List.repeat fill (100 * 100);
     decoded := Some {| format := "jpeg"; width := 800; height := 800 |};
     grey8x8 := None |}.

(** A world in which everything goes well for an image of thumbnail
    [raster last], at clock value [t]. *)
Definition fine (last t : Z) : World :=
  {| head := Some "image/jpeg";
     get := inr (body (raster last));
     crop := fun _ => Some (cropped last);
     now := t;
     writeFile := true;
     fstat := Some 10000%Z;
     writeSidecar := true |}.

(** The same world with a GET request that times out. *)
Definition timedOut (last t : Z) : World :=
  {| head := None;
     get := inl "timeout of 15000ms exceeded";
     crop := fun _ => Some (cropped last);
     now := t;
     writeFile := true;
     fstat := Some 10000%Z;
     writeSidecar := true |}.

(** The same world with a [metadata.json] that cannot be written. *)
Definition sidecarLocked (last t : Z) : World :=
  {| head := Some "image/jpeg";
     get := inr (body (raster last));
     crop := fun _ => Some (cropped last);
     now := t;
     writeFile := true;
     fstat := Some 10000%Z;
     writeSidecar := false |}.

(** The same world with a disk that reports a short file. *)
Definition shortWrite (last t : Z) : World :=
  {| head := Some "image/jpeg";
     get := inr (body (raster last));
     crop := fun _ => Some (cropped last);
     now := t;
     writeFile := true;
     fstat := Some 4096%Z;
     writeSidecar := true |}.

Definition photo (k : Z) : string :=
  "https://cdn.example.com/p/" +:+ dec k +:+ ".jpg".

(** A candidate that downloads well at every attempt. *)
Definition good (k : Z) : Candidate :=
  (photo k, fun attempt => fine (20 + k) (1700000000000 + k)).

(** Six candidates with six different pictures, and six more. *)
Definition sixGood : list Candidate := List.map good [1; 2; 3; 4; 5; 6]%Z.
Definition sixMore : list Candidate := List.map good [7; 8; 9; 10; 11; 12]%Z.

(** A candidate whose first attempt times out and whose later attempts
    download well. *)
Definition flaky : Candidate :=
  (photo 1,
   fun attempt =>
     if (attempt =? 1)%nat then timedOut 21 1700000000001
     else fine 21 (1700000000000 + Z.of_nat attempt)).

Definition widget : Product :=
  {| itemid := "W-100"; name := "Widget"; brand := None;
     imageMatchingConfidence := None |}.

Definition gadget : Product :=
  {| itemid := "G-200"; name := "Gadget"; brand := None;
     imageMatchingConfidence := None |}.

(** A branded item whose identifier holds a space and whose name holds a
    size. *)
Definition bolt : Product :=
  {| itemid := "X 7"; name := "bolt xl"; brand := Some "ACME";
     imageMatchingConfidence := None |}.

(** Two pictures whose thumbnails differ in one pixel. *)
Definition nearDuplicates : list Candidate :=
  [(photo 1, fun attempt => fine 10 1700000000001);
   (photo 2, fun attempt => fine 200 1700000000002)].

(** A candidate whose picture is the one of [good 1], under another URL. *)
Definition samePicture : Candidate :=
  (photo 31, fun attempt => fine 21 1700000000031).

(** Candidates whose picture is written and whose download then fails. *)
Definition lockedSidecar : Candidate :=
  (photo 1, fun attempt => sidecarLocked 21 1700000000001).
Definition shortFile : Candidate :=
  (photo 1, fun attempt => shortWrite 21 1700000000001).

(** Stand-ins for the two library functions on the arguments of the
    examples: no two of the compared strings share a bigram, and only the
    name [bolt xl] holds a size. *)
Definition noSimilarity (a b : string) : Q := 0.
Definition sizesOf (text : string) : list string :=
  if String.eqb text "bolt xl" then ["xl"] else [].

(** The pipeline of the examples. *)
Definition download (st : State) (product : Product) (imageUrls : list Candidate)
    (outputDir : string) : DownloadResult * Product * State :=
  downloadProductImages simple_pathname noSimilarity sizesOf st product imageUrls
                        outputDir.

End Examples.

(** ** Observing the calls of [Helpers.retry] *)

Module RetryLog.

(** [fn] with a log of its calls: the state carries the attempt numbers
    [fn] was called with, in the order of the calls. *)
Definition logged {St E A : Type} (fn : nat -> St -> (E + A) * St)
    (attempt : nat) (s : list nat * St) : (E + A) * (list nat * St) :=
  let '(r, st') := fn attempt (snd s) in
  (r, (fst s ++ [attempt], st')).

End RetryLog.

(** ** [modules/imageSearch.js] (src/unnamed/part_001): user agents, the
    image-product match and the duplicate check of the search step *)

Module SearchSession.
Import JsString Js.

(** [initUserAgents]. *)
Definition userAgents : list string :=
  ["Mozilla/5.0 (Windows NT 10.0; Win64; x64) AppleWebKit/537.36 (KHTML, like Gecko) Chrome/120.0.0.0 Safari/537.36";
   "Mozilla/5.0 (Windows NT 10.0; Win64; x64) AppleWebKit/537.36 (KHTML, like Gecko) Chrome/119.0.0.0 Safari/537.36";
   "Mozilla/5.0 (Windows NT 10.0; Win64; x64; rv:109.0) Gecko/20100101 Firefox/121.0";
   "Mozilla/5.0 (Macintosh; Intel Mac OS X 10_15_7) AppleWebKit/537.36 (KHTML, like Gecko) Chrome/120.0.0.0 Safari/537.36";
   "Mozilla/5.0 (Windows NT 10.0; Win64; x64) AppleWebKit/537.36 (KHTML, like Gecko) Edge/120.0.0.0 Safari/537.36"].

(** [getNextUserAgent], on the field [currentUserAgentIndex]; an index
    outside the array reads as [undefined] ([None]). *)
Definition getNextUserAgent (currentUserAgentIndex : nat) : option string * nat :=
  (List.nth_error userAgents currentUserAgentIndex,
   ((currentUserAgentIndex + 1) mod List.length userAgents)%nat).

(** The index after [n] calls, the constructor having set it to 0. *)
Fixpoint indexAfter (n : nat) : nat :=
  match n with
  | O => 0%nat
  | S n' => snd (getNextUserAgent (indexAfter n'))
  end.

(** [calculateImageProductMatch]; the keywords are not read. *)
Definition calculateImageProductMatch (imageBuffer : Buffer) (keywords : list string)
  : Q :=
  match decoded imageBuffer with
  | None => 0.3
  | Some metadata =>
      let score := 0.5%Q in
      let aspectRatio := (inject_Z (width metadata) / inject_Z (height metadata))%Q in
      let score :=
        if Qleb 0.8 aspectRatio && Qleb aspectRatio 1.25 then (score + 0.2)%Q
        else score in
      let score :=
        if (500 <=? width metadata)%Z && (500 <=? height metadata)%Z
        then (score + 0.1)%Q else score in
      let score :=
        if (800 <=? width metadata)%Z && (800 <=? height metadata)%Z
        then (score + 0.1)%Q else score in
      let score :=
        if array_includes ["jpeg"; "jpg"; "png"] (format metadata)
        then (score + 0.1)%Q else score in
      Qmin 1 score
  end.

Record Match := {
  matchingScore : Q;
  isValidMatch : bool;
  keywords : list string;
  matchConfidence : Q
}.

(** [ImageSearch.validateImageMatch]; [productKeywords] is what
    [extractProductKeywords(product)] returned, [None] when it threw. *)
Definition validateImageMatch (imageBuffer : Buffer)
    (productKeywords : option (list string)) : Match :=
  match productKeywords with
  | Some productKeywords =>
      let matchingScore := calculateImageProductMatch imageBuffer productKeywords in
      {| matchingScore := matchingScore;
         isValidMatch := Qleb 0.7 matchingScore;
         keywords := productKeywords;
         matchConfidence := matchingScore |}
  | None =>
      {| matchingScore := 0; isValidMatch := false; keywords := [];
         matchConfidence := 0 |}
  end.

(** [isDuplicateImage] on the set [imageHashes], kept in insertion order;
    [hash] is what [generateImageHash] resolved to for the buffer. *)
Definition isDuplicateImage (imageHashes : list string) (hash : string)
  : bool * list string :=
  if array_includes imageHashes hash then (true, imageHashes)
  else if existsb
            (fun existingHash =>
               Qltb 0.9 (ImageSearch.calculateHashSimilarity hash existingHash))
            imageHashes
  then (true, imageHashes)
  else (false, imageHashes ++ [hash]).

(** The set after the hashes of [seen] have been checked in turn, the
    constructor having made it empty. *)
Definition hashesAfter (seen : list string) : list string :=
  List.fold_left (fun imageHashes hash => snd (isDuplicateImage imageHashes hash))
                 seen [].

End SearchSession.

(** ** [utils/imageValidator.js] (src/unnamed/part_007): the statistics of
    the validator *)

Module ValidatorSession.
Import ImageValidator.

Record ValidationStats := {
  processedImages : nat;
  duplicatesDetected : nat;
  statsMatchThreshold : Q;
  statsDuplicateThreshold : Q
}.

Definition getValidationStats (st : DuplicateState) : ValidationStats :=
  {| processedImages := size (processedHashes st);
     duplicatesDetected := List.length (similarImages st);
     statsMatchThreshold := matchThreshold;
     statsDuplicateThreshold := duplicateThreshold |}.

(** The state of a validator after [isDuplicate] has been asked about the
    images of [checked] in turn, each given by the hash computed for it
    ([None] for [null]) and its path. *)
Definition stateAfter (st : DuplicateState) (checked : list (option string * string))
  : DuplicateState :=
  List.fold_left (fun st '(hash, imagePath) => snd (isDuplicate st hash imagePath))
                 checked st.

End ValidatorSession.

(** ** Notions used to state the properties *)

Module Notions.
Import JsString Js.

(** The characters of a string. *)
Definition chars (s : string) : list ascii := list_ascii_of_string s.

(** Names without reserved characters and without white space. *)
Definition plain (s : string) : Prop :=
  Forall (fun c => Helpers.is_invalid_char c = false /\ is_space c = false) (chars s).

Definition hexDigits : list ascii := list_ascii_of_string "0123456789abcdef".

(** The two collections of the validator hold the same hashes, each once. *)
Definition Coherent (st : ImageValidator.DuplicateState) : Prop :=
  NoDup (List.map fst (ImageValidator.similarImages st)) /\
  forall h, h ∈ ImageValidator.processedHashes st <->
            In h (List.map fst (ImageValidator.similarImages st)).

(** A hash that [isDuplicate] takes for a duplicate in the state [st]. *)
Definition Covered (st : ImageValidator.DuplicateState) (h : string) : Prop :=
  h ∈ ImageValidator.processedHashes st \/
  exists e p, In (e, p) (ImageValidator.similarImages st) /\
              (ImageValidator.calculateHammingDistance h e <= 6)%nat.

End Notions.

Module StatsNotions.
Import DownloadManager.

(** Figures of [getStats] that fit together: no more successes than
    attempts, every attempt counted as a success or as a failure, and the
    rejections for quality and for duplication among the failures. *)
Definition Consistent (s : Stats) : Prop :=
  (successful s <= totalAttempted s)%nat /\
  (totalAttempted s <= successful s + failed s)%nat /\
  (qualityRejected s + duplicatesSkipped s <= failed s)%nat.

(** The same with [k] downloads started and not yet settled. *)
Definition ConsistentWith (k : nat) (s : Stats) : Prop :=
  (successful s + k <= totalAttempted s)%nat /\
  (totalAttempted s <= successful s + failed s + k)%nat /\
  (qualityRejected s + duplicatesSkipped s <= failed s)%nat.

End StatsNotions.

(** ** [modules/downloadManager.js]: the session data *)

Module Session.
Import DownloadManager.

(** [resetStats]. *)
Definition resetStats (st : State) : State :=
  {| downloadedHashes := ∅; itemImageCounts := ∅; stats := zeroStats;
     analyzerCache := analyzerCache st; duplicateState := duplicateState st;
     disk := disk st |}.

End Session.

(** ** [modules/imageSearch.js] (src/unnamed/part_001): the search for the
    image URLs of a product *)

Module SearchFlow.
Import JsString Js DownloadManager.

(** The double quote of the template literals. *)
Definition quote : string := String (ascii_of_nat 34) EmptyString.

(** [Helpers.generateSearchQueries] (src/unnamed/part_005). *)
Definition generateSearchQueries (product : Product) : list string :=
  match brand product with
  | Some b =>
      if truthy (name product) && truthy b then
        [quote +:+ name product +:+ quote +:+ " " +:+ quote +:+ b +:+ quote;
         name product +:+ " " +:+ b]
      else if truthy (name product) then [quote +:+ name product +:+ quote]
      else []
  | None =>
      if truthy (name product) then [quote +:+ name product +:+ quote] else []
  end.

Definition engines : list string := ["amazon"; "google"; "bing"].
Definition retryAttempts : nat := 2.

(** The pause before the retry that follows the failed attempt
    [attempt], in milliseconds. *)
Definition retryDelay (attempt : nat) : Q :=
  Qmin 30000 (2000 * Qpower 2 (Z.of_nat (attempt - 1))).

(** The loop of [searchByEngineWithRetry] from [attempt] on, with
    [remaining] attempts left of a budget of [budget]; [answer k] is what
    the k-th call of [searchByEngine] does: [None] when it throws, the URL
    list otherwise (the empty list for [null]).  The pauses slept are
    returned with the URLs. *)
Fixpoint searchAttempts (answer : nat -> option (list string))
    (budget attempt remaining : nat) (slept : list Q) : list string * list Q :=
  match remaining with
  | O => ([], slept)
  | S remaining' =>
      match answer attempt with
      | Some urls =>
          if (0 <? List.length urls)%nat then (urls, slept)
          else if (attempt =? budget)%nat then ([], slept)
          else searchAttempts answer budget (S attempt) remaining' slept
      | None =>
          if (attempt <? budget)%nat
          then searchAttempts answer budget (S attempt) remaining'
                              (slept ++ [retryDelay attempt])
          else searchAttempts answer budget (S attempt) remaining' slept
      end
  end.

Definition searchWithBudget (budget : nat) (answer : nat -> option (list string))
  : list string * list Q :=
  searchAttempts answer budget 1 budget [].

Definition searchByEngineWithRetry (answer : nat -> option (list string))
  : list string * list Q :=
  searchWithBudget retryAttempts answer.

(** [[...new Set(urls)]]: the first occurrence of every URL, in order. *)
Definition unique (urls : list string) : list string :=
  List.fold_left (fun set url => if array_includes set url then set else set ++ [url])
                 urls [].

Section WithWorld.
Variable pathname_of : string -> option string.

(** [brandSearch] is what [searchBrandWebsite] did for the product:
    [None] when it threw, the URL list otherwise (empty for [null]);
    [engineAnswer engine query k] is what the k-th call of
    [searchByEngine] did for the engine and the query. *)
Variable brandSearch : option (list string).
Variable engineAnswer : string -> string -> nat -> option (list string).

Definition finish (allImageUrls : list string) : list string :=
  let uniqueUrls := unique allImageUrls in
  let filteredUrls := ImageSearch.filterImageUrls pathname_of uniqueUrls in
  List.firstn Settings.maxImagesPerItem filteredUrls.

(** The two nested loops over the queries and the engines. *)
Definition searchEngines (allImageUrls : list string) (queries : list string)
  : list string :=
  List.fold_left
    (fun all query =>
       List.fold_left
         (fun all engine =>
            let urls := fst (searchByEngineWithRetry (engineAnswer engine query)) in
            if (0 <? List.length urls)%nat then all ++ urls else all)
         engines all)
    queries allImageUrls.

Definition searchImages (product : Product) : list string :=
  let brandImages :=
    if ImageValidator.branded (brand product) then default [] brandSearch else [] in
  if ImageValidator.branded (brand product) &&
     (Settings.maxImagesPerItem <=? List.length brandImages)%nat
  then finish brandImages
  else finish (searchEngines brandImages (generateSearchQueries product)).

End WithWorld.

End SearchFlow.

Module SearchNotions.
Import SearchFlow.

(** A URL that some call of [searchByEngine] returned for an engine of the
    configuration and a query of the list. *)
Definition FromEngine (engineAnswer : string -> string -> nat -> option (list string))
    (queries : list string) (u : string) : Prop :=
  exists engine query k urls,
    In engine engines /\ In query queries /\
    engineAnswer engine query k = Some urls /\ In u urls.

(** An attempt that gave no URL: it threw, or returned nothing. *)
Definition Fruitless (answer : nat -> option (list string)) (k : nat) : Prop :=
  answer k = None \/ answer k = Some [].

End SearchNotions.

(** ** [modules/fileManager.js] (src/unnamed/part_004): the product
    summary, and the loops of [main.js] (src/src/main.js) over the products *)

Module FileManager.
Import JsString Js DownloadManager.

(** A product object as the steps of [run] see it: the product, with the
    fields that [setupFolderStructure], [handleNoImageFound] and
    [searchImages] add to it ([None] for a field that is not set). *)
Record Item := {
  product : Product;
  folderName : option string;
  isNIF : option bool;
  searchQueries : option (list string)
}.

Record ProductSummary := {
  summaryItemId : string;
  summaryName : string;
  summaryBrand : option string;
  summaryFolderName : option string;
  imagesDownloaded : nat;
  imagesFailed : nat;
  summaryQualityRejected : nat;
  summaryIsNIF : bool;
  summarySearchQueries : list string
}.

(** The [Map] that [createProductSummary] fills from the results. *)
Definition resultMap (downloadResults : list DownloadResult)
  : list (string * DownloadResult) :=
  List.fold_left (fun m result => map_set m (itemId result) result) downloadResults [].

(** [createProductSummary]; a download result has no field
    [qualityRejected], so that [result.qualityRejected || 0] is 0. *)
Definition createProductSummary (products : list Item)
    (downloadResults : list DownloadResult) : list ProductSummary :=
  let resultMap := resultMap downloadResults in
  List.map
    (fun p =>
       let result := map_get resultMap (itemid (product p)) in
       {| summaryItemId := itemid (product p);
          summaryName := name (product p);
          summaryBrand := brand (product p);
          summaryFolderName := folderName p;
          imagesDownloaded :=
            match result with Some r => downloaded r | None => 0%nat end;
          imagesFailed :=
            match result with Some r => failedCount r | None => 0%nat end;
          summaryQualityRejected := 0%nat;
          summaryIsNIF := default false (isNIF p);
          summarySearchQueries := default [] (searchQueries p) |})
    products.

End FileManager.

(** ** [modules/downloadManager.js] under the event loop

    [processDownloadsInChunks] starts the calls of a chunk together and
    waits for all of them: each call of [downloadSingleImage] runs up to
    its first [await] when it is started, and from then on the calls take
    turns, one running from the [await] it was stopped at to its next one
    (or to its end) before another resumes.  Here a call is a task with the
    [await] it is stopped at and the locals it holds there, and a schedule
    says which task takes each turn.  The numbers of the match confidence
    are the doubles of the source, each of them a rational; their sum and
    quotient, which round, and the validator that produces them are inputs
    of [downloadProductImages]. *)

Module Async.
Import JsString Js DownloadManager.

(** An element of the array in a [metadata.json]: an entry written by
    [downloadSingleImage], or any other JSON value, which the source never
    looks into. *)
Inductive Element :=
| Entry (e : SidecarEntry)
| Foreign (json : string).

(** What a [metadata.json] holds, as [downloadSingleImage] sees it: an
    array; a JSON value that is not an array, with the [TypeError] that
    [metadata.push] throws on it; or something on which [readFileSync] or
    [JSON.parse] throws. *)
Inductive SidecarFile :=
| JsonArray (elements : list Element)
| JsonOther (pushError : string)
| Unreadable.

(** The download manager with the output tree: image files by path and
    the [metadata.json] files by path. *)
Record State := {
  downloadedHashes : gset string;
  itemImageCounts : gmap string nat;
  stats : Stats;
  analyzerCache : list (string * QualityAnalyzer.Analysis);
  duplicateState : ImageValidator.DuplicateState;
  files : gmap string (list Z);
  sidecars : gmap string SidecarFile
}.

(** The state the constructor builds, over a given output tree. *)
Definition initial (files0 : gmap string (list Z))
    (sidecars0 : gmap string SidecarFile) : State :=
  {| downloadedHashes := ∅; itemImageCounts := ∅; stats := zeroStats;
     analyzerCache := [];
     duplicateState :=
       {| ImageValidator.processedHashes := ∅; ImageValidator.similarImages := [] |};
     files := files0; sidecars := sidecars0 |}.

Definition set_stats (st : State) (s : Stats) : State :=
  {| downloadedHashes := downloadedHashes st; itemImageCounts := itemImageCounts st;
     stats := s; analyzerCache := analyzerCache st;
     duplicateState := duplicateState st; files := files st; sidecars := sidecars st |}.

Definition set_cache (st : State) (c : list (string * QualityAnalyzer.Analysis))
  : State :=
  {| downloadedHashes := downloadedHashes st; itemImageCounts := itemImageCounts st;
     stats := stats st; analyzerCache := c;
     duplicateState := duplicateState st; files := files st; sidecars := sidecars st |}.

Definition set_files (st : State) (f : gmap string (list Z)) : State :=
  {| downloadedHashes := downloadedHashes st; itemImageCounts := itemImageCounts st;
     stats := stats st; analyzerCache := analyzerCache st;
     duplicateState := duplicateState st; files := f; sidecars := sidecars st |}.

Definition set_sidecars (st : State) (s : gmap string SidecarFile) : State :=
  {| downloadedHashes := downloadedHashes st; itemImageCounts := itemImageCounts st;
     stats := stats st; analyzerCache := analyzerCache st;
     duplicateState := duplicateState st; files := files st; sidecars := s |}.

Definition set_duplicateState (st : State) (d : ImageValidator.DuplicateState)
  : State :=
  {| downloadedHashes := downloadedHashes st; itemImageCounts := itemImageCounts st;
     stats := stats st; analyzerCache := analyzerCache st;
     duplicateState := d; files := files st; sidecars := sidecars st |}.

(** [downloadedHashes.add(h); itemImageCounts.set(id, n)]. *)
Definition track (st : State) (h id : string) (n : nat) : State :=
  {| downloadedHashes := {[h]} ∪ downloadedHashes st;
     itemImageCounts := <[id := n]> (itemImageCounts st);
     stats := stats st; analyzerCache := analyzerCache st;
     duplicateState := duplicateState st; files := files st; sidecars := sidecars st |}.

(** What a call of [downloadSingleImage] rejects with: one of the errors
    of the source, or the [TypeError] of [metadata.push]. *)
Inductive Failure :=
| Thrown (e : Error)
| PushFailed (pushError : string).

Definition message (f : Failure) : string :=
  match f with
  | Thrown e => DownloadManager.message e
  | PushFailed pushError => pushError
  end.

(** Where a call of [downloadSingleImage] is stopped, with the locals it
    holds there: at the [await] of the HEAD request, of the GET request, of
    [sharp(imageBuffer).metadata()], of [generateImageHash], of the square
    crop, of the [sharp(imageBuffer).metadata()] inside [analyzeImage], of
    [analyzeImage] itself once that has its result, of [fs.writeFile], of
    [fs.stat]; or settled, with what it returned or threw. *)
Inductive Stage :=
| AwaitHead (currentCount : nat)
| AwaitGet (currentCount : nat)
| AwaitMetadata (currentCount : nat) (imageBuffer : Buffer)
| AwaitHash (currentCount : nat) (imageBuffer : Buffer) (meta : Metadata)
| AwaitCrop (currentCount : nat) (imageBuffer : Buffer) (meta : Metadata)
            (imageHash : string)
| AwaitAnalyzerMetadata (currentCount : nat) (imageHash : string) (imageBuffer : Buffer)
| AwaitAnalysis (currentCount : nat) (imageHash : string) (imageBuffer : Buffer)
                (qualityAnalysis : QualityAnalyzer.Analysis)
| AwaitWriteFile (currentCount : nat) (imageHash : string) (imageBuffer : Buffer)
                 (qualityAnalysis : QualityAnalyzer.Analysis) (filename : string)
| AwaitStat (currentCount : nat) (imageHash : string) (imageBuffer : Buffer)
            (qualityAnalysis : QualityAnalyzer.Analysis) (filename : string)
| Settled (result : Failure + Success).

(** The [catch] block of [downloadSingleImage]. *)
Definition throw (st : State) (e : Failure) : Stage * State :=
  (Settled (inl e), set_stats st (bump_failed (stats st))).

(** [analyzeImage] from its start to its [await]: the analysis it returns
    without waiting (a cached one, or the refusal of a size), or [None]
    when it goes on to read the metadata. *)
Definition analyzeImageBegin (cache : list (string * QualityAnalyzer.Analysis))
    (imageBuffer : Buffer) (u : string)
  : option QualityAnalyzer.Analysis * list (string * QualityAnalyzer.Analysis) :=
  let cacheKey := QualityAnalyzer.generateCacheKey imageBuffer in
  match map_get cache cacheKey with
  | Some cached => (Some cached, cache)
  | None =>
      let analysis := QualityAnalyzer.blank u imageBuffer in
      if (byteLength imageBuffer <? 10000)%Z then
        let '(result, cache) :=
          QualityAnalyzer.cacheAndReturn cache cacheKey
            (QualityAnalyzer.with_issues analysis ["File size too small"]) in
        (Some result, cache)
      else if (5000000 <? byteLength imageBuffer)%Z then
        let '(result, cache) :=
          QualityAnalyzer.cacheAndReturn cache cacheKey
            (QualityAnalyzer.with_issues analysis ["File size too large"]) in
        (Some result, cache)
      else (None, cache)
  end.

(** [analyzeImage] from its [await] on, over the cache as it is then. *)
Definition analyzeImageEnd (cache : list (string * QualityAnalyzer.Analysis))
    (imageBuffer : Buffer) (u : string)
  : QualityAnalyzer.Analysis * list (string * QualityAnalyzer.Analysis) :=
  match decoded imageBuffer with
  | None => (QualityAnalyzer.failedAnalysis u, cache)
  | Some metadata =>
      QualityAnalyzer.cacheAndReturn cache (QualityAnalyzer.generateCacheKey imageBuffer)
        (QualityAnalyzer.measured u imageBuffer metadata)
  end.

(** What [metadata] is when the entry is pushed: the array of the file,
    the empty array when there is no file or when reading it throws, and
    no array at all for another JSON value. *)
Definition readSidecar (file : option SidecarFile) : string + list Element :=
  match file with
  | None => inr []
  | Some (JsonArray elements) => inr elements
  | Some Unreadable => inr []
  | Some (JsonOther pushError) => inl pushError
  end.

Section WithUrlParser.
Variable pathname_of : string -> option string.

(** [downloadSingleImage] from its start to its first [await]. *)
Definition start (st : State) (url itemId : string) : Stage * State :=
  let currentCount := default 0%nat (itemImageCounts st !! itemId) in
  if (5 <=? currentCount)%nat then throw st (Thrown MaximumImagesReached)
  else
    let st := set_stats st (bump_totalAttempted (stats st)) in
    let urlExt :=
      match pathname_of url with
      | Some pathname => toLowerCase (Path.extname pathname)
      | None => toLowerCase (Path.extname url)
      end in
    if truthy urlExt && negb (array_includes [".jpg"; ".jpeg"; ".png"] urlExt)
    then throw st (Thrown (UnsupportedExtension urlExt))
    else (AwaitHead currentCount, st).

(** One turn of a call of [downloadSingleImage]: from the [await] it is
    stopped at to the next one, or to its end. *)
Definition resume (st : State) (url outputDir itemId : string) (imageIndex : nat)
    (w : World) (stage : Stage) : Stage * State :=
  match stage with
  | AwaitHead currentCount =>
      let contentType := default "" (head w) in
      if truthy contentType &&
         negb (startsWith contentType "image/jpeg" || startsWith contentType "image/png")
      then throw st (Thrown (UnsupportedContentType contentType))
      else (AwaitGet currentCount, st)
  | AwaitGet currentCount =>
      match get w with
      | inl msg => throw st (Thrown (RequestFailed msg))
      | inr imageBuffer => (AwaitMetadata currentCount imageBuffer, st)
      end
  | AwaitMetadata currentCount imageBuffer =>
      match decoded imageBuffer with
      | None => throw st (Thrown DecodeFailed)
      | Some meta =>
          let fmt := toLowerCase (format meta) in
          if negb (array_includes ["jpeg"; "jpg"; "png"] fmt)
          then throw st (Thrown (UnsupportedFormat (format meta)))
          else (AwaitHash currentCount imageBuffer meta, st)
      end
  | AwaitHash currentCount imageBuffer meta =>
      let imageHash := generateImageHash imageBuffer in
      if bool_decide (imageHash ∈ downloadedHashes st) then
        throw (set_stats st (bump_duplicatesSkipped (stats st))) (Thrown DuplicateImage)
      else (AwaitCrop currentCount imageBuffer meta imageHash, st)
  | AwaitCrop currentCount imageBuffer meta imageHash =>
      let minSide := Z.min (width meta) (height meta) in
      let targetSize := Z.max 500 (Z.min 1200 minSide) in
      let imageBuffer :=
        match crop w targetSize with
        | Some cropped => cropped
        | None => imageBuffer
        end in
      match analyzeImageBegin (analyzerCache st) imageBuffer url with
      | (Some qualityAnalysis, cache) =>
          (AwaitAnalysis currentCount imageHash imageBuffer qualityAnalysis,
           set_cache st cache)
      | (None, cache) =>
          (AwaitAnalyzerMetadata currentCount imageHash imageBuffer, set_cache st cache)
      end
  | AwaitAnalyzerMetadata currentCount imageHash imageBuffer =>
      let '(qualityAnalysis, cache) :=
        analyzeImageEnd (analyzerCache st) imageBuffer url in
      (AwaitAnalysis currentCount imageHash imageBuffer qualityAnalysis,
       set_cache st cache)
  | AwaitAnalysis currentCount imageHash imageBuffer qualityAnalysis =>
      if negb (QualityAnalyzer.isValid qualityAnalysis) then
        throw (set_stats st (bump_qualityRejected (stats st)))
              (Thrown (QualityValidationFailed (QualityAnalyzer.issues qualityAnalysis)))
      else
        let baseFilename := itemId +:+ "_" +:+ dec (Z.of_nat imageIndex) in
        let filename := generateUniqueFilename baseFilename ".jpg" (now w) in
        (AwaitWriteFile currentCount imageHash imageBuffer qualityAnalysis filename, st)
  | AwaitWriteFile currentCount imageHash imageBuffer qualityAnalysis filename =>
      let filePath := join outputDir filename in
      if negb (writeFile w) then throw st (Thrown WriteFailed)
      else
        (AwaitStat currentCount imageHash imageBuffer qualityAnalysis filename,
         set_files st (<[filePath := data imageBuffer]> (files st)))
  | AwaitStat currentCount imageHash imageBuffer qualityAnalysis filename =>
      let filePath := join outputDir filename in
      match fstat w with
      | None => throw st (Thrown StatFailed)
      | Some size =>
          if negb (size =? byteLength imageBuffer)%Z
          then throw st (Thrown FileSizeMismatch)
          else
            let st := track st imageHash itemId (currentCount + 1) in
            let st := set_stats st (bump_successful (stats st)) in
            let metadataPath := join outputDir "metadata.json" in
            match readSidecar (sidecars st !! metadataPath) with
            | inl pushError => throw st (PushFailed pushError)
            | inr metadata =>
                let metadata :=
                  metadata ++
                  [Entry
                     {| fileName := filename; entryUrl := url;
                        downloadDate := now w;
                        qualityScore := QualityAnalyzer.score qualityAnalysis;
                        entryDimensions := QualityAnalyzer.dimensions qualityAnalysis;
                        entryBackgroundConfidence :=
                          QualityAnalyzer.backgroundConfidence qualityAnalysis;
                        entryHasWatermark :=
                          QualityAnalyzer.hasWatermark qualityAnalysis |}] in
                if negb (writeSidecar w) then throw st (Thrown SidecarWriteFailed)
                else
                  (Settled
                     (inr {| filePath := filePath; resultUrl := url;
                             resultFileSize := size;
                             resultQualityScore := QualityAnalyzer.score qualityAnalysis;
                             resultDimensions :=
                               QualityAnalyzer.dimensions qualityAnalysis;
                             resultBackgroundConfidence :=
                               QualityAnalyzer.backgroundConfidence qualityAnalysis;
                             resultHasWatermark :=
                               QualityAnalyzer.hasWatermark qualityAnalysis |}),
                   set_sidecars st
                     (<[metadataPath := JsonArray metadata]> (sidecars st)))
            end
      end
  | Settled result => (Settled result, st)
  end.

(** A call of a chunk: its candidate, its image index, and where it is. *)
Record Task := {
  candidate : Candidate;
  imageIndex : nat;
  stage : Stage
}.

(** [chunk.map((url, index) => this.downloadSingleImage(url, outputDir,
    itemId, i + index + 1))]: the calls are started one after the other,
    each running to its first [await]. *)
Fixpoint startAll (st : State) (chunk : list Candidate) (itemId : string)
    (imageIndex : nat) : list Task * State :=
  match chunk with
  | [] => ([], st)
  | c :: r =>
      let '(s, st) := start st (fst c) itemId in
      let '(tasks, st) := startAll st r itemId (S imageIndex) in
      ({| candidate := c; imageIndex := imageIndex; stage := s |} :: tasks, st)
  end.

(** The task number [k] of the chunk takes a turn (a settled task, or a
    number that is no task's, changes nothing). *)
Definition advance (outputDir itemId : string) (acc : list Task * State) (k : nat)
  : list Task * State :=
  let '(tasks, st) := acc in
  match tasks !! k with
  | Some t =>
      let '(s, st) :=
        resume st (fst (candidate t)) outputDir itemId (imageIndex t)
               (snd (candidate t) 1%nat) (stage t) in
      (<[k := {| candidate := candidate t; imageIndex := imageIndex t; stage := s |}]>
         tasks, st)
  | None => (tasks, st)
  end.

Definition run (outputDir itemId : string) (schedule : list nat)
    (tasks : list Task) (st : State) : list Task * State :=
  List.fold_left (advance outputDir itemId) schedule (tasks, st).

(** Nine turns for each of [n] tasks in order: more than a call has
    [await]s. *)
Definition toTheEnd (n : nat) : list nat :=
  List.flat_map (fun k => List.repeat k 9) (List.seq 0 n).

(** The results of the settled tasks, in the order of the tasks. *)
Fixpoint outcomes (tasks : list Task) : list (Failure + Success) :=
  match tasks with
  | [] => []
  | t :: r =>
      match stage t with
      | Settled result => result :: outcomes r
      | _ => outcomes r
      end
  end.

(** [await Promise.allSettled(chunkPromises)]: the tasks take turns as
    [schedule] says, and those it leaves unsettled then run to their end
    in order, so that every list of numbers stands for a complete run and
    every complete run is that of a list. *)
Definition allSettled (outputDir itemId : string) (schedule : list nat)
    (tasks : list Task) (st : State) : list (Failure + Success) * State :=
  let '(tasks, st) :=
    run outputDir itemId (schedule ++ toTheEnd (List.length tasks)) tasks st in
  (outcomes tasks, st).

(** The body of the loop of [processDownloadsInChunks], on the results so
    far, the state, the index [i] and the schedules of the chunks to
    come. *)
Definition processChunk (outputDir itemId : string)
    (acc : list (Failure + Success) * State * nat * list (list nat))
    (chunk : list Candidate)
  : list (Failure + Success) * State * nat * list (list nat) :=
  let '(results, st, i, schedules) := acc in
  let '(tasks, st) := startAll st chunk itemId (i + 1) in
  let '(chunkResults, st) :=
    allSettled outputDir itemId (List.hd [] schedules) tasks st in
  (results ++ chunkResults, st, (i + Settings.concurrentDownloads)%nat,
   List.tl schedules).

(** [processDownloadsInChunks], with one schedule for each chunk. *)
Definition processDownloadsInChunks (schedules : list (list nat)) (st : State)
    (imageUrls : list Candidate) (outputDir itemId : string)
  : list (Failure + Success) * State :=
  let chunkSize := Settings.concurrentDownloads in
  let '(results, st, _, _) :=
    List.fold_left (processChunk outputDir itemId)
                   (chunksOf chunkSize imageUrls) ([], st, 0%nat, schedules) in
  (results, st).

(** [this.imageValidator.validateImageMatch(filePath, product.name,
    product.itemid, product.brand)], whose confidence is a finite double,
    and the [+] and [/] of doubles. *)
Variable validateImageMatch :
  string -> option string -> string -> option string -> ImageValidator.Validation.
Variable plus quotient : Q -> Q -> Q.

(** The double that the literal [0.7] stands for, 0x3FE6666666666666. *)
Definition double_0_7 : Q := 3152519739159347 # 4503599627370496.

(** The loop over the settled results. *)
Fixpoint collect (product : Product) (results : list (Failure + Success))
    (i : nat) (acc : DownloadResult) (validImageCount : nat)
    (totalConfidence : Q) : DownloadResult * nat * Q :=
  match results with
  | [] => (acc, validImageCount, totalConfidence)
  | inr ok :: r =>
      let validation :=
        validateImageMatch (filePath ok) (Some (name product)) (itemid product)
                           (brand product) in
      let acc :=
        {| itemId := itemId acc; attempted := attempted acc;
           downloaded := S (downloaded acc); failedCount := failedCount acc;
           downloadedFiles := downloadedFiles acc ++ [filePath ok];
           errors := errors acc;
           validationResults :=
             validationResults acc ++
             [(filePath ok, ImageValidator.confidence validation,
               ImageValidator.isMatch validation)];
           averageConfidence := averageConfidence acc;
           perfectMatches := perfectMatches acc;
           highConfidenceMatches := highConfidenceMatches acc;
           needsNSFolder := needsNSFolder acc |} in
      collect product r (S i) acc (S validImageCount)
              (plus totalConfidence (ImageValidator.confidence validation))
  | inl e :: r =>
      let acc :=
        {| itemId := itemId acc; attempted := attempted acc;
           downloaded := downloaded acc; failedCount := S (failedCount acc);
           downloadedFiles := downloadedFiles acc;
           errors :=
             errors acc ++
             [(S i, if truthy (message e) then message e else "Unknown error")];
           validationResults := validationResults acc;
           averageConfidence := averageConfidence acc;
           perfectMatches := perfectMatches acc;
           highConfidenceMatches := highConfidenceMatches acc;
           needsNSFolder := needsNSFolder acc |} in
      collect product r (S i) acc validImageCount totalConfidence
  end.

(** [downloadProductImages].  [ensureDir] is [None] when
    [fs.ensureDir(outputDir)] resolves, and the message of the error it
    rejects with otherwise; that error is rethrown by the [catch] block.
    The output tree holds files only, so that a directory made leaves no
    trace in it. *)
Definition downloadProductImages (ensureDir : option string)
    (schedules : list (list nat)) (st : State) (product : Product)
    (imageUrls : list Candidate) (outputDir : string)
  : (string + DownloadResult * Product) * State :=
  let st :=
    set_duplicateState st
      (ImageValidator.resetDuplicateDetection (duplicateState st)) in
  match ensureDir with
  | Some error => (inl error, st)
  | None =>
      let imagesToDownload := List.firstn Settings.maxImagesPerItem imageUrls in
      let '(results, st) :=
        processDownloadsInChunks schedules st imagesToDownload outputDir
                                 (itemid product) in
      let downloadResult :=
        {| itemId := itemid product; attempted := List.length results;
           downloaded := 0; failedCount := 0; downloadedFiles := []; errors := [];
           validationResults := []; averageConfidence := 0; perfectMatches := 0;
           highConfidenceMatches := 0; needsNSFolder := false |} in
      let '(downloadResult, validImageCount, totalConfidence) :=
        collect product results 0 downloadResult 0 0%Q in
      let avgConfidence :=
        if (0 <? validImageCount)%nat
        then quotient totalConfidence (inject_Z (Z.of_nat validImageCount))
        else 0%Q in
      let count f :=
        List.length (List.filter (fun v => f (snd (fst v)))
                                 (validationResults downloadResult)) in
      let downloadResult :=
        {| itemId := itemId downloadResult; attempted := attempted downloadResult;
           downloaded := downloaded downloadResult;
           failedCount := failedCount downloadResult;
           downloadedFiles := downloadedFiles downloadResult;
           errors := errors downloadResult;
           validationResults := validationResults downloadResult;
           averageConfidence := avgConfidence;
           perfectMatches := count (Qleb 1);
           highConfidenceMatches := count (Qleb double_0_7);
           needsNSFolder := Qltb avgConfidence double_0_7 |} in
      let product :=
        {| itemid := itemid product; name := name product; brand := brand product;
           imageMatchingConfidence := Some avgConfidence |} in
      (inr (downloadResult, product), st)
  end.

End WithUrlParser.

(** The manager over an output tree whose [metadata.json] files are
    arrays of entries. *)
Definition ofState (st : DownloadManager.State) : State :=
  {| downloadedHashes := DownloadManager.downloadedHashes st;
     itemImageCounts := DownloadManager.itemImageCounts st;
     stats := DownloadManager.stats st;
     analyzerCache := DownloadManager.analyzerCache st;
     duplicateState := DownloadManager.duplicateState st;
     files := DownloadManager.files (disk st);
     sidecars := (fun l => JsonArray (List.map Entry l)) <$> DownloadManager.sidecars (disk st) |}.

Definition ofResult (r : Error + Success) : Failure + Success :=
  match r with
  | inl e => inl (Thrown e)
  | inr ok => inr ok
  end.

(** The calls of a chunk as [beginAll] leaves them, [imageIndex] being
    the index of the first. *)
Fixpoint ofStarted (started : list (Candidate * (Error + Pending))) (imageIndex : nat)
  : list Task :=
  match started with
  | [] => []
  | (c, b) :: r =>
      {| candidate := c; imageIndex := imageIndex;
         stage := match b with
                  | inl e => Settled (inl (Thrown e))
                  | inr pending => AwaitHead (currentCount pending)
                  end |} :: ofStarted r (S imageIndex)
  end.

End Async.

(** ** [main.js] (src/src/main.js): the products in batches *)

Module Processing.
Import JsString Js DownloadManager FileManager.

(** A product when its turn comes in [processBatch]: the product object,
    what [searchImages] returns for it, whether [fs.ensureDir] will make
    its directory, and the schedules of the chunks of its downloads. *)
Record Job := {
  item : Item;
  imageUrls : list Candidate;
  ensureDir : option string;
  schedules : list (list nat)
}.

Definition with_product (item : Item) (p : Product) : Item :=
  {| product := p; folderName := folderName item; isNIF := isNIF item;
     searchQueries := searchQueries item |}.

(** [path.join(outputDir, product.folderName || product.itemid)]. *)
Definition productDir (outputDir : string) (item : Item) : string :=
  join outputDir
       (match folderName item with
        | Some f => if truthy f then f else itemid (product item)
        | None => itemid (product item)
        end).

(** The two results that [processBatch] builds itself, for a product
    without URL and for a product whose processing threw: the fields such
    a result does not have in the source hold 0, [false] and the empty
    list here, and its only error, a bare string there, carries the
    index 0. *)
Definition bareResult (id : string) (failures : nat) (error : string)
  : DownloadResult :=
  {| itemId := id; attempted := 0; downloaded := 0; failedCount := failures;
     downloadedFiles := []; errors := [(0%nat, error)]; validationResults := [];
     averageConfidence := 0; perfectMatches := 0; highConfidenceMatches := 0;
     needsNSFolder := false |}.

Section WithLibraries.
Variable pathname_of : string -> option string.
Variable validateImageMatch :
  string -> option string -> string -> option string -> ImageValidator.Validation.
Variable plus quotient : Q -> Q -> Q.

(** The body of the loop of [processBatch], on the results and the
    products of the iterations before and the state of the download
    manager. *)
Definition processOne (outputDir : string)
    (acc : list DownloadResult * list Item * Async.State) (job : Job)
  : list DownloadResult * list Item * Async.State :=
  let '(batchResults, done, st) := acc in
  match imageUrls job with
  | [] =>
      (batchResults ++ [bareResult (itemid (product (item job))) 0 "No images found"],
       done ++ [item job], st)
  | _ =>
      match
        Async.downloadProductImages pathname_of validateImageMatch plus quotient
          (ensureDir job) (schedules job) st (product (item job)) (imageUrls job)
          (productDir outputDir (item job))
      with
      | (inr (downloadResult, p), st) =>
          (batchResults ++ [downloadResult], done ++ [with_product (item job) p], st)
      | (inl error, st) =>
          (batchResults ++ [bareResult (itemid (product (item job))) 1 error],
           done ++ [item job], st)
      end
  end.

(** [processBatch]: the results, the products as the loop leaves them,
    and the state of the download manager. *)
Definition processBatch (st : Async.State) (products : list Job) (outputDir : string)
  : list DownloadResult * list Item * Async.State :=
  List.fold_left (processOne outputDir) products ([], [], st).

(** The body of the loop of [processProducts]. *)
Definition processSlice (outputDir : string)
    (acc : list DownloadResult * list Item * Async.State) (batch : list Job)
  : list DownloadResult * list Item * Async.State :=
  let '(downloadResults, done, st) := acc in
  let '(batchResults, batchDone, st) := processBatch st batch outputDir in
  (downloadResults ++ batchResults, done ++ batchDone, st).

(** [processProducts]: the batches of ten. *)
Definition processProducts (st : Async.State) (products : list Job) (outputDir : string)
  : list DownloadResult * list Item * Async.State :=
  let batchSize := 10%nat in
  List.fold_left (processSlice outputDir) (chunksOf batchSize products) ([], [], st).

End WithLibraries.

End Processing.

(** ** Notions used to state the properties of the interleaved downloads *)

Module AsyncNotions.
Import DownloadManager Async.

(** The output tree grows: no file goes; a [metadata.json] that holds an
    array keeps its elements, in their order, before the new ones; one
    that holds another JSON value is left as it is; and one that cannot be
    read stays so or becomes an array. *)
Definition Grows (st st' : State) : Prop :=
  (forall p, is_Some (files st !! p) -> is_Some (files st' !! p)) /\
  (forall p elements,
     sidecars st !! p = Some (JsonArray elements) ->
     exists added, sidecars st' !! p = Some (JsonArray (elements ++ added))) /\
  (forall p pushError,
     sidecars st !! p = Some (JsonOther pushError) ->
     sidecars st' !! p = Some (JsonOther pushError)) /\
  (forall p,
     sidecars st !! p = Some Unreadable ->
     sidecars st' !! p = Some Unreadable \/
     exists written, sidecars st' !! p = Some (JsonArray written)).

(** A settled result that belongs to a candidate: a success carries the
    URL of the candidate, and its file is in the output tree. *)
Definition Settles (st : State) (c : Candidate) (res : Failure + Success) : Prop :=
  match res with
  | inr ok => resultUrl ok = fst c /\ is_Some (files st !! filePath ok)
  | inl _ => True
  end.

(** The turns a call can still take: 0 for a settled one. *)
Definition rank (s : Stage) : nat :=
  match s with
  | AwaitHead _ => 9
  | AwaitGet _ => 8
  | AwaitMetadata _ _ => 7
  | AwaitHash _ _ _ => 6
  | AwaitCrop _ _ _ _ => 5
  | AwaitAnalyzerMetadata _ _ _ => 4
  | AwaitAnalysis _ _ _ _ => 3
  | AwaitWriteFile _ _ _ _ _ => 2
  | AwaitStat _ _ _ _ _ => 1
  | Settled _ => 0
  end%nat.

Definition rankAt (tasks : list Task) (i : nat) : nat :=
  match tasks !! i with
  | Some t => rank (stage t)
  | None => 0%nat
  end.

(** 1 for a call that is started and not settled. *)
Definition pending (s : Stage) : nat :=
  match s with
  | Settled _ => 0
  | _ => 1
  end%nat.

(** The tasks of a chunk that are started and not settled. *)
Definition unsettled (tasks : list Task) : nat :=
  list_sum (List.map (fun t => pending (stage t)) tasks).

(** A task whose file, once written, is in the output tree, and whose
    result, once it has one, is that of its candidate. *)
Definition TaskOk (outputDir : string) (st : State) (t : Task) : Prop :=
  match stage t with
  | AwaitStat _ _ _ _ filename => is_Some (files st !! join outputDir filename)
  | Settled res => Settles st (candidate t) res
  | _ => True
  end.

(** The files of the successes among settled results, in their order. *)
Fixpoint keptFiles (results : list (Failure + Success)) : list string :=
  match results with
  | [] => []
  | inr ok :: r => filePath ok :: keptFiles r
  | inl _ :: r => keptFiles r
  end.

End AsyncNotions.

(** * Properties *)

(** ** The URL filter *)

Module UrlFilterFacts.
Import JsString.

Lemma lower_ascii_idem (c : ascii) : lower_ascii (lower_ascii c) = lower_ascii c.
Proof. destruct c as [[] [] [] [] [] [] [] []]; reflexivity. Qed.

Lemma toLowerCase_idem (s : string) : toLowerCase (toLowerCase s) = toLowerCase s.
Proof.
  induction s as [|c r IH]; simpl; [reflexivity|].
  now rewrite lower_ascii_idem, IH.
Qed.

Lemma toLowerCase_empty (s : string) : toLowerCase s = "" -> s = "".
Proof. destruct s; simpl; [reflexivity | discriminate]. Qed.

(** A non-empty extension opens with the dot. *)
Lemma extname_shape (p : string) :
  Path.extname p = "" \/ exists e, Path.extname p = String Path.dot e.
Proof.
  unfold Path.extname.
  destruct (Path.split_at_dot _) as [[e rest]|]; [|now left].
  destruct (String.eqb rest ""); [now left|].
  destruct (String.eqb _ ".."); [now left|].
  right. now eexists.
Qed.

Lemma array_includes_In (l : list string) (x : string) :
  array_includes l x = true <-> In x l.
Proof.
  unfold array_includes. rewrite existsb_exists. split.
  - intros [y [Hy He]]. apply String.eqb_eq in He. now subst.
  - intros H. exists x. split; [assumption | apply String.eqb_refl].
Qed.

(** An extension that is present and outside the allowed set is refused by
    [isAllowedExtension], however it is cased. *)
Lemma disallowed_extension (p : string) :
  Path.extname p <> "" ->
  ~ In (toLowerCase (Path.extname p)) [".jpg"; ".jpeg"; ".png"] ->
  Helpers.isAllowedExtension (toLowerCase (Path.extname p)) = false.
Proof.
  intros Hne Hout.
  destruct (extname_shape p) as [He | [e He]]; [contradiction|].
  rewrite He in *. unfold Helpers.isAllowedExtension.
  rewrite toLowerCase_idem.
  replace (remove_first Path.dot (toLowerCase (String Path.dot e)))
    with (toLowerCase e) by reflexivity.
  destruct (array_includes Settings.allowedFormats (toLowerCase e)) eqn:Hin;
    [|reflexivity].
  exfalso. apply Hout. apply array_includes_In in Hin. simpl in Hin. simpl.
  destruct Hin as [H | [H | [H | []]]]; rewrite <- H; auto.
Qed.

End UrlFilterFacts.

(** C10. A URL whose path carries an extension outside jpg, jpeg and png,
    compared without regard to case, is not in the output of
    [filterImageUrls].  The filter is a function of the URL list and of the
    URL parser alone: it reads and writes no state and asks nothing of the
    network, so the URL is dropped before any request for it exists. *)
Theorem filterImageUrls_drops_disallowed_extension
    (pathname_of : string -> option string) (urls : list string)
    (url pathname : string) :
  pathname_of url = Some pathname ->
  Path.extname pathname <> "" ->
  ~ In (JsString.toLowerCase (Path.extname pathname)) [".jpg"; ".jpeg"; ".png"] ->
  ~ In url (ImageSearch.filterImageUrls pathname_of urls).
Proof.
  intros Hp Hne Hout Hin.
  unfold ImageSearch.filterImageUrls in Hin.
  apply filter_In in Hin. destruct Hin as [_ Hkeep].
  unfold ImageSearch.keepUrl, Helpers.isValidUrl, Helpers.getFileExtension in Hkeep.
  rewrite Hp in Hkeep. simpl in Hkeep.
  assert (Ht : JsString.truthy (JsString.toLowerCase (Path.extname pathname)) = true).
  { unfold JsString.truthy. apply negb_true_iff. apply String.eqb_neq.
    intros H. apply Hne. now apply UrlFilterFacts.toLowerCase_empty. }
  rewrite Ht in Hkeep.
  rewrite (UrlFilterFacts.disallowed_extension pathname Hne Hout) in Hkeep.
  discriminate.
Qed.

Lemma filterImageUrls_drops_disallowed_extension_witness :
  ~ In "https://cdn.example.com/p/photo.GIF"
       (ImageSearch.filterImageUrls Examples.simple_pathname
          ["https://cdn.example.com/p/photo.GIF";
           "https://cdn.example.com/p/photo.jpg"]).
Proof.
  apply (filterImageUrls_drops_disallowed_extension Examples.simple_pathname
           _ "https://cdn.example.com/p/photo.GIF" "/p/photo.GIF").
  - reflexivity.
  - vm_compute. discriminate.
  - vm_compute. intros [H | [H | [H | []]]]; discriminate H.
Defined.

(** ** The quality analyser *)

Module QualityFacts.
Import Js QualityAnalyzer.

Lemma Qleb_le (x y : Q) : Qleb x y = true <-> (x <= y)%Q.
Proof. apply Qle_bool_iff. Qed.

Lemma Qltb_lt (x y : Q) : Qltb x y = true <-> (x < y)%Q.
Proof.
  unfold Qltb. rewrite negb_true_iff. split.
  - intros H. apply Qnot_le_lt. intros Hle. apply Qle_bool_iff in Hle. congruence.
  - intros H. destruct (Qle_bool y x) eqn:E; [|reflexivity].
    apply Qle_bool_iff in E. exfalso. apply (Qlt_not_le _ _ H E).
Qed.

Lemma isSquareImage_spec (w h : Z) :
  isSquareImage w h = true <->
  (0.95 <= inject_Z w / inject_Z h /\ inject_Z w / inject_Z h <= 1.05)%Q.
Proof. unfold isSquareImage. rewrite andb_true_iff, !Qleb_le. reflexivity. Qed.

Lemma meetsSizeRequirements_spec (w h : Z) :
  meetsSizeRequirements' w h = true <->
  (600 <= w <= 1200 /\ 600 <= h <= 1200)%Z.
Proof. unfold meetsSizeRequirements'. rewrite !andb_true_iff, !Z.leb_le. tauto. Qed.

(** On a miss the analysis does not depend on what else the cache holds. *)
Lemma analyzeImage_miss (cache : list (string * Analysis)) (b : Buffer) (u : string) :
  map_get cache (generateCacheKey b) = None ->
  fst (analyzeImage cache b u) = fst (analyzeImage [] b u).
Proof.
  intros H. unfold analyzeImage. rewrite H. simpl map_get.
  destruct (byteLength b <? 10000)%Z; [reflexivity|].
  destruct (5000000 <? byteLength b)%Z; [reflexivity|].
  destruct (decoded b); reflexivity.
Qed.

Lemma measured_isValid (u : string) (b : Buffer) (m : Metadata) :
  isValid (measured u b m) =
  isSquareImage (width m) (height m) && meetsSizeRequirements' (width m) (height m).
Proof.
  unfold measured. simpl.
  destruct (isSquareImage _ _), (meetsSizeRequirements' _ _); reflexivity.
Qed.

Lemma measured_heuristics (u : string) (b : Buffer) (m : Metadata) :
  hasPlainBackground (measured u b m) = true /\
  backgroundConfidence (measured u b m) = 0.8%Q /\
  hasWatermark (measured u b m) = false /\
  sharpness (measured u b m) = 0.8%Q.
Proof. repeat split. Qed.

Lemma fresh_isValid (b : Buffer) (u : string) :
  isValid (fst (analyzeImage [] b u)) = true <->
  (10000 <= byteLength b <= 5000000)%Z /\
  exists m, decoded b = Some m /\
            isSquareImage (width m) (height m) = true /\
            meetsSizeRequirements' (width m) (height m) = true.
Proof.
  unfold analyzeImage. simpl map_get.
  destruct (byteLength b <? 10000)%Z eqn:Hlo.
  { simpl. apply Z.ltb_lt in Hlo. split; [discriminate | intros [[? ?] _]; lia]. }
  destruct (5000000 <? byteLength b)%Z eqn:Hhi.
  { simpl. apply Z.ltb_lt in Hhi. split; [discriminate | intros [[? ?] _]; lia]. }
  apply Z.ltb_ge in Hlo, Hhi.
  destruct (decoded b) as [m|] eqn:Hd.
  - unfold cacheAndReturn. cbn [fst]. rewrite measured_isValid, andb_true_iff. split.
    + intros [Hs Hz]. split; [lia|]. exists m. auto.
    + intros [_ [m' [Hm' [Hs Hz]]]]. injection Hm' as <-. auto.
  - simpl. split; [discriminate | intros [_ [m [Hm _]]]; discriminate].
Qed.


(** A fresh analysis is either invalid or the measured one. *)
Lemma fresh_valid_measured (b : Buffer) (u : string) :
  isValid (fst (analyzeImage [] b u)) = true ->
  exists m, decoded b = Some m /\ fst (analyzeImage [] b u) = measured u b m.
Proof.
  unfold analyzeImage. simpl map_get.
  destruct (byteLength b <? 10000)%Z; [discriminate|].
  destruct (5000000 <? byteLength b)%Z; [discriminate|].
  destruct (decoded b) as [m|]; [|discriminate].
  intros _. exists m. split; reflexivity.
Qed.

Lemma measured_score_range (u : string) (b : Buffer) (m : Metadata) :
  (0 <= score (measured u b m) /\ score (measured u b m) <= 1)%Q.
Proof.
  unfold measured. cbn [score with_verdict]. unfold calculateStrictQualityScore.
  cbn [isSquare meetsSizeRequirements backgroundConfidence hasWatermark sharpness with_verdict].
  split; [|apply Q.le_min_l].
  apply Q.min_glb; [discriminate|].
  destruct (isSquareImage _ _), (meetsSizeRequirements' _ _); discriminate.
Qed.

Lemma fresh_score_range (b : Buffer) (u : string) :
  (0 <= score (fst (analyzeImage [] b u)) /\ score (fst (analyzeImage [] b u)) <= 1)%Q.
Proof.
  unfold analyzeImage. simpl map_get.
  destruct (byteLength b <? 10000)%Z; [split; discriminate|].
  destruct (5000000 <? byteLength b)%Z; [split; discriminate|].
  destruct (decoded b) as [m|]; [|split; discriminate].
  apply measured_score_range.
Qed.

(** The verdict of a fresh analysis reads the length of the buffer and its
    metadata, and nothing else of it. *)
Lemma fresh_isValid_ext (b b' : Buffer) (u u' : string) :
  byteLength b' = byteLength b -> decoded b' = decoded b ->
  isValid (fst (analyzeImage [] b' u')) = isValid (fst (analyzeImage [] b u)).
Proof.
  intros Hl Hd. unfold analyzeImage. simpl map_get. rewrite Hl, Hd.
  destruct (byteLength b <? 10000)%Z; [reflexivity|].
  destruct (5000000 <? byteLength b)%Z; [reflexivity|].
  destruct (decoded b) as [m|]; [|reflexivity].
  unfold cacheAndReturn. cbn [fst]. now rewrite !measured_isValid.
Qed.

Section CacheInvariant.
Variable P : string -> Analysis -> Prop.

Lemma map_get_Forall (cache : list (string * Analysis)) (k : string) (a : Analysis) :
  Forall (fun kv => P (fst kv) (snd kv)) cache -> map_get cache k = Some a -> P k a.
Proof.
  induction 1 as [|[k' v] r Hv Hr IH]; simpl; [discriminate|].
  destruct (String.eqb k k') eqn:E; [|exact IH].
  apply String.eqb_eq in E. subst k'. intros [= <-]. exact Hv.
Qed.

Lemma map_set_Forall (cache : list (string * Analysis)) (k : string) (a : Analysis) :
  Forall (fun kv => P (fst kv) (snd kv)) cache -> P k a ->
  Forall (fun kv => P (fst kv) (snd kv)) (map_set cache k a).
Proof.
  induction 1 as [|[k' v] r Hv Hr IH]; simpl; intros Ha.
  - constructor; [exact Ha | constructor].
  - destruct (String.eqb k k') eqn:E; constructor; auto.
    apply String.eqb_eq in E. now subst k'.
Qed.

Lemma cacheAndReturn_Forall (cache : list (string * Analysis)) (k : string) (a : Analysis) :
  Forall (fun kv => P (fst kv) (snd kv)) cache -> P k a ->
  Forall (fun kv => P (fst kv) (snd kv)) (snd (cacheAndReturn cache k a)).
Proof.
  intros Hc Ha. unfold cacheAndReturn. cbn [snd].
  pose proof (map_set_Forall cache k a Hc Ha) as H.
  destruct (1000 <? _)%nat; [|exact H].
  destruct H; simpl; [constructor | assumption].
Qed.

(** What holds of the fresh analysis of a buffer under its key holds of the
    analysis handed out for it, and of everything the cache keeps. *)
Lemma analyzeImage_Forall (cache : list (string * Analysis)) (b : Buffer) (u : string) :
  P (generateCacheKey b) (fst (analyzeImage [] b u)) ->
  Forall (fun kv => P (fst kv) (snd kv)) cache ->
  P (generateCacheKey b) (fst (analyzeImage cache b u)) /\
  Forall (fun kv => P (fst kv) (snd kv)) (snd (analyzeImage cache b u)).
Proof.
  intros Hfresh Hc.
  destruct (map_get cache (generateCacheKey b)) as [a|] eqn:Hget.
  - unfold analyzeImage. rewrite Hget. cbn [fst snd].
    split; [exact (map_get_Forall _ _ _ Hc Hget) | exact Hc].
  - split; [rewrite (analyzeImage_miss _ _ _ Hget); exact Hfresh|].
    revert Hfresh.
    unfold analyzeImage. rewrite Hget. simpl map_get.
    destruct (byteLength b <? 10000)%Z;
      [intros Hf; apply cacheAndReturn_Forall; assumption|].
    destruct (5000000 <? byteLength b)%Z;
      [intros Hf; apply cacheAndReturn_Forall; assumption|].
    destruct (decoded b);
      [intros Hf; apply cacheAndReturn_Forall; assumption | intros _; exact Hc].
Qed.

End CacheInvariant.

Lemma cacheAfter_snoc (history : list (Buffer * string)) (b : Buffer) (u : string) :
  cacheAfter (history ++ [(b, u)]) = snd (analyzeImage (cacheAfter history) b u).
Proof. unfold cacheAfter. now rewrite fold_left_app. Qed.

(** Every entry of the cache is the fresh analysis of a buffer analysed
    before, stored under the key of that buffer. *)
Lemma cacheAfter_entries (history : list (Buffer * string)) :
  Forall (fun kv => exists b' u', In (b', u') history /\
                      fst kv = generateCacheKey b' /\
                      snd kv = fst (analyzeImage [] b' u'))
         (cacheAfter history).
Proof.
  induction history as [|[b u] h IH] using rev_ind; [constructor|].
  rewrite cacheAfter_snoc.
  apply (analyzeImage_Forall
           (fun k a => exists b' u', In (b', u') (h ++ [(b, u)]) /\
                         k = generateCacheKey b' /\
                         a = fst (analyzeImage [] b' u'))).
  - exists b, u. split; [apply in_or_app; right; now left | split; reflexivity].
  - eapply List.Forall_impl; [|exact IH].
    intros [k a] [b' [u' [Hin [Hk Ha]]]]. exists b', u'.
    split; [apply in_or_app; now left | split; assumption].
Qed.

(** The analysis handed out for a buffer is the fresh analysis of a buffer
    with the same key: the buffer itself, or one analysed before. *)
Lemma analyzeImage_origin (history : list (Buffer * string)) (b : Buffer) (u : string) :
  exists b' u',
    (In (b', u') history \/ (b', u') = (b, u)) /\
    generateCacheKey b' = generateCacheKey b /\
    fst (analyzeImage (cacheAfter history) b u) = fst (analyzeImage [] b' u').
Proof.
  destruct (map_get (cacheAfter history) (generateCacheKey b)) as [a|] eqn:Hget.
  - pose proof (map_get_Forall
                  (fun k a => exists b' u', In (b', u') history /\
                                k = generateCacheKey b' /\
                                a = fst (analyzeImage [] b' u'))
                  _ _ _ (cacheAfter_entries history) Hget) as [b' [u' [Hin [Hk Ha]]]].
    exists b', u'. split; [now left|]. split; [now symmetry|].
    unfold analyzeImage. rewrite Hget. exact Ha.
  - exists b, u. split; [now right|]. split; [reflexivity|].
    now apply analyzeImage_miss.
Qed.

(** The quality score handed out by an analyser that started with an
    empty cache lies in the unit interval. *)
Lemma qualityScore_range (history : list (Buffer * string)) (b : Buffer) (u : string) :
  (0 <= score (fst (analyzeImage (cacheAfter history) b u)) /\
   score (fst (analyzeImage (cacheAfter history) b u)) <= 1)%Q.
Proof.
  destruct (analyzeImage_origin history b u) as [b' [u' [_ [_ ->]]]].
  apply fresh_score_range.
Qed.

End QualityFacts.

(** C9. The verdict of [analyzeImage] is decided by the size of the buffer
    and the geometry of the image alone: it is [true] exactly when the
    buffer holds between 10000 and 5000000 bytes, decodes, has an aspect
    ratio between 0.95 and 1.05 and both dimensions between 600 and 1200.
    No setting is read, no pixel is looked at, and in a valid analysis the
    background, watermark and sharpness fields hold the constants the
    source assigns (plain background with confidence 0.8, no watermark,
    sharpness 0.8).  The analyser starts with an empty cache and has
    analysed the buffers of [history]; any of them that shares the MD5
    digest of the buffer is taken to have its length and its metadata, as
    a buffer of the same bytes has. *)
Theorem analyzeImage_validity_is_size_and_geometry
    (history : list (Js.Buffer * string)) (b : Js.Buffer) (u : string) :
  (forall b' u', In (b', u') history ->
     QualityAnalyzer.generateCacheKey b' = QualityAnalyzer.generateCacheKey b ->
     Js.byteLength b' = Js.byteLength b /\ Js.decoded b' = Js.decoded b) ->
  let a := fst (QualityAnalyzer.analyzeImage (QualityAnalyzer.cacheAfter history) b u) in
  (QualityAnalyzer.isValid a = true <->
   (10000 <= Js.byteLength b <= 5000000)%Z /\
   exists m, Js.decoded b = Some m /\
     (0.95 <= inject_Z (Js.width m) / inject_Z (Js.height m) /\
      inject_Z (Js.width m) / inject_Z (Js.height m) <= 1.05)%Q /\
     (600 <= Js.width m <= 1200 /\ 600 <= Js.height m <= 1200)%Z) /\
  (QualityAnalyzer.isValid a = true ->
   QualityAnalyzer.hasPlainBackground a = true /\
   QualityAnalyzer.backgroundConfidence a = 0.8%Q /\
   QualityAnalyzer.hasWatermark a = false /\
   QualityAnalyzer.sharpness a = 0.8%Q).
Proof.
  intros Hsame a.
  destruct (QualityFacts.analyzeImage_origin history b u)
    as [b' [u' [Hin [Hkey Ha]]]].
  assert (Hv : QualityAnalyzer.isValid a =
               QualityAnalyzer.isValid (fst (QualityAnalyzer.analyzeImage [] b u))).
  { subst a. rewrite Ha. destruct Hin as [Hin | [= -> ->]]; [|reflexivity].
    destruct (Hsame b' u' Hin Hkey) as [Hl Hd].
    now apply QualityFacts.fresh_isValid_ext. }
  split.
  - rewrite Hv, QualityFacts.fresh_isValid. split.
    + intros [Hsz [m [Hm [Hs Hz]]]]. split; [exact Hsz|]. exists m.
      apply QualityFacts.isSquareImage_spec in Hs.
      apply QualityFacts.meetsSizeRequirements_spec in Hz. auto.
    + intros [Hsz [m [Hm [Hs Hz]]]]. split; [exact Hsz|]. exists m.
      apply QualityFacts.isSquareImage_spec in Hs.
      apply QualityFacts.meetsSizeRequirements_spec in Hz. auto.
  - subst a. rewrite Ha. intros Hvalid.
    destruct (QualityFacts.fresh_valid_measured b' u' Hvalid) as [m [_ ->]].
    apply QualityFacts.measured_heuristics.
Qed.

Lemma analyzeImage_validity_is_size_and_geometry_witness :
  QualityAnalyzer.isValid
    (fst (QualityAnalyzer.analyzeImage
            (QualityAnalyzer.cacheAfter
               [(Examples.cropped 1, "https://cdn.example.com/p/1.jpg")])
            (Examples.cropped 2) "https://cdn.example.com/p/2.jpg"))
  = true.
Proof.
  apply (proj1 (analyzeImage_validity_is_size_and_geometry
                  [(Examples.cropped 1, "https://cdn.example.com/p/1.jpg")]
                  (Examples.cropped 2) "https://cdn.example.com/p/2.jpg"
                  (fun b' u' Hin Hkey =>
                     match Hin with
                     | or_introl E =>
                         ltac:(injection E as <- <-; vm_compute in Hkey;
                               discriminate Hkey)
                     | or_intror F => False_ind _ F
                     end))).
  split.
  - vm_compute. split; discriminate.
  - eexists. split; [reflexivity|]. vm_compute.
    repeat split; discriminate.
Defined.

(** ** The match confidence *)

Module ValidatorFacts.
Import JsString Js ImageValidator.

Lemma ratio_range (a b : nat) :
  (a <= b)%nat -> (0 < b)%nat -> (0 <= ratio a b /\ ratio a b <= 1)%Q.
Proof.
  intros Hab Hb. unfold ratio.
  assert (Hpos : (0 < inject_Z (Z.of_nat b))%Q).
  { rewrite <- (Zlt_Qlt 0). lia. }
  split.
  - apply Qle_shift_div_l; [exact Hpos|]. rewrite Qmult_0_l.
    rewrite <- (Zle_Qle 0). lia.
  - apply Qle_shift_div_r; [exact Hpos|]. rewrite Qmult_1_l.
    rewrite <- Zle_Qle. lia.
Qed.

Lemma capped_range (c : Q) : (0 <= c)%Q -> (0 <= Qmin c 1.0 /\ Qmin c 1.0 <= 1)%Q.
Proof.
  intros H. split.
  - apply Q.min_glb; [exact H | discriminate].
  - eapply Qle_trans; [apply Q.le_min_r | discriminate].
Qed.

Lemma count_included_le (haystack : string) (needles : list string) :
  (count_included haystack needles <= List.length needles)%nat.
Proof. apply filter_length_le. Qed.

Lemma calculateAttributeMatch_range (t : Tokens) (filename : string) :
  (0 <= calculateAttributeMatch t filename /\ calculateAttributeMatch t filename <= 1)%Q.
Proof.
  unfold calculateAttributeMatch.
  destruct (0 <? _)%nat eqn:Hpos; [|split; discriminate].
  apply Nat.ltb_lt in Hpos. apply ratio_range; [|exact Hpos].
  pose proof (count_included_le (toLowerCase filename) (List.map toLowerCase (sizes t))).
  pose proof (count_included_le (toLowerCase filename) (colors t)).
  pose proof (count_included_le (toLowerCase filename) (materials t)).
  rewrite length_map in *. lia.
Qed.

Lemma calculateSizeMatch_range (t : Tokens) (filename : string) :
  (0 <= calculateSizeMatch t filename /\ calculateSizeMatch t filename <= 1)%Q.
Proof.
  unfold calculateSizeMatch.
  destruct (_ =? 0)%nat eqn:Hz; [split; discriminate|].
  apply Nat.eqb_neq in Hz.
  apply ratio_range; [|lia].
  pose proof (count_included_le (toLowerCase filename) (List.map toLowerCase (sizes t))).
  rewrite length_map in *. assumption.
Qed.

Lemma calculateBrandMatch_range (t : Tokens) (filename : string) (brandName : option string) :
  (0 <= calculateBrandMatch t filename brandName /\
   calculateBrandMatch t filename brandName <= 1)%Q.
Proof.
  unfold calculateBrandMatch.
  destruct brandName as [b|]; [|split; discriminate].
  destruct (negb _); [split; discriminate|].
  destruct (includes _ _); [split; discriminate|].
  destruct (_ && _); [split; discriminate|].
  destruct (_ && _); [split; discriminate|].
  destruct (0 <? _)%nat eqn:Hpos; [|split; discriminate].
  apply Nat.ltb_lt in Hpos.
  apply ratio_range; [apply count_included_le | exact Hpos].
Qed.

Lemma calculateEcommerceMatchConfidence_range (productName : string)
    (brandName : option string) :
  (0 <= calculateEcommerceMatchConfidence productName brandName /\
   calculateEcommerceMatchConfidence productName brandName <= 1)%Q.
Proof.
  unfold calculateEcommerceMatchConfidence.
  destruct (branded brandName); cbn [negb];
    [destruct (3 <=? _)%nat|]; split; vm_compute; discriminate.
Qed.

Section WithLibraries.
Variable compareTwoStrings : string -> string -> Q.
Variable sizeMatches : string -> list string.
Hypothesis compareTwoStrings_nonneg : forall a b, (0 <= compareTwoStrings a b)%Q.

Lemma matchConfidenceBody_range (imagePath : string) (productName : option string)
    (brandName : option string) (c : Q) :
  matchConfidenceBody compareTwoStrings sizeMatches imagePath productName brandName
    = Some c ->
  (0 <= c /\ c <= 1)%Q.
Proof.
  unfold matchConfidenceBody.
  destruct productName as [productName|]; [|discriminate].
  set (t := extractProductTokens sizeMatches productName brandName).
  set (filename := Path.basename imagePath (Path.extname imagePath)).
  destruct (isCrypticFilename filename).
  { intros [= <-]. apply capped_range.
    apply calculateEcommerceMatchConfidence_range. }
  intros [= <-]. apply capped_range.
  pose proof (calculateBrandMatch_range t filename brandName) as [Hb _].
  pose proof (calculateAttributeMatch_range t filename) as [Ha _].
  pose proof (calculateSizeMatch_range t filename) as [Hs _].
  pose proof (compareTwoStrings_nonneg) as Hn.
  unfold calculateTextSimilarity.
  set (n := compareTwoStrings _ _).
  assert (Hn0 : (0 <= n)%Q) by apply Hn.
  set (bs := calculateBrandMatch t filename brandName) in *.
  set (as_ := calculateAttributeMatch t filename) in *.
  set (ss := calculateSizeMatch t filename) in *.
  assert (Hsum : (0 <= 0 + bs * 0.40 + n * 0.30 + as_ * 0.20 + ss * 0.10)%Q) by lra.
  destruct (negb (branded brandName)); [lra|].
  destruct brandName as [b|]; [|exact Hsum].
  destruct (_ && _ && _); [|exact Hsum].
  apply Q.min_glb; [lra | discriminate].
Qed.

Lemma calculateMatchConfidence_range (imagePath : string) (productName : option string)
    (brandName : option string) :
  (0 <= calculateMatchConfidence compareTwoStrings sizeMatches imagePath productName
          brandName /\
   calculateMatchConfidence compareTwoStrings sizeMatches imagePath productName
     brandName <= 1)%Q.
Proof.
  unfold calculateMatchConfidence.
  destruct (matchConfidenceBody _ _ _ _ _) as [c|] eqn:Hc; [|split; discriminate].
  exact (matchConfidenceBody_range _ _ _ _ Hc).
Qed.

End WithLibraries.

End ValidatorFacts.

(** C8. The match confidence and the quality score lie between 0 and 1
    for every input: for every image path, product name (a string or not)
    and brand, also where [calculateMatchConfidence] catches an error and
    answers 0; and for every buffer and URL handed to an analyser that
    started with an empty cache, also where the analysis fails.  Of the
    string-similarity package only that its coefficient is not negative
    is used. *)
Theorem confidence_and_quality_within_unit_interval
    (compareTwoStrings : string -> string -> Q)
    (sizeMatches : string -> list string) :
  (forall a b, (0 <= compareTwoStrings a b)%Q) ->
  (forall imagePath productName itemId brandName,
     let v := ImageValidator.validateImageMatch compareTwoStrings sizeMatches
                imagePath productName itemId brandName in
     (0 <= ImageValidator.confidence v /\ ImageValidator.confidence v <= 1)%Q) /\
  (forall history b u,
     let a := fst (QualityAnalyzer.analyzeImage (QualityAnalyzer.cacheAfter history) b u) in
     (0 <= QualityAnalyzer.score a /\ QualityAnalyzer.score a <= 1)%Q).
Proof.
  intros Hnn. split.
  - intros imagePath productName itemId brandName. cbn.
    now apply ValidatorFacts.calculateMatchConfidence_range.
  - intros history b u. apply QualityFacts.qualityScore_range.
Qed.

Lemma confidence_and_quality_within_unit_interval_witness :
  (0 <= ImageValidator.confidence
          (ImageValidator.validateImageMatch Examples.noSimilarity Examples.sizesOf
             "out/X 7/X 7_1_0a1b2c3d.jpg" (Some "bolt xl") "X 7" (Some "ACME")) /\
   ImageValidator.confidence
     (ImageValidator.validateImageMatch Examples.noSimilarity Examples.sizesOf
        "out/X 7/X 7_1_0a1b2c3d.jpg" (Some "bolt xl") "X 7" (Some "ACME")) <= 1)%Q.
Proof.
  apply (proj1 (confidence_and_quality_within_unit_interval
                  Examples.noSimilarity Examples.sizesOf
                  (fun a b => ltac:(vm_compute; discriminate)))).
Defined.

Module SourceTrustFacts.
Import JsString Js ImageValidator.

(** On an opaque filename the confidence is the source-trust value, whatever
    the two libraries answer. *)
Lemma opaque_confidence (compareTwoStrings : string -> string -> Q)
    (sizeMatches : string -> list string) (imagePath productName : string)
    (brandName : option string) :
  isCrypticFilename (Path.basename imagePath (Path.extname imagePath)) = true ->
  calculateMatchConfidence compareTwoStrings sizeMatches imagePath (Some productName)
    brandName
  = Qmin (calculateEcommerceMatchConfidence productName brandName) 1.0.
Proof.
  intros H. unfold calculateMatchConfidence, matchConfidenceBody. now rewrite H.
Qed.

Lemma ecommerce_unbranded (productName : string) (brandName : option string) :
  branded brandName = false ->
  calculateEcommerceMatchConfidence productName brandName = 0.75%Q.
Proof. intros H. unfold calculateEcommerceMatchConfidence. now rewrite H. Qed.

Lemma ecommerce_branded (productName : string) (brandName : option string) :
  branded brandName = true ->
  calculateEcommerceMatchConfidence productName brandName =
  if (3 <=? List.length
              (List.filter (fun token => (2 <? String.length token)%nat)
                           (split_on " " (toLowerCase productName))))%nat
  then Qmin (0.95 + 0.05) 1.0 else 0.95%Q.
Proof. intros H. unfold calculateEcommerceMatchConfidence. now rewrite H. Qed.

End SourceTrustFacts.

(** C6. For an image whose filename the source takes for opaque (eight
    leading characters of an identifier and none of the descriptive words),
    the match confidence is the source-trust value of
    [calculateEcommerceMatchConfidence]: 0.95 for a branded item, raised by
    the 0.05 bonus and capped at 1 when the product name has at least three
    tokens longer than two characters, and 0.75 for an unbranded item, the
    base 0.85 being replaced in both cases.  Two such images of an
    unbranded item average 0.75, which is not below 0.70, and the item is
    classified Found. *)
Theorem opaque_filename_confidence_is_source_trust
    (compareTwoStrings : string -> string -> Q)
    (sizeMatches : string -> list string)
    (path1 path2 productName : string) (brandName : option string) :
  ImageValidator.isCrypticFilename (Path.basename path1 (Path.extname path1)) = true ->
  ImageValidator.isCrypticFilename (Path.basename path2 (Path.extname path2)) = true ->
  let confidence path :=
    ImageValidator.calculateMatchConfidence compareTwoStrings sizeMatches path
      (Some productName) brandName in
  let tokens :=
    List.filter (fun token => (2 <? String.length token)%nat)
                (JsString.split_on " " (JsString.toLowerCase productName)) in
  let average := ((0 + confidence path1 + confidence path2) / inject_Z (Z.of_nat 2))%Q in
  (forall path, path = path1 \/ path = path2 ->
     (ImageValidator.branded brandName = true -> (List.length tokens < 3)%nat ->
        confidence path == 0.95) /\
     (ImageValidator.branded brandName = true -> (3 <= List.length tokens)%nat ->
        confidence path == 1) /\
     (ImageValidator.branded brandName = false -> confidence path == 0.75)) /\
  (ImageValidator.branded brandName = false ->
     average == 0.75 /\ (0.70 <= average)%Q /\ Main.classify 2 average = Main.Found).
Proof.
  intros H1 H2 confidence tokens average.
  assert (Hc : forall path, path = path1 \/ path = path2 ->
            confidence path =
            Qmin (ImageValidator.calculateEcommerceMatchConfidence productName brandName) 1.0).
  { intros path [-> | ->]; unfold confidence.
    - exact (SourceTrustFacts.opaque_confidence _ _ _ _ _ H1).
    - exact (SourceTrustFacts.opaque_confidence _ _ _ _ _ H2). }
  split.
  - intros path Hp. rewrite (Hc path Hp). repeat split.
    + intros Hb Hlt. rewrite (SourceTrustFacts.ecommerce_branded _ _ Hb).
      fold tokens. apply Nat.leb_gt in Hlt. rewrite Hlt. reflexivity.
    + intros Hb Hge. rewrite (SourceTrustFacts.ecommerce_branded _ _ Hb).
      fold tokens. apply Nat.leb_le in Hge. rewrite Hge. reflexivity.
    + intros Hb. rewrite (SourceTrustFacts.ecommerce_unbranded _ _ Hb). reflexivity.
  - intros Hb. subst average.
    rewrite (Hc path1 (or_introl eq_refl)), (Hc path2 (or_intror eq_refl)).
    rewrite (SourceTrustFacts.ecommerce_unbranded _ _ Hb).
    repeat split; vm_compute; congruence.
Qed.

Lemma opaque_filename_confidence_is_source_trust_witness :
  let confidence path :=
    ImageValidator.calculateMatchConfidence Examples.noSimilarity Examples.sizesOf path
      (Some "Widget") None in
  let average :=
    ((0 + confidence "out/W-100/W-100_1_42b58f70.jpg"
        + confidence "out/W-100/W-100_2_e56bd9d8.jpg") / inject_Z (Z.of_nat 2))%Q in
  average == 0.75 /\ (0.70 <= average)%Q /\ Main.classify 2 average = Main.Found.
Proof.
  intros confidence average.
  apply (proj2 (opaque_filename_confidence_is_source_trust
                  Examples.noSimilarity Examples.sizesOf
                  "out/W-100/W-100_1_42b58f70.jpg" "out/W-100/W-100_2_e56bd9d8.jpg"
                  "Widget" None eq_refl eq_refl)).
  reflexivity.
Defined.

(** ** The classification *)

Module ClassificationFacts.
Import Js DownloadManager Main.

Section Pipeline.
Variable pathname_of : string -> option string.
Variable compareTwoStrings : string -> string -> Q.
Variable sizeMatches : string -> list string.

(** The loop over the settled results keeps the item identifier, and counts
    a valid image for every file it records. *)
Lemma collect_spec (product : Product) (results : list (Error + Success)) :
  forall (i : nat) (acc : DownloadResult) (v : nat) (t : Q),
    let '(acc', v', _) :=
      collect compareTwoStrings sizeMatches product results i acc v t in
    itemId acc' = itemId acc /\
    (downloaded acc' + v = downloaded acc + v')%nat /\
    (List.length (downloadedFiles acc') + downloaded acc =
     List.length (downloadedFiles acc) + downloaded acc')%nat.
Proof.
  induction results as [|[e|ok] r IH]; intros i acc v t.
  - simpl. repeat split; lia.
  - simpl. match goal with |- context [collect _ _ _ r ?i' ?a' ?v' ?t'] =>
      specialize (IH i' a' v' t');
      destruct (collect compareTwoStrings sizeMatches product r i' a' v' t')
        as [[acc' v''] t''] end.
    simpl in IH. destruct IH as [H1 [H2 H3]]. repeat split; [assumption | lia | lia].
  - simpl. match goal with |- context [collect _ _ _ r ?i' ?a' ?v' ?t'] =>
      specialize (IH i' a' v' t');
      destruct (collect compareTwoStrings sizeMatches product r i' a' v' t')
        as [[acc' v''] t''] end.
    simpl in IH. rewrite length_app in IH. simpl in IH.
    destruct IH as [H1 [H2 H3]]. repeat split; [assumption | lia | lia].
Qed.

(** What [downloadProductImages] hands to the later steps of [run]. *)
Lemma downloadProductImages_outputs (st : State) (product : Product)
    (imageUrls : list Candidate) (outputDir : string) :
  let '(r, p, _) :=
    downloadProductImages pathname_of compareTwoStrings sizeMatches st product
                          imageUrls outputDir in
  itemId r = itemid product /\ itemid p = itemid product /\
  imageMatchingConfidence p = Some (averageConfidence r) /\
  downloaded r = List.length (downloadedFiles r) /\
  (downloaded r = 0%nat -> averageConfidence r = 0%Q).
Proof.
  unfold downloadProductImages.
  destruct (processDownloadsInChunks _ _ _ _ _) as [results st1].
  match goal with |- context [collect _ _ _ _ ?i ?a ?v ?t] =>
    pose proof (collect_spec product results i a v t) as H;
    destruct (collect compareTwoStrings sizeMatches product results i a v t)
      as [[acc v'] t'] end.
  simpl in H. destruct H as [H1 [H2 H3]]. cbn.
  repeat split; try assumption; try lia.
  intros Hz. assert (v' = 0%nat) as -> by lia. reflexivity.
Qed.

End Pipeline.

Lemma Qltb_true (x y : Q) : Qltb x y = true <-> (x < y)%Q.
Proof. apply QualityFacts.Qltb_lt. Qed.

Lemma Qltb_false (x y : Q) : Qltb x y = false <-> (y <= x)%Q.
Proof.
  unfold Qltb. rewrite negb_false_iff. apply Qle_bool_iff.
Qed.

(** The rule table of [classify]. *)
Lemma classify_table (kept : nat) (avg : Q) :
  (classify kept avg = NoImageFound <-> kept = 0%nat) /\
  (classify kept avg = NotSure <-> (0 < kept)%nat /\ (0 < avg)%Q /\ (avg < 0.7)%Q) /\
  (classify kept avg = Found <-> (0 < kept)%nat /\ ((avg <= 0)%Q \/ (0.7 <= avg)%Q)).
Proof.
  unfold classify.
  destruct (kept =? 0)%nat eqn:Hk.
  { apply Nat.eqb_eq in Hk. subst.
    repeat split; try discriminate; try reflexivity; intros [H _]; lia. }
  apply Nat.eqb_neq in Hk.
  destruct (Qltb avg 0.7) eqn:Hhi; destruct (Qltb 0 avg) eqn:Hlo; cbn [andb];
    try apply Qltb_true in Hhi; try apply Qltb_true in Hlo;
    try apply Qltb_false in Hhi; try apply Qltb_false in Hlo.
  - repeat split; try discriminate; try lia; try assumption.
    intros [_ [H | H]]; exfalso; lra.
  - repeat split; try discriminate; try lia; auto.
    intros [_ [H _]]. exfalso. lra.
  - repeat split; try discriminate; try lia; auto.
    intros [_ [_ H]]. exfalso. lra.
  - repeat split; try discriminate; try lia; auto.
    intros [_ [_ H]]. exfalso. lra.
Qed.

End ClassificationFacts.

(** C1, at an item with one kept image whose match confidence is 0.  The
    average confidence of the item is 0, below the threshold 0.70, and
    [downloadProductImages] itself marks its result as one that needs the
    folder of the unsure.  Step 5 of [run] selects the products whose
    confidence is below 0.7 and above 0: the second test, which passes
    over the products without image, passes over this item too.  It is
    handed neither to [handleNoImageFound] nor to
    [handleLowConfidenceMatches] and keeps its base folder [X 7], where
    the folder of the unsure would be [X 7 (NS)]: the item ends Found. *)
Theorem kept_image_with_zero_confidence_is_Found :
  let '(r, p, _) :=
    Examples.download (DownloadManager.initial DownloadManager.emptyDisk)
      Examples.bolt [Examples.good 1] "out/X 7" in
  DownloadManager.downloaded r = 1%nat /\
  DownloadManager.averageConfidence r == 0 /\
  DownloadManager.needsNSFolder r = true /\
  Main.isNifProduct [r] p = false /\
  Main.isLowConfidenceProduct p = false /\
  Main.classification [r] p = Main.Found /\
  Main.classification [r] p <> Main.NotSure /\
  Main.folderName (Main.classification [r] p) p 0 = "X 7" /\
  Main.folderName Main.NotSure p 0 = "X 7 (NS)" /\
  Main.classify 1 0 = Main.Found.
Proof. vm_compute. repeat split; congruence. Qed.

(** The folders of an item whose identifier needs no sanitising. *)
Example folder_names_of_widget :
  Main.folderName Main.NoImageFound Examples.widget 0 = "W-100 (NIF)" /\
  Main.folderName Main.NotSure Examples.widget 0 = "W-100 (NS)" /\
  Main.folderName Main.Found Examples.widget 0 = "W-100".
Proof. vm_compute. repeat split. Qed.

(** Scenario D, run through the pipeline: an unbranded item with two kept
    images of opaque filenames. *)
Example two_opaque_images_of_unbranded_item :
  let '(r, p, _) :=
    Examples.download (DownloadManager.initial DownloadManager.emptyDisk)
      Examples.widget [Examples.good 1; Examples.good 2] "out/W-100" in
  DownloadManager.downloaded r = 2%nat /\
  DownloadManager.averageConfidence r == 0.75 /\
  DownloadManager.needsNSFolder r = false /\
  Main.classification [r] p = Main.Found.
Proof. vm_compute. repeat split. Qed.

(** ** The download manager *)

Module DownloadFacts.
Import JsString Js DownloadManager.

Section WithUrlParser.
Variable pathname_of : string -> option string.

(** The guard of [downloadSingleImage]: a call that finds the counter of
    its item at 5 or more throws at once, before any request. *)
Lemma beginDownload_cap (st : State) (url itemId : string) :
  (5 <= default 0 (itemImageCounts st !! itemId))%nat ->
  beginDownload pathname_of st url itemId =
  (inl MaximumImagesReached, set_stats st (bump_failed (stats st))).
Proof.
  intros H. unfold beginDownload. apply Nat.leb_le in H. now rewrite H.
Qed.

(** The part of a call before its first [await] touches the statistics
    only, and remembers the counter it read. *)
Lemma beginDownload_spec (st : State) (url itemId : string) :
  let '(res, st') := beginDownload pathname_of st url itemId in
  downloadedHashes st' = downloadedHashes st /\
  itemImageCounts st' = itemImageCounts st /\
  disk st' = disk st /\
  analyzerCache st' = analyzerCache st /\
  match res with
  | inr pending =>
      currentCount pending = default 0%nat (itemImageCounts st !! itemId) /\
      (currentCount pending < 5)%nat
  | inl _ => failed (stats st') = S (failed (stats st))
  end.
Proof.
  unfold beginDownload.
  destruct (5 <=? _)%nat eqn:Hcap; [repeat split|].
  apply Nat.leb_gt in Hcap.
  destruct (truthy _ && _); repeat split. exact Hcap.
Qed.

(** A call that does not succeed and was not interleaved leaves the output
    tree as it found it, unless the error came after [fs.writeFile]. *)
Lemma failure_before_write_keeps_disk (st st' : State) (url outputDir itemId : string)
    (imageIndex : nat) (w : World) (e : Error) :
  downloadSingleImage pathname_of st url outputDir itemId imageIndex w = (inl e, st') ->
  e <> StatFailed -> e <> FileSizeMismatch -> e <> SidecarWriteFailed ->
  disk st' = disk st /\ failed (stats st') = S (failed (stats st)).
Proof.
  unfold downloadSingleImage, beginDownload.
  destruct (5 <=? _)%nat; [intros [= <- <-]; auto|].
  destruct (truthy _ && _); [intros [= <- <-]; auto|].
  unfold finishDownload.
  destruct (truthy _ && _); [intros [= <- <-]; auto|].
  destruct (get w) as [msg|imageBuffer]; [intros [= <- <-]; auto|].
  destruct (decoded imageBuffer) as [meta|]; [|intros [= <- <-]; auto].
  destruct (negb (array_includes _ _)); [intros [= <- <-]; auto|].
  destruct (bool_decide _); [intros [= <- <-]; auto|].
  destruct (QualityAnalyzer.analyzeImage _ _ _) as [qa cache].
  destruct (negb (QualityAnalyzer.isValid qa)); [intros [= <- <-]; auto|].
  destruct (negb (writeFile w)); [intros [= <- <-]; auto|].
  destruct (fstat w) as [size|]; [|intros [= <- <-]; congruence].
  destruct (negb (size =? _)%Z); [intros [= <- <-]; congruence|].
  destruct (negb (writeSidecar w)); [intros [= <- <-]; congruence|].
  discriminate.
Qed.

(** A call that succeeds and was not interleaved raises the counter of its
    item by one, from a value below 5. *)
Lemma success_counts_once (st st' : State) (url outputDir itemId : string)
    (imageIndex : nat) (w : World) (ok : Success) :
  downloadSingleImage pathname_of st url outputDir itemId imageIndex w = (inr ok, st') ->
  (default 0 (itemImageCounts st !! itemId) < 5)%nat /\
  itemImageCounts st' !! itemId = Some (S (default 0%nat (itemImageCounts st !! itemId))) /\
  successful (stats st') = S (successful (stats st)) /\
  is_Some (files (disk st') !! filePath ok).
Proof.
  unfold downloadSingleImage, beginDownload.
  destruct (5 <=? _)%nat eqn:Hcap; [discriminate|]. apply Nat.leb_gt in Hcap.
  destruct (truthy _ && _); [discriminate|].
  unfold finishDownload.
  destruct (truthy _ && _); [discriminate|].
  destruct (get w) as [msg|imageBuffer]; [discriminate|].
  destruct (decoded imageBuffer) as [meta|]; [|discriminate].
  destruct (negb (array_includes _ _)); [discriminate|].
  destruct (bool_decide _); [discriminate|].
  destruct (QualityAnalyzer.analyzeImage _ _ _) as [qa cache].
  destruct (negb (QualityAnalyzer.isValid qa)); [discriminate|].
  destruct (negb (writeFile w)); [discriminate|].
  destruct (fstat w) as [size|]; [|discriminate].
  destruct (negb (size =? _)%Z); [discriminate|].
  destruct (negb (writeSidecar w)); [discriminate|].
  intros [= <- <-]. cbn.
  split; [exact Hcap|]. split; [|split; [reflexivity|]].
  - rewrite lookup_insert_eq. f_equal. lia.
  - rewrite lookup_insert_eq. eauto.
Qed.

(** No step of the download path removes a fingerprint from
    [downloadedHashes]. *)
Lemma finishDownload_keeps_hashes (st : State) (pending : Pending)
    (url outputDir itemId : string) (imageIndex : nat) (w : World) :
  downloadedHashes st ⊆
  downloadedHashes (snd (finishDownload st pending url outputDir itemId imageIndex w)).
Proof.
  unfold finishDownload.
  destruct (truthy _ && _); [cbn; set_solver|].
  destruct (get w) as [msg|imageBuffer]; [cbn; set_solver|].
  destruct (decoded imageBuffer) as [meta|]; [|cbn; set_solver].
  destruct (negb (array_includes _ _)); [cbn; set_solver|].
  destruct (bool_decide _); [cbn; set_solver|].
  destruct (QualityAnalyzer.analyzeImage _ _ _) as [qa cache].
  destruct (negb (QualityAnalyzer.isValid qa)); [cbn; set_solver|].
  destruct (negb (writeFile w)); [cbn; set_solver|].
  destruct (fstat w) as [size|]; [|cbn; set_solver].
  destruct (negb (size =? _)%Z); [cbn; set_solver|].
  destruct (negb (writeSidecar w)); cbn; set_solver.
Qed.

Lemma beginAll_keeps_hashes (chunk : list Candidate) (itemId : string) :
  forall st, downloadedHashes (snd (beginAll pathname_of st chunk itemId)) =
             downloadedHashes st.
Proof.
  induction chunk as [|c r IH]; intros st; [reflexivity|].
  simpl. pose proof (beginDownload_spec st (fst c) itemId) as Hbegin.
  destruct (beginDownload pathname_of st (fst c) itemId) as [b st1].
  destruct Hbegin as [Hh _]. specialize (IH st1).
  destruct (beginAll pathname_of st1 r itemId) as [bs st2]. simpl in *. congruence.
Qed.

Lemma finishAll_keeps_hashes (started : list (Candidate * (Error + Pending)))
    (outputDir itemId : string) :
  forall st imageIndex,
    downloadedHashes st ⊆
    downloadedHashes (snd (finishAll st started outputDir itemId imageIndex)).
Proof.
  induction started as [|[c b] r IH]; intros st imageIndex; [reflexivity|].
  simpl. destruct b as [e|pending].
  - specialize (IH st (S imageIndex)).
    destruct (finishAll st r outputDir itemId (S imageIndex)) as [rs st2].
    exact IH.
  - pose proof (finishDownload_keeps_hashes st pending (fst c) outputDir itemId
                  imageIndex (snd c 1%nat)) as Hfinish.
    destruct (finishDownload st pending (fst c) outputDir itemId imageIndex (snd c 1%nat))
      as [res st1].
    specialize (IH st1 (S imageIndex)).
    destruct (finishAll st1 r outputDir itemId (S imageIndex)) as [rs st2].
    simpl in *. set_solver.
Qed.

Lemma processDownloadsInChunks_keeps_hashes (st : State) (imageUrls : list Candidate)
    (outputDir itemId : string) :
  downloadedHashes st ⊆
  downloadedHashes (snd (processDownloadsInChunks pathname_of st imageUrls outputDir itemId)).
Proof.
  unfold processDownloadsInChunks.
  match goal with |- context [List.fold_left ?f ?c ?a] =>
    assert (H : forall chunks acc,
               downloadedHashes (snd (fst acc)) ⊆
               downloadedHashes (snd (fst (List.fold_left f chunks acc))));
    [|specialize (H c a); destruct (List.fold_left f c a) as [[results st'] i];
      exact H] end.
  induction chunks as [|chunk r IH]; intros [[results st0] i]; [reflexivity|].
  cbn [List.fold_left].
  pose proof (beginAll_keeps_hashes chunk itemId st0) as Hbegin.
  destruct (beginAll pathname_of st0 chunk itemId) as [started st1].
  pose proof (finishAll_keeps_hashes started outputDir itemId st1 (i + 1)) as Hfinish.
  destruct (finishAll st1 started outputDir itemId (i + 1)) as [chunkResults st2].
  etransitivity; [|apply IH]. cbn [fst snd] in *.
  rewrite <- Hbegin. exact Hfinish.
Qed.

End WithUrlParser.

(** [downloadProductImages] starts from, and ends with, every fingerprint
    that earlier items left in [downloadedHashes]. *)
Lemma downloadProductImages_keeps_hashes
    (pathname_of : string -> option string)
    (compareTwoStrings : string -> string -> Q) (sizeMatches : string -> list string)
    (st : State) (product : Product) (imageUrls : list Candidate) (outputDir : string) :
  downloadedHashes st ⊆
  downloadedHashes
    (snd (downloadProductImages pathname_of compareTwoStrings sizeMatches st product
            imageUrls outputDir)).
Proof.
  unfold downloadProductImages.
  match goal with |- context [processDownloadsInChunks ?p ?s ?u ?o ?i] =>
    pose proof (processDownloadsInChunks_keeps_hashes p s u o i) as H;
    destruct (processDownloadsInChunks p s u o i) as [results st1] end.
  destruct (collect _ _ _ _ _ _ _ _) as [[acc v] t].
  exact H.
Qed.

End DownloadFacts.

Module CounterFacts.
Import JsString Js DownloadManager.

Section WithUrlParser.
Variable pathname_of : string -> option string.

(** The rest of a call either leaves the counters alone or sets the counter
    of its item to the value it read at its start, plus one. *)
Lemma finishDownload_counts (st : State) (pending : Pending)
    (url outputDir itemId : string) (imageIndex : nat) (w : World) :
  let st' := snd (finishDownload st pending url outputDir itemId imageIndex w) in
  itemImageCounts st' = itemImageCounts st \/
  itemImageCounts st' = <[itemId := (currentCount pending + 1)%nat]> (itemImageCounts st).
Proof.
  unfold finishDownload.
  destruct (truthy _ && _); [now left|].
  destruct (get w) as [msg|imageBuffer]; [now left|].
  destruct (decoded imageBuffer) as [meta|]; [|now left].
  destruct (negb (array_includes _ _)); [now left|].
  destruct (bool_decide _); [now left|].
  destruct (QualityAnalyzer.analyzeImage _ _ _) as [qa cache].
  destruct (negb (QualityAnalyzer.isValid qa)); [now left|].
  destruct (negb (writeFile w)); [now left|].
  destruct (fstat w) as [size|]; [|now left].
  destruct (negb (size =? _)%Z); [now left|].
  destruct (negb (writeSidecar w)); now right.
Qed.

(** Every call of a chunk remembers the counter its item had when the
    chunk started. *)
Lemma beginAll_reads_one_counter (chunk : list Candidate) (itemId : string) :
  forall st,
    let '(started, st') := beginAll pathname_of st chunk itemId in
    itemImageCounts st' = itemImageCounts st /\
    Forall (fun cb => match snd cb with
                      | inr pending =>
                          currentCount pending =
                          default 0%nat (itemImageCounts st !! itemId)
                      | inl _ => True
                      end) started.
Proof.
  induction chunk as [|c r IH]; intros st; [split; [reflexivity | constructor]|].
  simpl. pose proof (DownloadFacts.beginDownload_spec pathname_of st (fst c) itemId) as Hb.
  destruct (beginDownload pathname_of st (fst c) itemId) as [b st1].
  destruct Hb as [_ [Hc [_ [_ Hres]]]].
  specialize (IH st1). destruct (beginAll pathname_of st1 r itemId) as [bs st2].
  destruct IH as [Hc2 Hall]. split; [congruence|].
  constructor.
  - simpl. destruct b as [e|pending]; [exact I | exact (proj1 Hres)].
  - rewrite Hc in Hall. exact Hall.
Qed.

Lemma finishAll_counter (started : list (Candidate * (Error + Pending)))
    (outputDir itemId : string) (n : nat) :
  Forall (fun cb => match snd cb with
                    | inr pending => currentCount pending = n
                    | inl _ => True
                    end) started ->
  forall st imageIndex,
    (default 0 (itemImageCounts st !! itemId) <= S n)%nat ->
    (default 0
       (itemImageCounts (snd (finishAll st started outputDir itemId imageIndex))
          !! itemId) <= S n)%nat.
Proof.
  induction 1 as [|[c b] r Hb Hr IH]; intros st imageIndex Hst; [exact Hst|].
  simpl. destruct b as [e|pending].
  - specialize (IH st (S imageIndex) Hst).
    destruct (finishAll st r outputDir itemId (S imageIndex)) as [rs st2]. exact IH.
  - pose proof (finishDownload_counts st pending (fst c) outputDir itemId imageIndex
                  (snd c 1%nat)) as Hf.
    destruct (finishDownload st pending (fst c) outputDir itemId imageIndex (snd c 1%nat))
      as [res st1].
    simpl in Hb, Hf.
    assert (Hst1 : (default 0 (itemImageCounts st1 !! itemId) <= S n)%nat).
    { destruct Hf as [-> | ->]; [exact Hst|].
      rewrite lookup_insert_eq. simpl. lia. }
    specialize (IH st1 (S imageIndex) Hst1).
    destruct (finishAll st1 r outputDir itemId (S imageIndex)) as [rs st2]. exact IH.
Qed.

(** However many images of a chunk are kept, the counter of the item rises
    by one at most. *)
Lemma chunk_raises_counter_by_one_at_most (st : State) (chunk : list Candidate)
    (outputDir itemId : string) (imageIndex : nat) :
  let '(started, st1) := beginAll pathname_of st chunk itemId in
  let '(_, st2) := finishAll st1 started outputDir itemId imageIndex in
  (default 0 (itemImageCounts st2 !! itemId) <=
   S (default 0 (itemImageCounts st !! itemId)))%nat.
Proof.
  pose proof (beginAll_reads_one_counter chunk itemId st) as Hb.
  destruct (beginAll pathname_of st chunk itemId) as [started st1].
  destruct Hb as [Hc Hall].
  pose proof (finishAll_counter started outputDir itemId _ Hall st1 imageIndex) as Hf.
  destruct (finishAll st1 started outputDir itemId imageIndex) as [res st2].
  apply Hf. rewrite Hc. lia.
Qed.

End WithUrlParser.

End CounterFacts.

Module ExtensionGateFacts.
Import JsString Js DownloadManager.

(** A URL with a disallowed extension that reaches [downloadSingleImage]
    all the same is refused there before the first request: the call
    throws, and its outcome does not depend on what the world would
    answer. *)
Lemma disallowed_extension_is_never_fetched
    (pathname_of : string -> option string) (st : State)
    (url pathname outputDir itemId : string) (imageIndex : nat) (w w' : World) :
  pathname_of url = Some pathname ->
  Path.extname pathname <> "" ->
  ~ In (toLowerCase (Path.extname pathname)) [".jpg"; ".jpeg"; ".png"] ->
  downloadSingleImage pathname_of st url outputDir itemId imageIndex w =
  downloadSingleImage pathname_of st url outputDir itemId imageIndex w' /\
  exists e, fst (downloadSingleImage pathname_of st url outputDir itemId imageIndex w)
            = inl e.
Proof.
  intros Hp Hne Hout. unfold downloadSingleImage, beginDownload.
  destruct (5 <=? _)%nat; [split; [reflexivity | eexists; reflexivity]|].
  rewrite Hp.
  assert (Ht : truthy (toLowerCase (Path.extname pathname)) = true).
  { unfold truthy. apply negb_true_iff. apply String.eqb_neq.
    intros H. apply Hne. now apply UrlFilterFacts.toLowerCase_empty. }
  assert (Hn : array_includes [".jpg"; ".jpeg"; ".png"]
                 (toLowerCase (Path.extname pathname)) = false).
  { destruct (array_includes _ _) eqn:E; [|reflexivity].
    apply UrlFilterFacts.array_includes_In in E. contradiction. }
  rewrite Ht, Hn. cbn. split; [reflexivity | eexists; reflexivity].
Qed.

End ExtensionGateFacts.

(** ** Retrying *)

Module RetryFacts.
Import Helpers.

Section Retry.
Context {St E A : Type}.
Variable fn : nat -> St -> (E + A) * St.
Variable baseDelay : Q.

(** The delays slept are those of the attempts that failed with another
    attempt left: [baseDelay] times the multiplier to the power 0, 1, ...,
    none of them capped, and fewer of them than [maxRetries]. *)
Lemma retry_from_delays (remaining : nat) :
  forall (attempt : nat) (lastError : option E) (slept : list Q) (st : St),
  exists k, (k < Nat.max remaining 1)%nat /\
    snd (retry_from fn baseDelay attempt remaining lastError slept st) =
    slept ++ List.map (backoffDelay baseDelay) (List.seq attempt k).
Proof.
  induction remaining as [|remaining IH]; intros attempt lastError slept st.
  - exists 0%nat. simpl. split; [lia | now rewrite app_nil_r].
  - simpl. destruct (fn attempt st) as [[e|v] st1].
    + destruct (remaining =? 0)%nat eqn:Hz.
      * exists 0%nat. simpl. split; [lia | now rewrite app_nil_r].
      * apply Nat.eqb_neq in Hz.
        destruct (IH (S attempt) (Some e) (slept ++ [backoffDelay baseDelay attempt]) st1)
          as [k [Hk Heq]].
        exists (S k). split; [lia|].
        rewrite Heq. simpl. now rewrite <- app_assoc.
    + exists 0%nat. simpl. split; [lia | now rewrite app_nil_r].
Qed.

Lemma retry_delays (maxRetries : nat) (st : St) :
  exists k, (k < Nat.max maxRetries 1)%nat /\
    snd (retry fn maxRetries baseDelay st) =
    List.map (backoffDelay baseDelay) (List.seq 1 k).
Proof. unfold retry. apply (retry_from_delays maxRetries 1 None [] st). Qed.

(** A first call that succeeds is not repeated. *)
Lemma retry_first_attempt (maxRetries : nat) (st st1 : St) (v : A) :
  (1 <= maxRetries)%nat ->
  fn 1%nat st = (inr v, st1) ->
  retry fn maxRetries baseDelay st = (Some (inr v), st1, []).
Proof.
  intros Hn H1. unfold retry. destruct maxRetries as [|n]; [lia|].
  simpl. now rewrite H1.
Qed.

(** A first call that throws is followed, when the budget allows a second
    one, by a sleep of [baseDelay] and a second call, whose success is the
    outcome. *)
Lemma retry_second_attempt (maxRetries : nat) (st st1 st2 : St) (e : E) (v : A) :
  (2 <= maxRetries)%nat ->
  fn 1%nat st = (inl e, st1) ->
  fn 2%nat st1 = (inr v, st2) ->
  retry fn maxRetries baseDelay st =
  (Some (inr v), st2, [backoffDelay baseDelay 1]).
Proof.
  intros Hn H1 H2. unfold retry.
  destruct maxRetries as [|[|n]]; [lia | lia |].
  simpl. rewrite H1. simpl. now rewrite H2.
Qed.

(** With the budget of [settings.js], two failures end the matter: the
    second error is thrown, after a single sleep. *)
Lemma retry_gives_up (st st1 st2 : St) (e1 e2 : E) :
  fn 1%nat st = (inl e1, st1) ->
  fn 2%nat st1 = (inl e2, st2) ->
  retry fn Settings.retryAttempts baseDelay st =
  (Some (inl e2), st2, [backoffDelay baseDelay 1]).
Proof.
  intros H1 H2. unfold retry. simpl. rewrite H1. simpl. now rewrite H2.
Qed.

End Retry.

Lemma backoffDelay_first (baseDelay : Q) : backoffDelay baseDelay 1 == baseDelay.
Proof. unfold backoffDelay. simpl. ring. Qed.

Lemma backoffDelay_next (baseDelay : Q) (attempt : nat) :
  (1 <= attempt)%nat ->
  backoffDelay baseDelay (S attempt) ==
  backoffDelay baseDelay attempt * Settings.backoffMultiplier.
Proof.
  intros H. unfold backoffDelay.
  replace (Z.of_nat (S attempt - 1)) with (Z.of_nat (attempt - 1) + 1)%Z by lia.
  rewrite Qpower_plus; [|discriminate]. simpl (Qpower _ 1). ring.
Qed.

End RetryFacts.

(** C2, at six good candidates for one item, processed twice.  The five
    calls of the first chunk read the counter of the item before any of
    them writes it, so the five kept images leave the counter at 1; with the
    sixth it stands at 2 for six kept images, and the guard of the source,
    which stops at 5, never fires.  A second pass over the same item keeps
    six more images: twelve files, against a [maxImagesPerItem] of 6. *)
Theorem parallel_chunk_loses_counter_updates :
  let '(r1, _, st1) :=
    Examples.download (DownloadManager.initial DownloadManager.emptyDisk)
      Examples.widget Examples.sixGood "out/W-100" in
  let '(r2, _, st2) := Examples.download st1 Examples.widget Examples.sixMore "out/W-100" in
  DownloadManager.downloaded r1 = 6%nat /\
  DownloadManager.itemImageCounts st1 !! "W-100" = Some 2%nat /\
  DownloadManager.downloaded r2 = 6%nat /\
  DownloadManager.itemImageCounts st2 !! "W-100" = Some 4%nat /\
  size (DownloadManager.files (DownloadManager.disk st2)) = 12%nat /\
  (Settings.maxImagesPerItem < 12)%nat.
Proof. vm_compute. repeat split; lia. Qed.

(** C3, at two pictures of one item whose 8x8 thumbnails differ in one
    pixel.  Their 64-bit average hashes, written as 64 binary digits,
    differ in one position, a similarity of 63/64, and
    [ImageValidator.isDuplicate], handed these fingerprints, takes the
    second for a duplicate of the first; the download path compares the MD5
    digests of the thumbnails for equality and keeps both. *)
Theorem near_duplicate_images_are_both_kept :
  let h1 := ImageSearch.generateImageHash (Examples.raster 10) in
  let h2 := ImageSearch.generateImageHash (Examples.raster 200) in
  let fresh :=
    {| ImageValidator.processedHashes := ∅; ImageValidator.similarImages := [] |} in
  String.length h1 = 64%nat /\
  ImageValidator.calculateHammingDistance h1 h2 = 1%nat /\
  (0.9 <= ImageSearch.calculateHashSimilarity h1 h2)%Q /\
  fst (ImageValidator.isDuplicate
         (snd (ImageValidator.isDuplicate fresh (Some h1) "a.jpg")) (Some h2) "b.jpg")
    = true /\
  let '(r, _, st) :=
    Examples.download (DownloadManager.initial DownloadManager.emptyDisk)
      Examples.widget Examples.nearDuplicates "out/W-100" in
  DownloadManager.downloaded r = 2%nat /\
  DownloadManager.failedCount r = 0%nat /\
  DownloadManager.duplicatesSkipped (DownloadManager.stats st) = 0%nat /\
  size (DownloadManager.files (DownloadManager.disk st)) = 2%nat.
Proof. vm_compute. repeat split; congruence. Qed.

(** C4, at two items that are offered the same picture.  The fingerprint
    the first item left in [downloadedHashes] is still there when the
    second item starts, [resetDuplicateDetection] having emptied the sets
    of the validator only; the picture is refused for the second item as a
    duplicate, and that item ends with no image. *)
Theorem fingerprints_survive_item_boundary :
  let '(r1, _, st1) :=
    Examples.download (DownloadManager.initial DownloadManager.emptyDisk)
      Examples.widget [Examples.good 1] "out/W-100" in
  let '(r2, p2, st2) :=
    Examples.download st1 Examples.gadget [Examples.samePicture] "out/G-200" in
  DownloadManager.downloaded r1 = 1%nat /\
  elements (DownloadManager.downloadedHashes st1) = ["1f9738af56f4d34c89069fb2a632c53a"] /\
  DownloadManager.downloaded r2 = 0%nat /\
  DownloadManager.errors r2 = [(1%nat, "Duplicate image detected")] /\
  DownloadManager.duplicatesSkipped (DownloadManager.stats st2) = 1%nat /\
  Main.classification [r1; r2] p2 = Main.NoImageFound.
Proof. vm_compute. repeat split; congruence. Qed.

(** C5, at a candidate whose first GET times out and whose second would
    succeed.  [downloadProductImages] calls [downloadSingleImage] once: the
    item ends with no image and one failure.  Through [processQueue], which
    wraps the call in [Helpers.retry], the same candidate is fetched at the
    second attempt after a delay of 1000 ms, and the statistics then hold
    one success and one failure for it. *)
Theorem first_attempt_timeout_is_not_retried :
  let '(r, p, st) :=
    Examples.download (DownloadManager.initial DownloadManager.emptyDisk)
      Examples.widget [Examples.flaky] "out/W-100" in
  let '(q, stq, slept) :=
    DownloadManager.downloadImageWithQueue Examples.simple_pathname
      (DownloadManager.initial DownloadManager.emptyDisk) Examples.flaky
      "out/W-100" "W-100" 1 in
  DownloadManager.attempted r = 1%nat /\
  DownloadManager.downloaded r = 0%nat /\
  DownloadManager.failedCount r = 1%nat /\
  DownloadManager.errors r = [(1%nat, "timeout of 15000ms exceeded")] /\
  DownloadManager.totalAttempted (DownloadManager.stats st) = 1%nat /\
  Main.classification [r] p = Main.NoImageFound /\
  (exists ok, q = Some (inr ok)) /\
  slept = [1000%Q] /\
  DownloadManager.totalAttempted (DownloadManager.stats stq) = 2%nat /\
  DownloadManager.successful (DownloadManager.stats stq) = 1%nat /\
  DownloadManager.failed (DownloadManager.stats stq) = 1%nat.
Proof. vm_compute. repeat split; try congruence. eexists. reflexivity. Qed.

(** C7, at a download whose image is written and whose [metadata.json]
    cannot be, and at one whose written file is reported short.  Both
    calls throw; the image file stays in the output directory; in the first
    case the download is counted both as successful and as failed. *)
Theorem failed_download_leaves_written_file :
  let st0 := DownloadManager.initial DownloadManager.emptyDisk in
  let '(res1, st1) :=
    DownloadManager.downloadSingleImage Examples.simple_pathname st0
      (fst Examples.lockedSidecar) "out/W-100" "W-100" 1
      (snd Examples.lockedSidecar 1%nat) in
  let '(res2, st2) :=
    DownloadManager.downloadSingleImage Examples.simple_pathname st0
      (fst Examples.shortFile) "out/W-100" "W-100" 1
      (snd Examples.shortFile 1%nat) in
  res1 = inl DownloadManager.SidecarWriteFailed /\
  DownloadManager.files (DownloadManager.disk st1) !! "out/W-100/W-100_1_42b58f70.jpg"
    = Some (Js.data (Examples.cropped 21)) /\
  DownloadManager.successful (DownloadManager.stats st1) = 1%nat /\
  DownloadManager.failed (DownloadManager.stats st1) = 1%nat /\
  res2 = inl DownloadManager.FileSizeMismatch /\
  DownloadManager.files (DownloadManager.disk st2) !! "out/W-100/W-100_1_42b58f70.jpg"
    = Some (Js.data (Examples.cropped 21)) /\
  DownloadManager.failed (DownloadManager.stats st2) = 1%nat /\
  DownloadManager.files (DownloadManager.disk st0) = ∅.
Proof. vm_compute. repeat split; congruence. Qed.

(** * Further properties of the code *)

Module StringFacts.
Import JsString Notions.

Lemma chars_app (s t : string) : chars (s +:+ t) = chars s ++ chars t.
Proof. induction s as [|c r IH]; simpl; [reflexivity | now rewrite <- IH]. Qed.

Lemma length_chars (s : string) : List.length (chars s) = String.length s.
Proof. induction s as [|c r IH]; simpl; [reflexivity | now rewrite IH]. Qed.

Lemma length_app_string (s t : string) :
  String.length (s +:+ t) = (String.length s + String.length t)%nat.
Proof. induction s as [|c r IH]; simpl; [reflexivity | now rewrite IH]. Qed.

Lemma chars_rev_string (s : string) : chars (rev_string s) = List.rev (chars s).
Proof. unfold rev_string, chars. apply list_ascii_of_string_of_list_ascii. Qed.

Lemma rev_string_involutive (s : string) : rev_string (rev_string s) = s.
Proof.
  unfold rev_string. rewrite list_ascii_of_string_of_list_ascii, List.rev_involutive.
  apply string_of_list_ascii_of_string.
Qed.

Lemma length_rev_string (s : string) : String.length (rev_string s) = String.length s.
Proof. rewrite <- !length_chars, chars_rev_string. apply List.length_rev. Qed.

Lemma chars_substring (P : ascii -> Prop) (s : string) :
  forall n m, Forall P (chars s) -> Forall P (chars (String.substring n m s)).
Proof.
  induction s as [|c r IH]; intros n m H.
  - destruct n, m; constructor.
  - inversion H as [|? ? Hc Hr]; subst. destruct n as [|n]; simpl.
    + destruct m as [|m]; [constructor|]. simpl. constructor; [exact Hc | now apply IH].
    + now apply IH.
Qed.

Lemma length_substring_le (s : string) :
  forall n m, (String.length (String.substring n m s) <= m)%nat.
Proof.
  induction s as [|c r IH]; intros n m.
  - destruct n, m; simpl; lia.
  - destruct n as [|n]; simpl; [|apply IH].
    destruct m as [|m]; simpl; [lia|]. specialize (IH 0%nat m). lia.
Qed.

Lemma substring_all (s : string) :
  forall m, (String.length s <= m)%nat -> String.substring 0 m s = s.
Proof.
  induction s as [|c r IH]; intros m H.
  - destruct m; reflexivity.
  - destruct m as [|m]; simpl in *; [lia|]. rewrite IH; [reflexivity | lia].
Qed.


End StringFacts.

Module SanitizeFacts.
Import JsString Helpers Notions StringFacts.

Lemma replace_invalid_chars (s : string) :
  Forall (fun c => is_invalid_char c = false) (chars (replace_invalid s)).
Proof.
  induction s as [|c r IH]; simpl; [constructor|].
  constructor; [|exact IH].
  destruct (is_invalid_char c) eqn:E; [reflexivity | exact E].
Qed.

Lemma collapse_spaces_chars (P : ascii -> Prop) (s : string) :
  P " "%char -> forall b, Forall P (chars s) -> Forall P (chars (collapse_spaces b s)).
Proof.
  intros Hsp. induction s as [|c r IH]; intros b H; simpl; [constructor|].
  inversion H as [|? ? Hc Hr]; subst.
  destruct (is_space c).
  - destruct b; [now apply IH|]. simpl. constructor; [exact Hsp | now apply IH].
  - simpl. constructor; [exact Hc | now apply IH].
Qed.

Lemma trim_start_chars (P : ascii -> Prop) (s : string) :
  Forall P (chars s) -> Forall P (chars (trim_start s)).
Proof.
  induction s as [|c r IH]; intros H; simpl; [constructor|].
  destruct (is_space c); [|exact H].
  apply IH. now inversion H.
Qed.

Lemma rev_string_chars (P : ascii -> Prop) (s : string) :
  Forall P (chars s) -> Forall P (chars (rev_string s)).
Proof. intros H. rewrite chars_rev_string. now apply List.Forall_rev. Qed.

Lemma trim_chars (P : ascii -> Prop) (s : string) :
  Forall P (chars s) -> Forall P (chars (trim s)).
Proof.
  intros H. unfold trim.
  apply rev_string_chars, trim_start_chars, rev_string_chars, trim_start_chars, H.
Qed.

(** Every character of a sanitized name is outside the reserved set. *)
Lemma sanitizeFilename_chars (filename : string) :
  Forall (fun c => is_invalid_char c = false) (chars (sanitizeFilename filename)).
Proof.
  unfold sanitizeFilename.
  assert (H : Forall (fun c => is_invalid_char c = false)
                (chars (trim (collapse_spaces false (replace_invalid filename))))).
  { apply trim_chars, collapse_spaces_chars;
      [reflexivity | apply replace_invalid_chars]. }
  destruct (_ <? _)%nat; [now apply chars_substring | exact H].
Qed.

Lemma sanitizeFilename_length (filename : string) :
  (String.length (sanitizeFilename filename) <= maxFolderNameLength)%nat.
Proof.
  unfold sanitizeFilename.
  destruct (_ <? _)%nat eqn:E; [apply length_substring_le|].
  now apply Nat.ltb_ge in E.
Qed.

Lemma replace_invalid_id (s : string) :
  Forall (fun c => is_invalid_char c = false) (chars s) -> replace_invalid s = s.
Proof.
  induction s as [|c r IH]; intros H; simpl; [reflexivity|].
  inversion H as [|? ? Hc Hr]; subst. rewrite Hc, IH; auto.
Qed.

Lemma trim_start_nonspace (c : ascii) (s : string) :
  is_space c = false -> trim_start (String c s) = String c s.
Proof. intros H. simpl. now rewrite H. Qed.

(** [collapse_spaces] on a text that opens with characters that are not
    white space. *)
Lemma collapse_spaces_app (s t : string) :
  Forall (fun c => is_space c = false) (chars s) ->
  forall b, s <> "" \/ b = false ->
  collapse_spaces b (s +:+ t) = s +:+ collapse_spaces false t.
Proof.
  induction s as [|c r IH]; intros H b Hb.
  - destruct Hb as [Hb | ->]; [congruence | reflexivity].
  - inversion H as [|? ? Hc Hr]; subst. simpl. rewrite Hc.
    rewrite (IH Hr false); [reflexivity | now right].
Qed.

End SanitizeFacts.

Module FolderFacts.
Import JsString Helpers Notions StringFacts SanitizeFacts DownloadManager Main.

Lemma string_of_list_ascii_app (l1 l2 : list ascii) :
  string_of_list_ascii (l1 ++ l2) = string_of_list_ascii l1 +:+ string_of_list_ascii l2.
Proof. induction l1 as [|c r IH]; simpl; [reflexivity | now rewrite IH]. Qed.

Lemma rev_string_app (s t : string) :
  rev_string (s +:+ t) = rev_string t +:+ rev_string s.
Proof.
  unfold rev_string. fold (chars (s +:+ t)) (chars s) (chars t).
  now rewrite chars_app, List.rev_app_distr, string_of_list_ascii_app.
Qed.

Lemma app_empty_r (s : string) : s +:+ "" = s.
Proof.
  induction s as [|c r IH]; [reflexivity|].
  change (String c (r +:+ "") = String c r). now rewrite IH.
Qed.

Lemma app_assoc_string (a b c : string) : (a +:+ b) +:+ c = a +:+ b +:+ c.
Proof.
  induction a as [|x r IH]; [reflexivity|].
  change (String x ((r +:+ b) +:+ c) = String x (r +:+ b +:+ c)). now rewrite IH.
Qed.

Lemma trim_start_opening (s t : string) :
  Forall (fun c => is_space c = false) (chars s) -> s <> "" ->
  trim_start (s +:+ t) = s +:+ t.
Proof.
  destruct s as [|c r]; [congruence|]. intros H _.
  inversion H as [|? ? Hc Hr]; subst. simpl. now rewrite Hc.
Qed.

Lemma plain_nospace (s : string) :
  plain s -> Forall (fun c => is_space c = false) (chars s).
Proof. apply List.Forall_impl. now intros c [_ H]. Qed.

Lemma plain_valid (s : string) :
  plain s -> Forall (fun c => is_invalid_char c = false) (chars s).
Proof. apply List.Forall_impl. now intros c [H _]. Qed.

Lemma rev_string_empty (s : string) : rev_string s = "" -> s = "".
Proof.
  intros H. apply (f_equal String.length) in H. rewrite length_rev_string in H.
  destruct s; [reflexivity | discriminate].
Qed.

(** A text that opens with a plain, non-empty word and closes with another
    one is left alone by [trim]. *)
Lemma trim_between (s m t : string) :
  Forall (fun c => is_space c = false) (chars s) -> s <> "" ->
  Forall (fun c => is_space c = false) (chars t) -> t <> "" ->
  trim (s +:+ m +:+ t) = s +:+ m +:+ t.
Proof.
  intros Hs Hs0 Ht Ht0. unfold trim.
  rewrite (trim_start_opening s (m +:+ t) Hs Hs0).
  rewrite !rev_string_app.
  assert (Hr : Forall (fun c => is_space c = false) (chars (rev_string t))).
  { rewrite chars_rev_string. now apply List.Forall_rev. }
  assert (Hr0 : rev_string t <> "").
  { intros H. now apply Ht0, rev_string_empty. }
  rewrite app_assoc_string.
  rewrite (trim_start_opening _ _ Hr Hr0).
  rewrite <- rev_string_app, <- rev_string_app, rev_string_involutive.
  apply app_assoc_string.
Qed.

Lemma trim_plain (s : string) : plain s -> trim s = s.
Proof.
  intros H. destruct s as [|c r]; [reflexivity|].
  pose proof (trim_between (String c r) "" (String c r)) as T.
  (* a direct argument is shorter *)
  clear T. unfold trim.
  pose proof (plain_nospace _ H) as Hn.
  pose proof (trim_start_opening (String c r) "" Hn) as T1.
  rewrite app_empty_r in T1. rewrite T1 by discriminate.
  assert (Hr : Forall (fun c => is_space c = false) (chars (rev_string (String c r)))).
  { rewrite chars_rev_string. now apply List.Forall_rev. }
  pose proof (trim_start_opening (rev_string (String c r)) "" Hr) as T2.
  rewrite app_empty_r in T2. rewrite T2.
  - apply rev_string_involutive.
  - intros E. apply rev_string_empty in E. discriminate.
Qed.

Lemma sanitizeFilename_plain (s : string) :
  plain s -> (String.length s <= maxFolderNameLength)%nat -> sanitizeFilename s = s.
Proof.
  intros H Hl. unfold sanitizeFilename.
  rewrite (replace_invalid_id s (plain_valid s H)).
  pose proof (collapse_spaces_app s "" (plain_nospace s H) false (or_intror eq_refl)) as C.
  rewrite app_empty_r in C. simpl in C. rewrite app_empty_r in C. rewrite C.
  rewrite (trim_plain s H).
  apply Nat.ltb_ge in Hl. now rewrite Hl.
Qed.

Lemma sanitizeFilename_plain_suffix (s : string) :
  plain s -> s <> "" -> (String.length s + 5 <= maxFolderNameLength)%nat ->
  sanitizeFilename (s +:+ " (NS)") = s +:+ " (NS)".
Proof.
  intros H H0 Hl. unfold sanitizeFilename.
  rewrite replace_invalid_id.
  2:{ rewrite chars_app. apply Forall_app. split; [now apply plain_valid|].
      repeat constructor. }
  rewrite (collapse_spaces_app s " (NS)" (plain_nospace s H) false (or_intror eq_refl)).
  change (collapse_spaces false " (NS)") with (" (" +:+ "NS)").
  rewrite (trim_between s " (" "NS)" (plain_nospace s H) H0);
    [|repeat constructor | discriminate].
  assert (L : String.length (s +:+ " (" +:+ "NS)") = (String.length s + 5)%nat).
  { rewrite length_app_string. simpl. lia. }
  assert (E : (maxFolderNameLength <? String.length (s +:+ " (" +:+ "NS)"))%nat = false).
  { apply Nat.ltb_ge. lia. }
  rewrite E. reflexivity.
Qed.

End FolderFacts.

(** X2. For an item identifier that is not empty, holds neither a reserved
    character nor white space and is at most 250 characters long, the folder
    of a Found item is the identifier itself, that of a NotSure item the
    identifier followed by [ (NS)], and that of an item without image the
    identifier followed by [ (NIF)]; the clock is not read. *)
Theorem folder_names_of_plain_identifier
    (product : DownloadManager.Product) (timestamp : Z) :
  Notions.plain (DownloadManager.itemid product) ->
  DownloadManager.itemid product <> "" ->
  (String.length (DownloadManager.itemid product) <= 250)%nat ->
  Main.folderName Main.Found product timestamp = DownloadManager.itemid product /\
  Main.folderName Main.NotSure product timestamp =
    DownloadManager.itemid product +:+ " (NS)" /\
  Main.folderName Main.NoImageFound product timestamp =
    DownloadManager.itemid product +:+ " (NIF)".
Proof.
  intros Hp H0 Hl.
  assert (Hnf : Main.generateFolderName product false timestamp =
                DownloadManager.itemid product).
  { unfold Main.generateFolderName.
    rewrite FolderFacts.sanitizeFilename_plain;
      [|exact Hp | unfold Helpers.maxFolderNameLength; lia].
    rewrite (FolderFacts.trim_plain _ Hp).
    destruct (DownloadManager.itemid product) as [|c r]; [congruence | reflexivity]. }
  assert (Hns : Main.generateFolderName product true timestamp =
                DownloadManager.itemid product +:+ " (NS)").
  { unfold Main.generateFolderName.
    rewrite FolderFacts.sanitizeFilename_plain_suffix;
      [|exact Hp | exact H0 | unfold Helpers.maxFolderNameLength; lia].
    pose proof (FolderFacts.trim_between (DownloadManager.itemid product) " (" "NS)"
                  (FolderFacts.plain_nospace _ Hp) H0) as T.
    change (DownloadManager.itemid product +:+ " (NS)")
      with (DownloadManager.itemid product +:+ " (" +:+ "NS)").
    rewrite T; [|repeat constructor | discriminate].
    destruct (DownloadManager.itemid product) as [|c r]; [congruence | reflexivity]. }
  unfold Main.folderName. rewrite Hnf, Hns. repeat split.
Qed.

Lemma folder_names_of_plain_identifier_witness :
  Main.folderName Main.Found Examples.widget 0 = "W-100" /\
  Main.folderName Main.NotSure Examples.widget 0 = "W-100 (NS)" /\
  Main.folderName Main.NoImageFound Examples.widget 0 = "W-100 (NIF)".
Proof.
  apply (folder_names_of_plain_identifier Examples.widget 0).
  - repeat constructor.
  - discriminate.
  - simpl. lia.
Defined.

Module Md5Facts.
Import Md5 Notions StringFacts.
Local Open Scope Z_scope.

Lemma length_digest (msg : list Z) : List.length (digest msg) = 16%nat.
Proof.
  unfold digest. destruct (blocks _ _ _) as [[[A B] C] D]. reflexivity.
Qed.

Lemma land_255_range (x : Z) : 0 <= Z.land x 255 < 256.
Proof.
  change 255 with (Z.ones 8). rewrite Z.land_ones by lia.
  change (2 ^ 8) with 256. apply Z.mod_pos_bound. lia.
Qed.

Lemma digest_bytes (msg : list Z) : Forall (fun b => 0 <= b < 256) (digest msg).
Proof.
  unfold digest. destruct (blocks _ _ _) as [[[A B] C] D].
  unfold bytes_of_word. repeat (apply Forall_app; split);
    repeat (constructor; [apply land_255_range|]); constructor.
Qed.

Lemma hex_digit_In (n : Z) : 0 <= n < 16 -> In (hex_digit n) hexDigits.
Proof.
  intros H. unfold hex_digit. fold hexDigits. apply nth_In.
  change (List.length hexDigits) with 16%nat. lia.
Qed.

Lemma hex_spec (bytes : list Z) :
  Forall (fun b => 0 <= b < 256) bytes ->
  String.length (hex bytes) = (2 * List.length bytes)%nat /\
  Forall (fun c => In c hexDigits) (chars (hex bytes)).
Proof.
  induction 1 as [|b r Hb Hr [IHl IHc]]; [split; [reflexivity | constructor]|].
  simpl String.length. rewrite IHl. split; [simpl; lia|].
  simpl. constructor; [|constructor; [|exact IHc]]; apply hex_digit_In.
  - rewrite Z.shiftr_div_pow2 by lia. change (2 ^ 4) with 16.
    split; [apply Z.div_pos; lia | apply Z.div_lt_upper_bound; lia].
  - change 15 with (Z.ones 4). rewrite Z.land_ones by lia.
    change (2 ^ 4) with 16. apply Z.mod_pos_bound. lia.
Qed.

(** A digest in hexadecimal is 32 characters among 0-9 and a-f. *)
Lemma md5hex_spec (msg : list Z) :
  String.length (md5hex msg) = 32%nat /\
  Forall (fun c => In c hexDigits) (chars (md5hex msg)).
Proof.
  unfold md5hex. destruct (hex_spec _ (digest_bytes msg)) as [Hl Hc].
  rewrite length_digest in Hl. split; assumption.
Qed.

Lemma length_substring_exact (s : string) :
  forall m, (m <= String.length s)%nat ->
            String.length (String.substring 0 m s) = m.
Proof.
  induction s as [|c r IH]; intros m H.
  - destruct m; simpl in *; [reflexivity | lia].
  - destruct m as [|m]; simpl in *; [reflexivity|]. rewrite IH; [reflexivity | lia].
Qed.

End Md5Facts.

(** X4. The name [generateUniqueFilename] makes is the base name, an
    underscore, eight hexadecimal digits (lower case) and the extension,
    whatever the clock says. *)
Theorem generateUniqueFilename_shape (baseFilename extension : string) (timestamp : Z) :
  exists h : string,
    DownloadManager.generateUniqueFilename baseFilename extension timestamp =
      baseFilename +:+ "_" +:+ h +:+ extension /\
    String.length h = 8%nat /\
    Forall (fun c => In c (list_ascii_of_string "0123456789abcdef"))
           (list_ascii_of_string h).
Proof.
  unfold DownloadManager.generateUniqueFilename.
  eexists. split; [reflexivity|].
  destruct (Md5Facts.md5hex_spec
              (Md5.bytes_of_string
                 (baseFilename +:+ "_" +:+ Js.dec timestamp))) as [Hl Hc].
  split.
  - apply Md5Facts.length_substring_exact. rewrite Hl. lia.
  - apply (StringFacts.chars_substring _ _ 0 8 Hc).
Qed.

Module ExtensionFacts.
Import JsString Helpers Notions StringFacts.

Lemma lower_dot : lower_ascii Path.dot = Path.dot.
Proof. reflexivity. Qed.

Lemma lower_extname_shape (p : string) :
  toLowerCase (Path.extname p) = "" \/
  exists e, toLowerCase (Path.extname p) = String Path.dot (toLowerCase e).
Proof.
  destruct (UrlFilterFacts.extname_shape p) as [-> | [e ->]]; [now left|].
  right. exists e. reflexivity.
Qed.

End ExtensionFacts.

(** X3. [getFileExtension] never answers with an empty string: it gives a
    lower-case text that opens with a dot.  The path it reads is the
    pathname of the URL, or the URL itself when this does not parse; the
    answer is the lower-cased extension of that path, and the default [.jpg]
    when the path has none. *)
Theorem getFileExtension_shape (pathname_of : string -> option string) (url : string) :
  let p := default url (pathname_of url) in
  let r := Helpers.getFileExtension pathname_of url in
  (Path.extname p = "" -> r = ".jpg") /\
  (Path.extname p <> "" -> r = JsString.toLowerCase (Path.extname p)) /\
  exists e : string, r = String "."%char e /\ JsString.toLowerCase e = e.
Proof.
  cbv zeta.
  assert (H : Helpers.getFileExtension pathname_of url =
              if JsString.truthy
                   (JsString.toLowerCase (Path.extname (default url (pathname_of url))))
              then JsString.toLowerCase (Path.extname (default url (pathname_of url)))
              else ".jpg").
  { unfold Helpers.getFileExtension. destruct (pathname_of url); reflexivity. }
  rewrite H. clear H.
  destruct (ExtensionFacts.lower_extname_shape (default url (pathname_of url)))
    as [E | [e E]]; rewrite E; cbn [JsString.truthy String.eqb negb].
  - split; [reflexivity|]. split.
    + intros Hne. exfalso. apply Hne.
      now apply UrlFilterFacts.toLowerCase_empty.
    + exists "jpg". split; reflexivity.
  - split; [|split].
    + intros H0. rewrite H0 in E. discriminate.
    + reflexivity.
    + exists (JsString.toLowerCase e). split; [reflexivity|].
      apply UrlFilterFacts.toLowerCase_idem.
Qed.

Module RetryLogFacts.
Import Helpers RetryLog.

Section Retry.
Context {St E A : Type}.
Variable fn : nat -> St -> (E + A) * St.
Variable baseDelay : Q.

Lemma retry_from_logged (remaining : nat) :
  forall (attempt : nat) (lastError : option E) (slept : list Q) (log : list nat) (st : St),
    (1 <= remaining)%nat ->
    exists n o st' slept',
      retry_from (logged fn) baseDelay attempt remaining lastError slept (log, st) =
        (o, (log ++ List.seq attempt n, st'), slept') /\
      retry_from fn baseDelay attempt remaining lastError slept st = (o, st', slept') /\
      (1 <= n <= remaining)%nat /\
      slept' = slept ++ List.map (backoffDelay baseDelay) (List.seq attempt (n - 1)) /\
      match o with
      | Some (inl _) => n = remaining
      | Some (inr _) => True
      | None => False
      end.
Proof.
  induction remaining as [|remaining IH]; intros attempt lastError slept log st Hr; [lia|].
  simpl. unfold logged at 1. cbn [fst snd].
  destruct (fn attempt st) as [[e|v] st1].
  - destruct (remaining =? 0)%nat eqn:Hz.
    + apply Nat.eqb_eq in Hz. subst remaining.
      exists 1%nat, (Some (inl e)), st1, slept. simpl.
      repeat split; try lia. now rewrite app_nil_r.
    + apply Nat.eqb_neq in Hz.
      destruct (IH (S attempt) (Some e) (slept ++ [backoffDelay baseDelay attempt])
                  (log ++ [attempt]) st1) as [n [o [st' [slept' [H1 [H2 [Hn [Hs Ho]]]]]]]];
        [lia|].
      exists (S n), o, st', slept'. rewrite H1, H2.
      repeat split; try lia.
      * simpl. now rewrite <- app_assoc.
      * rewrite Hs, <- app_assoc. simpl.
        destruct n as [|n]; [lia|]. simpl. now rewrite Nat.sub_0_r.
      * destruct o as [[e'|v']|]; [lia | exact I | exact Ho].
  - exists 1%nat, (Some (inr v)), st1, slept. simpl.
    repeat split; try lia. now rewrite app_nil_r.
Qed.

End Retry.
End RetryLogFacts.

(** X5. [Helpers.retry] with a budget of at least one attempt calls [fn]
    with the attempt numbers 1, 2, ..., n in turn, for some n within the
    budget; it sleeps between two calls and at no other time, the k-th
    sleep lasting [baseDelay] times the multiplier to the power k - 1; it
    always has an outcome, and when this is an error the budget is used up.
    Logging the calls changes neither the outcome nor the state nor the
    sleeps. *)
Theorem retry_attempts_and_sleeps {St E A : Type}
    (fn : nat -> St -> (E + A) * St) (maxRetries : nat) (baseDelay : Q) (st : St) :
  (1 <= maxRetries)%nat ->
  exists (n : nat) (outcome : option (E + A)) (st' : St) (slept : list Q),
    Helpers.retry (RetryLog.logged fn) maxRetries baseDelay ([], st) =
      (outcome, (List.seq 1 n, st'), slept) /\
    Helpers.retry fn maxRetries baseDelay st = (outcome, st', slept) /\
    (1 <= n <= maxRetries)%nat /\
    slept = List.map (Helpers.backoffDelay baseDelay) (List.seq 1 (n - 1)) /\
    match outcome with
    | Some (inl _) => n = maxRetries
    | Some (inr _) => True
    | None => False
    end.
Proof.
  intros H. unfold Helpers.retry.
  destruct (RetryLogFacts.retry_from_logged fn baseDelay maxRetries 1 None [] [] st H)
    as [n [o [st' [slept' [H1 [H2 [Hn [Hs Ho]]]]]]]].
  exists n, o, st', slept'. simpl in H1, Hs. auto.
Qed.

Lemma retry_attempts_and_sleeps_witness :
  exists (n : nat) (outcome : option (DownloadManager.Error + DownloadManager.Success))
         (st' : DownloadManager.State) (slept : list Q),
    Helpers.retry
      (RetryLog.logged
         (fun attempt st =>
            DownloadManager.downloadSingleImage Examples.simple_pathname st
              (fst Examples.flaky) "out/W-100" "W-100" 1 (snd Examples.flaky attempt)))
      Settings.retryAttempts 1000
      ([], DownloadManager.initial DownloadManager.emptyDisk) =
      (outcome, (List.seq 1 n, st'), slept) /\
    Helpers.retry
      (fun attempt st =>
         DownloadManager.downloadSingleImage Examples.simple_pathname st
           (fst Examples.flaky) "out/W-100" "W-100" 1 (snd Examples.flaky attempt))
      Settings.retryAttempts 1000
      (DownloadManager.initial DownloadManager.emptyDisk) = (outcome, st', slept) /\
    (1 <= n <= Settings.retryAttempts)%nat /\
    slept = List.map (Helpers.backoffDelay 1000) (List.seq 1 (n - 1)) /\
    match outcome with
    | Some (inl _) => n = Settings.retryAttempts
    | Some (inr _) => True
    | None => False
    end.
Proof.
  apply (retry_attempts_and_sleeps
           (fun attempt st =>
              DownloadManager.downloadSingleImage Examples.simple_pathname st
                (fst Examples.flaky) "out/W-100" "W-100" 1 (snd Examples.flaky attempt))
           Settings.retryAttempts 1000
           (DownloadManager.initial DownloadManager.emptyDisk)).
  unfold Settings.retryAttempts. lia.
Defined.

Module FilterFacts.
Import JsString ImageSearch.

Lemma keepUrl_patterns (pathname_of : string -> option string) (url : string) :
  keepUrl pathname_of url = true ->
  forall p, In p (excludePatterns ++ smallImagePatterns) ->
            includes (toLowerCase url) p = false.
Proof.
  unfold keepUrl.
  destruct (negb (Helpers.isValidUrl pathname_of url)); [discriminate|].
  destruct (negb (Helpers.isAllowedExtension _)); [discriminate|].
  destruct (existsb _ excludePatterns) eqn:E1; [discriminate|].
  destruct (existsb _ smallImagePatterns) eqn:E2; [discriminate|].
  intros _ p Hp. apply in_app_or in Hp.
  destruct (includes (toLowerCase url) p) eqn:Hi; [|reflexivity].
  destruct Hp as [Hp | Hp].
  - assert (existsb (includes (toLowerCase url)) excludePatterns = true)
      by (apply existsb_exists; eauto). congruence.
  - assert (existsb (includes (toLowerCase url)) smallImagePatterns = true)
      by (apply existsb_exists; eauto). congruence.
Qed.

Lemma existsb_false_all {A : Type} (f : A -> bool) (l : list A) :
  (forall x, In x l -> f x = false) -> existsb f l = false.
Proof.
  intros H. destruct (existsb f l) eqn:E; [|reflexivity].
  apply existsb_exists in E. destruct E as [x [Hx Hf]]. rewrite (H x Hx) in Hf.
  discriminate.
Qed.

End FilterFacts.

(** X6. A URL whose text, lower-cased, holds one of the excluded words or
    one of the small-image marks anywhere (in the host, the path or the
    query) is not in the output of [filterImageUrls].  The words are
    matched as substrings: with the two-letter word [ad], every URL that
    holds [upload], [download], [shadow] or [ad] itself is dropped. *)
Theorem filterImageUrls_drops_marked_urls
    (pathname_of : string -> option string) (urls : list string) (url p : string) :
  In p (ImageSearch.excludePatterns ++ ImageSearch.smallImagePatterns) ->
  JsString.includes (JsString.toLowerCase url) p = true ->
  ~ In url (ImageSearch.filterImageUrls pathname_of urls).
Proof.
  intros Hp Hi Hin. unfold ImageSearch.filterImageUrls in Hin.
  apply filter_In in Hin. destruct Hin as [_ Hk].
  rewrite (FilterFacts.keepUrl_patterns pathname_of url Hk p Hp) in Hi. discriminate.
Qed.

Lemma filterImageUrls_drops_marked_urls_witness :
  ~ In "https://cdn.example.com/Uploads/bolt.jpg"
       (ImageSearch.filterImageUrls Examples.simple_pathname
          ["https://cdn.example.com/Uploads/bolt.jpg";
           "https://cdn.example.com/p/bolt.jpg"]).
Proof.
  apply (filterImageUrls_drops_marked_urls Examples.simple_pathname _
           "https://cdn.example.com/Uploads/bolt.jpg" "ad").
  - simpl. tauto.
  - vm_compute. reflexivity.
Defined.

(** X7. A URL that parses, whose path has no extension at all and whose text
    holds none of the excluded words and small-image marks passes the
    filter: the missing extension is read as [.jpg]. *)
Theorem filterImageUrls_keeps_url_without_extension
    (pathname_of : string -> option string) (urls : list string)
    (url pathname : string) :
  In url urls ->
  pathname_of url = Some pathname ->
  Path.extname pathname = "" ->
  (forall p, In p (ImageSearch.excludePatterns ++ ImageSearch.smallImagePatterns) ->
             JsString.includes (JsString.toLowerCase url) p = false) ->
  In url (ImageSearch.filterImageUrls pathname_of urls).
Proof.
  intros Hin Hp He Hpat. unfold ImageSearch.filterImageUrls.
  apply filter_In. split; [exact Hin|].
  unfold ImageSearch.keepUrl, Helpers.isValidUrl, Helpers.getFileExtension.
  rewrite Hp, He. cbn [JsString.toLowerCase JsString.truthy String.eqb negb].
  change (Helpers.isAllowedExtension ".jpg") with true. cbn [negb].
  rewrite !FilterFacts.existsb_false_all; [reflexivity | |];
    intros p Hq; apply Hpat; apply in_or_app; auto.
Qed.

Lemma filterImageUrls_keeps_url_without_extension_witness :
  In "https://img.example.com/p/12345"
     (ImageSearch.filterImageUrls Examples.simple_pathname
        ["https://img.example.com/p/12345"]).
Proof.
  apply (filterImageUrls_keeps_url_without_extension Examples.simple_pathname _
           "https://img.example.com/p/12345" "/p/12345").
  - now left.
  - reflexivity.
  - reflexivity.
  - intros p Hp. vm_compute in Hp.
    repeat (destruct Hp as [<- | Hp]; [vm_compute; reflexivity|]). destruct Hp.
Defined.

Module HashFacts.
Import JsString ImageSearch Notions StringFacts.

Lemma fold_add (l : list Z) (a : Z) :
  List.fold_left Z.add l a = (a + List.fold_left Z.add l 0)%Z.
Proof.
  revert a. induction l as [|x r IH]; intros a; simpl; [lia|].
  rewrite (IH (a + x)%Z), (IH (0 + x)%Z). lia.
Qed.

Lemma fold_cons (a : Z) (l : list Z) :
  List.fold_left Z.add (a :: l) 0%Z = (a + List.fold_left Z.add l 0)%Z.
Proof. cbn [List.fold_left]. rewrite fold_add. lia. Qed.

(** Some pixel is not above the mean. *)
Lemma some_pixel_below_mean_cons (r : list Z) :
  forall a, exists x, In x (a :: r) /\
            (x * Z.of_nat (List.length (a :: r)) <= List.fold_left Z.add (a :: r) 0)%Z /\
            forall y, In y (a :: r) -> (x <= y)%Z.
Proof.
  induction r as [|b r' IH]; intros a.
  - exists a. split; [now left|]. split; [simpl; lia|]. intros y [<- | []]. lia.
  - destruct (IH b) as [x [Hx [Hs Hmin]]].
    rewrite (fold_cons a (b :: r')).
    replace (Z.of_nat (List.length (a :: b :: r')))
      with (1 + Z.of_nat (List.length (b :: r')))%Z by (simpl List.length; lia).
    destruct (Z_le_gt_dec a x) as [Hax | Hax].
    + exists a. split; [now left|]. split.
      * nia.
      * intros y [<- | Hy]; [lia|]. specialize (Hmin y Hy). lia.
    + exists x. split; [now right|]. split.
      * nia.
      * intros y [<- | Hy]; [lia|]. now apply Hmin.
Qed.

Lemma some_pixel_below_mean (l : list Z) :
  l <> [] ->
  exists x, In x l /\
            (x * Z.of_nat (List.length l) <= List.fold_left Z.add l 0)%Z /\
            forall y, In y l -> (x <= y)%Z.
Proof.
  destruct l as [|a r]; [congruence|]. intros _. apply some_pixel_below_mean_cons.
Qed.

Lemma matching_le (h1 h2 : string) : (matching h1 h2 <= String.length h1)%nat.
Proof.
  revert h2. induction h1 as [|a r IH]; intros [|b r2]; simpl; try lia.
  specialize (IH r2). destruct (Ascii.eqb a b); lia.
Qed.

Lemma matching_sym (h1 h2 : string) : matching h1 h2 = matching h2 h1.
Proof.
  revert h2. induction h1 as [|a r IH]; intros [|b r2]; simpl; try reflexivity.
  rewrite (IH r2), (Ascii.eqb_sym a b). reflexivity.
Qed.

Lemma matching_full (h1 h2 : string) :
  String.length h1 = String.length h2 ->
  (matching h1 h2 = String.length h1 <-> h1 = h2).
Proof.
  revert h2. induction h1 as [|a r IH]; intros [|b r2]; simpl; intros Hl;
    try discriminate; [tauto|].
  injection Hl as Hl. specialize (IH r2 Hl).
  pose proof (matching_le r r2) as Hle.
  destruct (Ascii.eqb a b) eqn:E.
  - apply Ascii.eqb_eq in E. subst b. split.
    + intros H. f_equal. apply IH. lia.
    + intros [= ->]. f_equal. apply IH. reflexivity.
  - apply Ascii.eqb_neq in E. split; [lia | congruence].
Qed.

End HashFacts.

(** X11. The average hash of a raster has one binary digit per pixel, and
    for a raster that is not empty at least one of them is [0]: the pixel
    of least value is never above the mean.  No picture hashes to
    all ones. *)
Theorem average_hash_is_never_all_ones (raster : list Z) :
  let hash := ImageSearch.generateImageHash raster in
  String.length hash = List.length raster /\
  Forall (fun c => c = "0"%char \/ c = "1"%char) (list_ascii_of_string hash) /\
  (raster <> [] -> In "0"%char (list_ascii_of_string hash)).
Proof.
  cbv zeta. unfold ImageSearch.generateImageHash.
  rewrite list_ascii_of_string_of_list_ascii.
  split; [|split].
  - rewrite <- StringFacts.length_chars. unfold Notions.chars.
    rewrite list_ascii_of_string_of_list_ascii. apply List.length_map.
  - apply List.Forall_map. apply List.Forall_forall. intros x _.
    destruct (Qle_bool _ _); auto.
  - intros Hne.
    destruct (HashFacts.some_pixel_below_mean raster Hne) as [x [Hx [Hs _]]].
    apply in_map_iff. exists x. split; [|exact Hx].
    assert (Hle : (inject_Z x <=
                   inject_Z (List.fold_left Z.add raster 0%Z) /
                   inject_Z (Z.of_nat (List.length raster)))%Q).
    { apply Qle_shift_div_l.
      - destruct raster; [congruence|]. unfold Qlt. simpl. lia.
      - rewrite <- inject_Z_mult. rewrite <- Zle_Qle. exact Hs. }
    apply Qle_bool_iff in Hle. now rewrite Hle.
Qed.

(** X12. On two hashes of which the first is not empty,
    [calculateHashSimilarity] lies between 0 and 1, does not depend on the
    order of its arguments, is 0 for hashes of different lengths, and is 1
    for equal hashes and for no others. *)
Theorem hash_similarity_properties (hash1 hash2 : string) :
  hash1 <> "" ->
  (0 <= ImageSearch.calculateHashSimilarity hash1 hash2 <= 1)%Q /\
  ImageSearch.calculateHashSimilarity hash1 hash2 =
    ImageSearch.calculateHashSimilarity hash2 hash1 /\
  (String.length hash1 <> String.length hash2 ->
   ImageSearch.calculateHashSimilarity hash1 hash2 = 0%Q) /\
  (ImageSearch.calculateHashSimilarity hash1 hash2 == 1 <-> hash1 = hash2)%Q.
Proof.
  intros Hne. unfold ImageSearch.calculateHashSimilarity.
  assert (Hpos : (0 < String.length hash1)%nat).
  { destruct hash1; [congruence | simpl; lia]. }
  assert (HposQ : (0 < inject_Z (Z.of_nat (String.length hash1)))%Q).
  { unfold Qlt. simpl. lia. }
  rewrite (Nat.eqb_sym (String.length hash2)).
  destruct (String.length hash1 =? String.length hash2)%nat eqn:El; cbn [negb].
  - apply Nat.eqb_eq in El. split; [|split; [|split]].
    + split.
      * apply Qle_shift_div_l; [exact HposQ|]. rewrite Qmult_0_l.
        unfold Qle. simpl. lia.
      * apply Qle_shift_div_r; [exact HposQ|]. rewrite Qmult_1_l.
        rewrite <- Zle_Qle. pose proof (HashFacts.matching_le hash1 hash2). lia.
    + now rewrite HashFacts.matching_sym, El.
    + intros H. contradiction.
    + rewrite <- (HashFacts.matching_full hash1 hash2 El).
      assert (Hnz : ~ (inject_Z (Z.of_nat (String.length hash1)) == 0)%Q).
      { intros H. rewrite H in HposQ. discriminate. }
      split.
      * intros H.
        pose proof (Qmult_div_r (inject_Z (Z.of_nat (ImageSearch.matching hash1 hash2)))
                      _ Hnz) as M.
        rewrite H, Qmult_1_r in M. unfold Qeq in M. simpl in M. lia.
      * intros ->. unfold Qdiv. now apply Qmult_inv_r.
  - apply Nat.eqb_neq in El. split; [|split; [|split]].
    + split; discriminate.
    + reflexivity.
    + reflexivity.
    + split; [discriminate|]. intros ->. congruence.
Qed.

Module SearchFacts.
Import JsString Js ImageSearch SearchSession.

Lemma indexAfter_mod (n : nat) : indexAfter n = (n mod 5)%nat.
Proof.
  induction n as [|n IH]; [reflexivity|].
  cbn [indexAfter getNextUserAgent snd]. rewrite IH.
  change (List.length userAgents) with 5%nat.
  rewrite Nat.Div0.add_mod_idemp_l. f_equal. lia.
Qed.

Lemma similarity_sym (h1 h2 : string) :
  calculateHashSimilarity h1 h2 = calculateHashSimilarity h2 h1.
Proof.
  unfold calculateHashSimilarity. rewrite (Nat.eqb_sym (String.length h2)).
  destruct (String.length h1 =? String.length h2)%nat eqn:E; [|reflexivity].
  apply Nat.eqb_eq in E. cbn [negb]. now rewrite HashFacts.matching_sym, E.
Qed.

Lemma isDuplicateImage_cases (imageHashes : list string) (hash : string) :
  (fst (isDuplicateImage imageHashes hash) = true /\
   snd (isDuplicateImage imageHashes hash) = imageHashes /\
   (In hash imageHashes \/
    exists e, In e imageHashes /\ (0.9 < calculateHashSimilarity hash e)%Q)) \/
  (fst (isDuplicateImage imageHashes hash) = false /\
   snd (isDuplicateImage imageHashes hash) = imageHashes ++ [hash] /\
   ~ In hash imageHashes /\
   forall e, In e imageHashes -> (calculateHashSimilarity hash e <= 0.9)%Q).
Proof.
  unfold isDuplicateImage.
  destruct (array_includes imageHashes hash) eqn:Ei.
  { left. apply UrlFilterFacts.array_includes_In in Ei. auto. }
  destruct (existsb _ imageHashes) eqn:Ee.
  { left. apply existsb_exists in Ee. destruct Ee as [e [He Hs]].
    apply QualityFacts.Qltb_lt in Hs. repeat split; eauto. }
  right. repeat split.
  - intros H. apply UrlFilterFacts.array_includes_In in H. congruence.
  - intros e He.
    destruct (Qltb 0.9 (calculateHashSimilarity hash e)) eqn:Hs.
    + assert (existsb (fun x => Qltb 0.9 (calculateHashSimilarity hash x)) imageHashes
              = true) by (apply existsb_exists; eauto).
      congruence.
    + now apply ClassificationFacts.Qltb_false in Hs.
Qed.

(** The threshold of [validateImageMatch] on the score of
    [calculateImageProductMatch]. *)
Lemma match_threshold (imageBuffer : Buffer) (keywords : list string) :
  Qleb 0.7 (calculateImageProductMatch imageBuffer keywords) =
  match decoded imageBuffer with
  | None => false
  | Some m =>
      Qleb 0.8 (inject_Z (width m) / inject_Z (height m)) &&
      Qleb (inject_Z (width m) / inject_Z (height m)) 1.25 ||
      (800 <=? width m)%Z && (800 <=? height m)%Z ||
      (500 <=? width m)%Z && (500 <=? height m)%Z &&
      array_includes ["jpeg"; "jpg"; "png"] (format m)
  end.
Proof.
  unfold calculateImageProductMatch.
  destruct (decoded imageBuffer) as [m|]; [|reflexivity].
  assert (H85 : (800 <=? width m)%Z && (800 <=? height m)%Z = true ->
                (500 <=? width m)%Z && (500 <=? height m)%Z = true).
  { rewrite !andb_true_iff, !Z.leb_le. lia. }
  destruct (Qleb 0.8 _ && Qleb _ 1.25);
    destruct ((500 <=? width m)%Z && (500 <=? height m)%Z);
    destruct ((800 <=? width m)%Z && (800 <=? height m)%Z);
    destruct (array_includes _ _); try reflexivity;
    specialize (H85 eq_refl); discriminate.
Qed.

Lemma hashesAfter_snoc (seen : list string) (hash : string) :
  hashesAfter (seen ++ [hash]) = snd (isDuplicateImage (hashesAfter seen) hash).
Proof. unfold hashesAfter. now rewrite fold_left_app. Qed.

Lemma FOP_snoc {A : Type} (R : A -> A -> Prop) (l : list A) (x : A) :
  ForallOrdPairs R l -> Forall (fun a => R a x) l -> ForallOrdPairs R (l ++ [x]).
Proof.
  induction 1 as [|a l Ha Hl IH]; intros Hx; simpl.
  - constructor; constructor.
  - inversion Hx as [|? ? Hax Hlx]; subst. constructor.
    + apply Forall_app. split; [exact Ha | now constructor].
    + now apply IH.
Qed.

End SearchFacts.

(** X15. [getNextUserAgent] walks through the five user agents in turn and
    starts again: the call number n + 1 returns the agent at the index
    n mod 5, never [undefined]. *)
Theorem user_agents_rotate (n : nat) :
  fst (SearchSession.getNextUserAgent (SearchSession.indexAfter n)) =
    List.nth_error SearchSession.userAgents (n mod 5) /\
  is_Some (fst (SearchSession.getNextUserAgent (SearchSession.indexAfter n))) /\
  SearchSession.indexAfter (n + 5) = SearchSession.indexAfter n.
Proof.
  rewrite !SearchFacts.indexAfter_mod. cbn [SearchSession.getNextUserAgent fst].
  split; [reflexivity|]. split.
  - assert (H : (n mod 5 < 5)%nat) by (apply Nat.mod_upper_bound; lia).
    destruct (n mod 5)%nat as [|[|[|[|[|k]]]]]; try (eexists; reflexivity). lia.
  - replace (n + 5)%nat with (n + 1 * 5)%nat by lia. apply Nat.Div0.mod_add.
Qed.

(** X14. The verdict of [ImageSearch.validateImageMatch] is decided by the
    geometry and the format of the image alone, whatever the product and
    its keywords: the image is a valid match exactly when it decodes and is
    near-square (aspect ratio between 0.8 and 1.25), or measures at least
    800 pixels both ways, or measures at least 500 pixels both ways in one
    of the formats jpeg, jpg and png. *)
Theorem search_match_reads_geometry_only
    (imageBuffer : Js.Buffer) (productKeywords : list string) :
  SearchSession.isValidMatch
    (SearchSession.validateImageMatch imageBuffer (Some productKeywords)) = true <->
  exists m, Js.decoded imageBuffer = Some m /\
    ((0.8 <= inject_Z (Js.width m) / inject_Z (Js.height m) /\
      inject_Z (Js.width m) / inject_Z (Js.height m) <= 1.25)%Q \/
     (800 <= Js.width m /\ 800 <= Js.height m)%Z \/
     ((500 <= Js.width m /\ 500 <= Js.height m)%Z /\
      In (Js.format m) ["jpeg"; "jpg"; "png"])).
Proof.
  unfold SearchSession.validateImageMatch. cbn [SearchSession.isValidMatch].
  rewrite SearchFacts.match_threshold.
  destruct (Js.decoded imageBuffer) as [m|].
  2:{ split; [discriminate | intros [m [H _]]; discriminate]. }
  rewrite !orb_true_iff, !andb_true_iff, !QualityFacts.Qleb_le, !Z.leb_le,
    UrlFilterFacts.array_includes_In.
  split.
  - intros H. exists m. split; [reflexivity | tauto].
  - intros [m' [[= <-] H]]. tauto.
Qed.

(** X13. The set [imageHashes] of the search step, empty at the start,
    holds after any run of [isDuplicateImage] hashes that are pairwise
    different and pairwise at a similarity of 0.9 at most; every hash that
    was checked is in the set or is more than 0.9 similar to a hash of the
    set; and a hash that was checked once is a duplicate ever after. *)
Theorem search_hashes_stay_apart (seen : list string) :
  let imageHashes := SearchSession.hashesAfter seen in
  ForallOrdPairs
    (fun earlier later =>
       earlier <> later /\
       (ImageSearch.calculateHashSimilarity later earlier <= 0.9)%Q)
    imageHashes /\
  Forall
    (fun hash =>
       (In hash imageHashes \/
        exists e, In e imageHashes /\
                  (0.9 < ImageSearch.calculateHashSimilarity hash e)%Q) /\
       SearchSession.isDuplicateImage imageHashes hash = (true, imageHashes))
    seen.
Proof.
  cbv zeta. induction seen as [|hash seen IH] using rev_ind.
  - split; constructor.
  - rewrite SearchFacts.hashesAfter_snoc. destruct IH as [Hfar Hcov].
    assert (Hdup : forall l h,
               (In h l \/ exists e, In e l /\
                                    (0.9 < ImageSearch.calculateHashSimilarity h e)%Q) ->
               SearchSession.isDuplicateImage l h = (true, l)).
    { intros l h Hc.
      destruct (SearchFacts.isDuplicateImage_cases l h)
        as [[H1 [H2 _]] | [_ [_ [Hn Hall]]]].
      - destruct (SearchSession.isDuplicateImage l h) as [d l']. simpl in H1, H2.
        now subst.
      - exfalso. destruct Hc as [Hc | [e [He Hs]]]; [now apply Hn|].
        specialize (Hall e He). apply (Qlt_not_le _ _ Hs Hall). }
    destruct (SearchFacts.isDuplicateImage_cases (SearchSession.hashesAfter seen) hash)
      as [[_ [-> Hc]] | [_ [-> [Hn Hall]]]].
    + split; [exact Hfar|]. apply Forall_app. split; [exact Hcov|].
      constructor; [|constructor]. split; [exact Hc | now apply Hdup].
    + split.
      * apply SearchFacts.FOP_snoc; [exact Hfar|].
        apply List.Forall_forall. intros e He. split.
        -- intros ->. now apply Hn.
        -- now apply Hall.
      * assert (Hgrow : forall h,
                   (In h (SearchSession.hashesAfter seen) \/
                    exists e, In e (SearchSession.hashesAfter seen) /\
                              (0.9 < ImageSearch.calculateHashSimilarity h e)%Q) ->
                   (In h (SearchSession.hashesAfter seen ++ [hash]) \/
                    exists e, In e (SearchSession.hashesAfter seen ++ [hash]) /\
                              (0.9 < ImageSearch.calculateHashSimilarity h e)%Q)).
        { intros h [H | [e [He Hs]]]; [left | right; exists e; split; [|exact Hs]];
            apply in_or_app; now left. }
        apply Forall_app. split.
        -- eapply List.Forall_impl; [|exact Hcov].
           intros h [Hc _]. split; [now apply Hgrow|]. now apply Hdup, Hgrow.
        -- constructor; [|constructor].
           assert (Hin : In hash (SearchSession.hashesAfter seen ++ [hash]))
             by (apply in_or_app; right; now left).
           split; [now left | apply Hdup; now left].
Qed.

Module DuplicateFacts.
Import JsString Js ImageValidator ValidatorSession Notions StringFacts.

Lemma differing_sym (h1 h2 : string) : differing h1 h2 = differing h2 h1.
Proof.
  revert h2. induction h1 as [|a r IH]; intros [|b r2]; simpl; try reflexivity.
  rewrite (IH r2), (Ascii.eqb_sym a b). reflexivity.
Qed.

Lemma differing_matching (h1 h2 : string) :
  String.length h1 = String.length h2 ->
  (differing h1 h2 + ImageSearch.matching h1 h2 = String.length h1)%nat.
Proof.
  revert h2. induction h1 as [|a r IH]; intros [|b r2]; simpl; intros Hl;
    try discriminate; [reflexivity|].
  injection Hl as Hl. specialize (IH r2 Hl). destruct (Ascii.eqb a b); lia.
Qed.

Lemma differing_zero (h1 h2 : string) :
  String.length h1 = String.length h2 -> (differing h1 h2 = 0%nat <-> h1 = h2).
Proof.
  intros Hl. pose proof (differing_matching h1 h2 Hl) as Hd.
  rewrite <- (HashFacts.matching_full h1 h2 Hl). lia.
Qed.

(** The threshold of [isDuplicate], on the distance. *)
Lemma similar_iff (d : nat) :
  Qleb duplicateThreshold (1 - ratio d 64) = true <-> (d <= 6)%nat.
Proof.
  unfold Qleb, duplicateThreshold, ratio. rewrite Qle_bool_iff.
  unfold Qle, Qminus, Qdiv, Qplus, Qopp, Qmult, Qinv, inject_Z. simpl. lia.
Qed.

Lemma map_get_set_eq {V : Type} (m : list (string * V)) (k : string) (v : V) :
  map_get (map_set m k v) k = Some v.
Proof.
  induction m as [|[k' v'] r IH]; simpl.
  - now rewrite String.eqb_refl.
  - destruct (String.eqb k k') eqn:E; simpl; rewrite E; [reflexivity | exact IH].
Qed.

Lemma map_set_keys_new {V : Type} (m : list (string * V)) (k : string) (v : V) :
  ~ In k (List.map fst m) -> map_set m k v = m ++ [(k, v)].
Proof.
  induction m as [|[k' v'] r IH]; simpl; intros H; [reflexivity|].
  destruct (String.eqb k k') eqn:E.
  - apply String.eqb_eq in E. subst. exfalso. apply H. now left.
  - rewrite IH; [reflexivity|]. intros Hin. apply H. now right.
Qed.

End DuplicateFacts.

(** X16. [calculateHammingDistance] does not depend on the order of its
    arguments; it is 0 for equal hashes and for no others; on hashes of
    one length it counts the positions at which they differ, which
    together with the positions counted by [calculateHashSimilarity] make
    up the length; on hashes of different lengths it is 64, whatever the
    lengths. *)
Theorem hamming_distance_properties (hash1 hash2 : string) :
  ImageValidator.calculateHammingDistance hash1 hash2 =
    ImageValidator.calculateHammingDistance hash2 hash1 /\
  (ImageValidator.calculateHammingDistance hash1 hash2 = 0%nat <-> hash1 = hash2) /\
  (String.length hash1 = String.length hash2 ->
   (ImageValidator.calculateHammingDistance hash1 hash2 +
    ImageSearch.matching hash1 hash2 = String.length hash1)%nat) /\
  (String.length hash1 <> String.length hash2 ->
   ImageValidator.calculateHammingDistance hash1 hash2 = 64%nat).
Proof.
  unfold ImageValidator.calculateHammingDistance.
  rewrite (Nat.eqb_sym (String.length hash2)).
  destruct (String.length hash1 =? String.length hash2)%nat eqn:E; cbn [negb].
  - apply Nat.eqb_eq in E. split; [|split; [|split]].
    + apply DuplicateFacts.differing_sym.
    + now apply DuplicateFacts.differing_zero.
    + intros _. now apply DuplicateFacts.differing_matching.
    + congruence.
  - apply Nat.eqb_neq in E. split; [|split; [|split]].
    + reflexivity.
    + split; [discriminate | intros ->; congruence].
    + congruence.
    + reflexivity.
Qed.

(** X17. Asked about an image whose hash was computed and is not the empty
    string, [isDuplicate] answers [true] exactly when the hash is among
    the processed ones, or is at a distance of 6 or less from a recorded
    hash (a similarity of 58/64 or more); hashes of another length than a
    recorded one are at distance 64 from it and never similar to it. *)
Theorem isDuplicate_decides_by_distance
    (st : ImageValidator.DuplicateState) (hash imagePath : string) :
  hash <> "" ->
  fst (ImageValidator.isDuplicate st (Some hash) imagePath) = true <->
  hash ∈ ImageValidator.processedHashes st \/
  exists existingHash existingPath,
    In (existingHash, existingPath) (ImageValidator.similarImages st) /\
    (ImageValidator.calculateHammingDistance hash existingHash <= 6)%nat.
Proof.
  intros _. unfold ImageValidator.isDuplicate.
  destruct (bool_decide _) eqn:Ep.
  { apply bool_decide_eq_true in Ep. cbn [fst]. tauto. }
  apply bool_decide_eq_false in Ep.
  destruct (existsb _ _) eqn:Ee; cbn [fst].
  - apply existsb_exists in Ee. destruct Ee as [[e p] [He Hs]].
    apply DuplicateFacts.similar_iff in Hs. split; [|reflexivity].
    intros _. right. eauto.
  - split; [discriminate|]. intros [H | [e [p [He Hd]]]]; [contradiction|].
    assert (existsb
              (fun '(existingHash, _) =>
                 Js.Qleb ImageValidator.duplicateThreshold
                   (1 - ImageValidator.ratio
                          (ImageValidator.calculateHammingDistance hash existingHash) 64))
              (ImageValidator.similarImages st) = true).
    { apply existsb_exists. exists (e, p). split; [exact He|].
      now apply DuplicateFacts.similar_iff. }
    congruence.
Qed.

Lemma isDuplicate_decides_by_distance_witness :
  fst (ImageValidator.isDuplicate
         {| ImageValidator.processedHashes := {["a0a0a0a0a0a"]};
            ImageValidator.similarImages := [("a0a0a0a0a0a", "one.jpg")] |}
         (Some "a0a0a0zzzzz") "two.jpg") = true <->
  "a0a0a0zzzzz" ∈ ({["a0a0a0a0a0a"]} : gset string) \/
  exists existingHash existingPath,
    In (existingHash, existingPath) [("a0a0a0a0a0a", "one.jpg")] /\
    (ImageValidator.calculateHammingDistance "a0a0a0zzzzz" existingHash <= 6)%nat.
Proof.
  refine (isDuplicate_decides_by_distance
            {| ImageValidator.processedHashes := {["a0a0a0a0a0a"]};
               ImageValidator.similarImages := [("a0a0a0a0a0a", "one.jpg")] |}
            "a0a0a0zzzzz" "two.jpg" _).
  discriminate.
Defined.

Module SessionFacts.
Import JsString Js ImageValidator ValidatorSession Notions StringFacts DuplicateFacts.

Lemma isDuplicate_cases (st : DuplicateState) (hash : option string) (imagePath : string) :
  isDuplicate st hash imagePath = (true, st) \/
  (isDuplicate st hash imagePath = (false, st) /\ hash = None) \/
  exists h, hash = Some h /\ (h ∉ processedHashes st) /\
    isDuplicate st hash imagePath =
      (false, {| processedHashes := {[h]} ∪ processedHashes st;
                 similarImages := map_set (similarImages st) h imagePath |}).
Proof.
  destruct hash as [h|]; [|right; left; split; reflexivity].
  unfold isDuplicate. destruct (bool_decide _) eqn:Ep; [now left|].
  apply bool_decide_eq_false in Ep.
  destruct (existsb _ _); [now left|]. right. right. exists h. auto.
Qed.

Lemma isDuplicate_coherent (st : DuplicateState) (hash : option string)
    (imagePath : string) :
  Coherent st -> Coherent (snd (isDuplicate st hash imagePath)).
Proof.
  intros [Hnd Heq].
  destruct (isDuplicate_cases st hash imagePath)
    as [-> | [[-> _] | [h [_ [Hn ->]]]]]; [split; assumption | split; assumption|].
  unfold Coherent. cbn [snd processedHashes similarImages].
  assert (Hk : ~ In h (List.map fst (similarImages st))) by (now rewrite <- Heq).
  rewrite (map_set_keys_new _ _ imagePath Hk). rewrite List.map_app. simpl. split.
  - apply NoDup_app. split; [exact Hnd|]. split.
    + intros x Hx Hs. apply list_elem_of_In in Hx. apply list_elem_of_In in Hs.
      destruct Hs as [<- | []]. contradiction.
    + apply NoDup_singleton.
  - intros x. rewrite elem_of_union, elem_of_singleton, Heq, in_app_iff. simpl.
    intuition congruence.
Qed.

Lemma stateAfter_snoc (st : DuplicateState) (checked : list (option string * string))
    (hash : option string) (imagePath : string) :
  stateAfter st (checked ++ [(hash, imagePath)]) =
  snd (isDuplicate (stateAfter st checked) hash imagePath).
Proof. unfold stateAfter. now rewrite fold_left_app. Qed.

Lemma stateAfter_coherent (st : DuplicateState) (checked : list (option string * string)) :
  Coherent st -> Coherent (stateAfter st checked).
Proof.
  intros H. induction checked as [|[hash p] r IH] using rev_ind; [exact H|].
  rewrite stateAfter_snoc. now apply isDuplicate_coherent.
Qed.

Lemma coherent_size (st : DuplicateState) :
  Coherent st -> size (processedHashes st) = List.length (similarImages st).
Proof.
  intros [Hnd Heq].
  assert (E : processedHashes st = list_to_set (List.map fst (similarImages st))).
  { apply set_eq. intros h. rewrite Heq, elem_of_list_to_set.
    symmetry. apply list_elem_of_In. }
  rewrite E, size_list_to_set; [apply List.length_map | exact Hnd].
Qed.

End SessionFacts.

(** X19. In every state a validator reaches from a reset by calls of
    [isDuplicate], the two figures of [getValidationStats] are equal:
    [duplicatesDetected] is the number of recorded images, which is
    [processedImages], not the number of duplicates found.  The images are
    given by the hash computed for each, none of them the empty string. *)
Theorem validation_stats_count_the_same
    (st0 : ImageValidator.DuplicateState) (checked : list (option string * string)) :
  Forall (fun c => fst c <> Some "") checked ->
  let st := ValidatorSession.stateAfter (ImageValidator.resetDuplicateDetection st0)
                                        checked in
  ValidatorSession.duplicatesDetected (ValidatorSession.getValidationStats st) =
  ValidatorSession.processedImages (ValidatorSession.getValidationStats st).
Proof.
  intros _. cbv zeta. cbn [ValidatorSession.getValidationStats
    ValidatorSession.duplicatesDetected ValidatorSession.processedImages].
  symmetry. apply SessionFacts.coherent_size, SessionFacts.stateAfter_coherent.
  split; [constructor | intros h; simpl; set_solver].
Qed.

Lemma validation_stats_count_the_same_witness :
  let st :=
    ValidatorSession.stateAfter
      (ImageValidator.resetDuplicateDetection
         {| ImageValidator.processedHashes := {["stale"]};
            ImageValidator.similarImages := [] |})
      [(Some "a0a0a0a0a0a", "one.jpg"); (Some "a0a0a0a0a0a", "copy.jpg");
       (None, "broken.jpg"); (Some "zzzzzzzzzzz", "two.jpg")] in
  ValidatorSession.duplicatesDetected (ValidatorSession.getValidationStats st) =
  ValidatorSession.processedImages (ValidatorSession.getValidationStats st).
Proof.
  apply (validation_stats_count_the_same
           {| ImageValidator.processedHashes := {["stale"]};
              ImageValidator.similarImages := [] |}
           [(Some "a0a0a0a0a0a", "one.jpg"); (Some "a0a0a0a0a0a", "copy.jpg");
            (None, "broken.jpg"); (Some "zzzzzzzzzzz", "two.jpg")]).
  repeat constructor; discriminate.
Defined.

Module CoverFacts.
Import JsString Js ImageValidator ValidatorSession Notions DuplicateFacts SessionFacts.

Lemma covered_duplicate (st : DuplicateState) (h imagePath : string) :
  Covered st h -> isDuplicate st (Some h) imagePath = (true, st).
Proof.
  intros Hc. unfold isDuplicate.
  destruct (bool_decide _) eqn:Ep; [reflexivity|].
  apply bool_decide_eq_false in Ep.
  destruct Hc as [Hc | [e [p [He Hd]]]]; [contradiction|].
  assert (E : existsb
            (fun '(existingHash, _) =>
               Qleb duplicateThreshold
                 (1 - ratio (calculateHammingDistance h existingHash) 64))
            (similarImages st) = true).
  { apply existsb_exists. exists (e, p). split; [exact He|]. now apply similar_iff. }
  now rewrite E.
Qed.

Lemma map_set_keeps {V : Type} (m : list (string * V)) (k e : string) (v p : V) :
  In (e, p) m -> exists p', In (e, p') (map_set m k v).
Proof.
  induction m as [|[k' v'] r IH]; simpl; [intros []|].
  intros [[= -> ->] | H].
  - destruct (String.eqb k e); eexists; left; reflexivity.
  - destruct (IH H) as [p' Hp']. destruct (String.eqb k k'); [|eauto using in_cons].
    exists p. now right.
Qed.

Lemma covered_mono (st : DuplicateState) (hash : option string) (imagePath : string)
    (h : string) :
  Covered st h -> Covered (snd (isDuplicate st hash imagePath)) h.
Proof.
  intros Hc.
  destruct (isDuplicate_cases st hash imagePath)
    as [-> | [[-> _] | [x [_ [_ ->]]]]]; [exact Hc | exact Hc|].
  cbn [snd]. destruct Hc as [Hc | [e [p [He Hd]]]].
  - left. cbn. set_solver.
  - right. destruct (map_set_keeps (similarImages st) x e imagePath p He) as [p' Hp'].
    exists e, p'. split; [exact Hp' | exact Hd].
Qed.

Lemma covered_after (st : DuplicateState) (h imagePath : string) :
  Covered (snd (isDuplicate st (Some h) imagePath)) h.
Proof.
  destruct (isDuplicate_cases st (Some h) imagePath)
    as [E | [[_ E] | [x [[= <-] [_ E]]]]]; [|discriminate|].
  - rewrite E. cbn [snd]. pose proof E as E'. unfold isDuplicate in E'.
    destruct (bool_decide _) eqn:Ep.
    { left. now apply bool_decide_eq_true in Ep. }
    destruct (existsb _ _) eqn:Ee; [|discriminate].
    apply existsb_exists in Ee. destruct Ee as [[e p] [He Hs]].
    apply similar_iff in Hs. right. eauto.
  - rewrite E. left. cbn. set_solver.
Qed.

Lemma stateAfter_mono (st : DuplicateState) (checked : list (option string * string))
    (h : string) :
  Covered st h -> Covered (stateAfter st checked) h.
Proof.
  intros H. induction checked as [|[hash p] r IH] using rev_ind; [exact H|].
  rewrite stateAfter_snoc. now apply covered_mono.
Qed.

End CoverFacts.

(** X18. Whatever state the validator starts from, once [isDuplicate] has
    been asked about an image whose hash was computed, every later question
    about an image with that hash is answered [true] and changes nothing;
    an image whose hash could not be computed ([null]) is never a duplicate
    and leaves no trace.  The hashes are not the empty string. *)
Theorem checked_hash_is_a_duplicate_afterwards
    (st0 : ImageValidator.DuplicateState) (checked : list (option string * string)) :
  Forall (fun c => fst c <> Some "") checked ->
  let st := ValidatorSession.stateAfter st0 checked in
  Forall (fun c =>
            forall imagePath,
              match fst c with
              | Some hash =>
                  ImageValidator.isDuplicate st (Some hash) imagePath = (true, st)
              | None => ImageValidator.isDuplicate st None imagePath = (false, st)
              end) checked.
Proof.
  intros _. cbv zeta. induction checked as [|[hash p] r IH] using rev_ind; [constructor|].
  apply Forall_app. split.
  - eapply List.Forall_impl; [|exact IH]. intros [[h|] p'] H imagePath; cbn [fst] in *.
    + apply CoverFacts.covered_duplicate.
      rewrite SessionFacts.stateAfter_snoc. apply CoverFacts.covered_mono.
      specialize (H p').
      pose proof (CoverFacts.covered_after (ValidatorSession.stateAfter st0 r) h p') as C.
      now rewrite H in C.
    + reflexivity.
  - constructor; [|constructor]. intros imagePath. cbn [fst].
    destruct hash as [h|]; [|reflexivity].
    apply CoverFacts.covered_duplicate. rewrite SessionFacts.stateAfter_snoc.
    apply CoverFacts.covered_after.
Qed.

Lemma checked_hash_is_a_duplicate_afterwards_witness :
  let st :=
    ValidatorSession.stateAfter
      {| ImageValidator.processedHashes := ∅; ImageValidator.similarImages := [] |}
      [(Some "a0a0a0a0a0a", "one.jpg"); (None, "broken.jpg")] in
  Forall (fun c =>
            forall imagePath,
              match fst c with
              | Some hash =>
                  ImageValidator.isDuplicate st (Some hash) imagePath = (true, st)
              | None => ImageValidator.isDuplicate st None imagePath = (false, st)
              end)
         [(Some "a0a0a0a0a0a", "one.jpg"); (None, "broken.jpg")].
Proof.
  apply (checked_hash_is_a_duplicate_afterwards
           {| ImageValidator.processedHashes := ∅; ImageValidator.similarImages := [] |}
           [(Some "a0a0a0a0a0a", "one.jpg"); (None, "broken.jpg")]).
  repeat constructor; discriminate.
Defined.

Module BrandFacts.
Import JsString Js ImageValidator Notions StringFacts.





End BrandFacts.


Module CacheFacts.
Import Js QualityAnalyzer.

Lemma length_map_set {V : Type} (m : list (string * V)) (k : string) (v : V) :
  (List.length (map_set m k v) <= S (List.length m))%nat.
Proof.
  induction m as [|[k' v'] r IH]; simpl; [lia|].
  destruct (String.eqb k k'); simpl; lia.
Qed.

Lemma cacheAndReturn_bound (cache : list (string * Analysis)) (k : string) (a : Analysis) :
  (List.length cache <= 1000)%nat ->
  (List.length (snd (cacheAndReturn cache k a)) <= 1000)%nat.
Proof.
  intros H. unfold cacheAndReturn. cbn [snd].
  pose proof (length_map_set cache k a) as L.
  destruct (1000 <? _)%nat eqn:E.
  - destruct (map_set cache k a); simpl in *; lia.
  - now apply Nat.ltb_ge in E.
Qed.

Lemma analyzeImage_bound (cache : list (string * Analysis)) (b : Buffer) (u : string) :
  (List.length cache <= 1000)%nat ->
  (List.length (snd (analyzeImage cache b u)) <= 1000)%nat.
Proof.
  intros H. unfold analyzeImage.
  destruct (map_get cache _); [exact H|].
  destruct (_ <? 10000)%Z; [now apply cacheAndReturn_bound|].
  destruct (5000000 <? _)%Z; [now apply cacheAndReturn_bound|].
  destruct (decoded b); [now apply cacheAndReturn_bound | exact H].
Qed.

Lemma map_get_app_miss {V : Type} (m : list (string * V)) (k : string) (v : V) :
  map_get m k = None -> map_get (m ++ [(k, v)]) k = Some v.
Proof.
  induction m as [|[k' v'] r IH]; simpl.
  - now rewrite String.eqb_refl.
  - destruct (String.eqb k k'); [discriminate | exact IH].
Qed.

Lemma map_get_miss_keys {V : Type} (m : list (string * V)) (k : string) :
  map_get m k = None -> ~ In k (List.map fst m).
Proof.
  induction m as [|[k' v'] r IH]; simpl; [tauto|].
  destruct (String.eqb k k') eqn:E; [discriminate|].
  apply String.eqb_neq in E. intros H [He | Hin]; [congruence | now apply IH].
Qed.

(** After [cacheAndReturn] under a key the cache did not hold, the key
    reads as the result. *)
Lemma cacheAndReturn_get (cache : list (string * Analysis)) (k : string) (a : Analysis) :
  map_get cache k = None ->
  map_get (snd (cacheAndReturn cache k a)) k = Some a.
Proof.
  intros H. unfold cacheAndReturn. cbn [snd].
  rewrite (DuplicateFacts.map_set_keys_new cache k a (map_get_miss_keys cache k H)).
  destruct (1000 <? _)%nat eqn:E; [|now apply map_get_app_miss].
  destruct cache as [|[k' v'] r]; [discriminate E|].
  simpl in H. destruct (String.eqb k k'); [discriminate|].
  simpl. now apply map_get_app_miss.
Qed.

End CacheFacts.

(** X21. The cache of the analyser never holds more than 1000 analyses,
    however many buffers were analysed. *)
Theorem analysis_cache_is_bounded (history : list (Js.Buffer * string)) :
  (List.length (QualityAnalyzer.cacheAfter history) <= 1000)%nat.
Proof.
  induction history as [|[b u] h IH] using rev_ind; [simpl; lia|].
  rewrite QualityFacts.cacheAfter_snoc. now apply CacheFacts.analyzeImage_bound.
Qed.

(** X22. Once a buffer has been analysed, the analysis of a buffer with the
    same bytes is the stored one, whatever cache the analyser started
    with: the second call returns what the first returned, the [url] of the
    first call included, and leaves the cache alone.  The one exception is a
    buffer of accepted size whose metadata cannot be read: its failure is
    not stored. *)
Theorem repeated_analysis_is_served_from_cache
    (cache : list (string * QualityAnalyzer.Analysis))
    (imageBuffer again : Js.Buffer) (url url' : string) :
  Js.data again = Js.data imageBuffer ->
  (Js.decoded imageBuffer <> None \/ Js.byteLength imageBuffer < 10000 \/
   5000000 < Js.byteLength imageBuffer)%Z ->
  let '(analysis, cache1) := QualityAnalyzer.analyzeImage cache imageBuffer url in
  QualityAnalyzer.analyzeImage cache1 again url' = (analysis, cache1).
Proof.
  intros Hd Hc.
  assert (Hk : QualityAnalyzer.generateCacheKey again =
               QualityAnalyzer.generateCacheKey imageBuffer).
  { unfold QualityAnalyzer.generateCacheKey. now rewrite Hd. }
  assert (Hhit : forall c a, Js.map_get c (QualityAnalyzer.generateCacheKey imageBuffer)
                             = Some a ->
                             QualityAnalyzer.analyzeImage c again url' = (a, c)).
  { intros c a H. unfold QualityAnalyzer.analyzeImage. now rewrite Hk, H. }
  unfold QualityAnalyzer.analyzeImage at 1.
  destruct (Js.map_get cache _) as [a|] eqn:Hget; [now apply Hhit|].
  destruct (_ <? 10000)%Z eqn:Hlo.
  { destruct (QualityAnalyzer.cacheAndReturn _ _ _) as [a c] eqn:E.
    apply Hhit. pose proof (CacheFacts.cacheAndReturn_get cache _
      (QualityAnalyzer.with_issues (QualityAnalyzer.blank url imageBuffer)
         ["File size too small"]) Hget) as G.
    rewrite E in G. unfold QualityAnalyzer.cacheAndReturn in E. now injection E as <- _. }
  destruct (5000000 <? _)%Z eqn:Hhi.
  { destruct (QualityAnalyzer.cacheAndReturn _ _ _) as [a c] eqn:E.
    apply Hhit. pose proof (CacheFacts.cacheAndReturn_get cache _
      (QualityAnalyzer.with_issues (QualityAnalyzer.blank url imageBuffer)
         ["File size too large"]) Hget) as G.
    rewrite E in G. unfold QualityAnalyzer.cacheAndReturn in E. now injection E as <- _. }
  destruct (Js.decoded imageBuffer) as [m|] eqn:Hm.
  - destruct (QualityAnalyzer.cacheAndReturn _ _ _) as [a c] eqn:E.
    apply Hhit. pose proof (CacheFacts.cacheAndReturn_get cache _
      (QualityAnalyzer.measured url imageBuffer m) Hget) as G.
    rewrite E in G. unfold QualityAnalyzer.cacheAndReturn in E. now injection E as <- _.
  - exfalso. apply Z.ltb_ge in Hlo, Hhi. destruct Hc as [Hc | [Hc | Hc]]; [congruence | lia | lia].
Qed.

(** X23. What a successful [downloadSingleImage] leaves behind.  The file
    is named after the item, the index and the clock, with the extension
    [.jpg] whatever the URL said, and lies in the output directory; it holds
    the bytes of the square crop (of the downloaded body when the crop
    failed), and the size reported is their number; the fingerprint of the
    downloaded body, not of the crop, was new and is now recorded; and the
    [metadata.json] of the directory ends with an entry for the file, with
    the URL and the quality score of the result. *)
Theorem successful_download_postcondition
    (pathname_of : string -> option string) (st st' : DownloadManager.State)
    (url outputDir itemId : string) (imageIndex : nat) (w : DownloadManager.World)
    (ok : DownloadManager.Success) :
  DownloadManager.downloadSingleImage pathname_of st url outputDir itemId imageIndex w
    = (inr ok, st') ->
  exists (body : Js.Buffer) (meta : Js.Metadata) (earlier : list DownloadManager.SidecarEntry)
         (entry : DownloadManager.SidecarEntry),
    let written :=
      default body
        (DownloadManager.crop w
           (Z.max 500 (Z.min 1200 (Z.min (Js.width meta) (Js.height meta))))) in
    let filename :=
      DownloadManager.generateUniqueFilename
        (itemId +:+ "_" +:+ Js.dec (Z.of_nat imageIndex)) ".jpg" (DownloadManager.now w) in
    DownloadManager.get w = inr body /\
    Js.decoded body = Some meta /\
    DownloadManager.filePath ok = DownloadManager.join outputDir filename /\
    DownloadManager.resultUrl ok = url /\
    DownloadManager.files (DownloadManager.disk st') !! DownloadManager.filePath ok =
      Some (Js.data written) /\
    DownloadManager.resultFileSize ok = Js.byteLength written /\
    (DownloadManager.generateImageHash body ∉ DownloadManager.downloadedHashes st) /\
    (DownloadManager.generateImageHash body ∈ DownloadManager.downloadedHashes st') /\
    DownloadManager.sidecars (DownloadManager.disk st')
      !! DownloadManager.join outputDir "metadata.json" = Some (earlier ++ [entry]) /\
    DownloadManager.fileName entry = filename /\
    DownloadManager.entryUrl entry = url /\
    DownloadManager.qualityScore entry = DownloadManager.resultQualityScore ok.
Proof.
  unfold DownloadManager.downloadSingleImage, DownloadManager.beginDownload.
  destruct (5 <=? _)%nat; [discriminate|].
  destruct (JsString.truthy _ && _); [discriminate|].
  unfold DownloadManager.finishDownload.
  destruct (JsString.truthy _ && _); [discriminate|].
  destruct (DownloadManager.get w) as [msg|body]; [discriminate|].
  destruct (Js.decoded body) as [meta|] eqn:Hm; [|discriminate].
  destruct (negb (JsString.array_includes _ _)); [discriminate|].
  destruct (bool_decide _) eqn:Hdup; [discriminate|].
  apply bool_decide_eq_false in Hdup.
  destruct (QualityAnalyzer.analyzeImage _ _ _) as [qa cache].
  destruct (negb (QualityAnalyzer.isValid qa)); [discriminate|].
  destruct (negb (DownloadManager.writeFile w)); [discriminate|].
  destruct (DownloadManager.fstat w) as [fsize|]; [|discriminate].
  destruct (negb (fsize =? _)%Z) eqn:Hsize; [discriminate|].
  destruct (negb (DownloadManager.writeSidecar w)); [discriminate|].
  intros [= <- <-]. apply negb_false_iff, Z.eqb_eq in Hsize.
  exists body, meta. eexists. eexists. cbv zeta. cbn.
  split; [reflexivity|]. split; [exact Hm|]. split; [reflexivity|].
  split; [reflexivity|].
  split; [rewrite lookup_insert_eq; destruct (DownloadManager.crop w _); reflexivity|].
  split; [rewrite Hsize; destruct (DownloadManager.crop w _); reflexivity|].
  split; [exact Hdup|]. split; [set_solver|].
  split; [rewrite lookup_insert_eq; reflexivity|].
  repeat split.
Qed.

(** X28. [resetStats] forgets the fingerprints and the counters and nothing
    else: the first download after it is refused neither for the number of
    images of its item nor as a duplicate, and counts as the first attempt;
    the output tree and the cache of the analyser are what they were. *)
Theorem resetStats_forgets_fingerprints_and_counters
    (pathname_of : string -> option string) (st : DownloadManager.State)
    (url outputDir itemId : string) (imageIndex : nat) (w : DownloadManager.World) :
  let '(res, st') :=
    DownloadManager.downloadSingleImage pathname_of (Session.resetStats st)
      url outputDir itemId imageIndex w in
  res <> inl DownloadManager.MaximumImagesReached /\
  res <> inl DownloadManager.DuplicateImage /\
  DownloadManager.totalAttempted (DownloadManager.stats st') = 1%nat /\
  DownloadManager.disk (Session.resetStats st) = DownloadManager.disk st /\
  DownloadManager.analyzerCache (Session.resetStats st) = DownloadManager.analyzerCache st.
Proof.
  unfold DownloadManager.downloadSingleImage, DownloadManager.beginDownload.
  cbn [Session.resetStats DownloadManager.itemImageCounts].
  rewrite lookup_empty. cbn [default Nat.leb].
  destruct (JsString.truthy _ && _); [cbn; repeat split; discriminate|].
  unfold DownloadManager.finishDownload.
  destruct (JsString.truthy _ && _); [cbn; repeat split; discriminate|].
  destruct (DownloadManager.get w) as [msg|body]; [cbn; repeat split; discriminate|].
  destruct (Js.decoded body) as [meta|]; [|cbn; repeat split; discriminate].
  destruct (negb (JsString.array_includes _ _)); [cbn; repeat split; discriminate|].
  destruct (bool_decide _) eqn:Hdup.
  { apply bool_decide_eq_true in Hdup. cbn in Hdup. set_solver. }
  destruct (QualityAnalyzer.analyzeImage _ _ _) as [qa cache].
  destruct (negb (QualityAnalyzer.isValid qa)); [cbn; repeat split; discriminate|].
  destruct (negb (DownloadManager.writeFile w)); [cbn; repeat split; discriminate|].
  destruct (DownloadManager.fstat w) as [fsize|]; [|cbn; repeat split; discriminate].
  destruct (negb (fsize =? _)%Z); [cbn; repeat split; discriminate|].
  destruct (negb (DownloadManager.writeSidecar w)); cbn; repeat split; discriminate.
Qed.

Lemma successful_download_postcondition_witness :
  exists (ok : DownloadManager.Success) (st' : DownloadManager.State),
    DownloadManager.downloadSingleImage Examples.simple_pathname
      (DownloadManager.initial DownloadManager.emptyDisk)
      (Examples.photo 1) "out/W-100" "W-100" 1 (Examples.fine 21 1700000000001)
      = (inr ok, st') /\
    exists (body : Js.Buffer) (meta : Js.Metadata)
           (earlier : list DownloadManager.SidecarEntry)
           (entry : DownloadManager.SidecarEntry),
      let written :=
        default body
          (DownloadManager.crop (Examples.fine 21 1700000000001)
             (Z.max 500 (Z.min 1200 (Z.min (Js.width meta) (Js.height meta))))) in
      let filename :=
        DownloadManager.generateUniqueFilename
          ("W-100" +:+ "_" +:+ Js.dec (Z.of_nat 1)) ".jpg"
          (DownloadManager.now (Examples.fine 21 1700000000001)) in
      DownloadManager.get (Examples.fine 21 1700000000001) = inr body /\
      Js.decoded body = Some meta /\
      DownloadManager.filePath ok = DownloadManager.join "out/W-100" filename /\
      DownloadManager.resultUrl ok = Examples.photo 1 /\
      DownloadManager.files (DownloadManager.disk st') !! DownloadManager.filePath ok =
        Some (Js.data written) /\
      DownloadManager.resultFileSize ok = Js.byteLength written /\
      (DownloadManager.generateImageHash body ∉
       DownloadManager.downloadedHashes
         (DownloadManager.initial DownloadManager.emptyDisk)) /\
      (DownloadManager.generateImageHash body ∈ DownloadManager.downloadedHashes st') /\
      DownloadManager.sidecars (DownloadManager.disk st')
        !! DownloadManager.join "out/W-100" "metadata.json" = Some (earlier ++ [entry]) /\
      DownloadManager.fileName entry = filename /\
      DownloadManager.entryUrl entry = Examples.photo 1 /\
      DownloadManager.qualityScore entry = DownloadManager.resultQualityScore ok.
Proof.
  destruct (DownloadManager.downloadSingleImage Examples.simple_pathname
      (DownloadManager.initial DownloadManager.emptyDisk)
      (Examples.photo 1) "out/W-100" "W-100" 1 (Examples.fine 21 1700000000001))
    as [[e|ok] st'] eqn:E; [vm_compute in E; discriminate E|].
  exists ok, st'. split; [reflexivity|].
  exact (successful_download_postcondition Examples.simple_pathname _ _ _ _ _ _ _ _ E).
Defined.

(** X1. A sanitized name holds none of the nine reserved characters (the
    angle brackets, the colon, the double quote, the slash, the backslash,
    the bar, the question mark and the star) and is at most 255
    characters long, whatever the name it was made from. *)
Theorem sanitizeFilename_is_safe (filename : string) :
  Forall (fun c => Helpers.is_invalid_char c = false)
         (list_ascii_of_string (Helpers.sanitizeFilename filename)) /\
  (String.length (Helpers.sanitizeFilename filename) <= 255)%nat.
Proof.
  split; [apply SanitizeFacts.sanitizeFilename_chars|].
  apply SanitizeFacts.sanitizeFilename_length.
Qed.

Lemma hash_similarity_properties_witness :
  (0 <= ImageSearch.calculateHashSimilarity "0110" "0100" <= 1)%Q /\
  ImageSearch.calculateHashSimilarity "0110" "0100" =
    ImageSearch.calculateHashSimilarity "0100" "0110" /\
  (String.length "0110" <> String.length "0100" ->
   ImageSearch.calculateHashSimilarity "0110" "0100" = 0%Q) /\
  (ImageSearch.calculateHashSimilarity "0110" "0100" == 1 <-> "0110" = "0100")%Q.
Proof.
  apply (hash_similarity_properties "0110" "0100"). discriminate.
Defined.

Lemma repeated_analysis_is_served_from_cache_witness :
  let '(analysis, cache1) :=
    QualityAnalyzer.analyzeImage [] (Examples.cropped 21)
      "https://cdn.example.com/p/1.jpg" in
  QualityAnalyzer.analyzeImage cache1 (Examples.cropped 21)
    "https://mirror.example.com/p/1.jpg" = (analysis, cache1).
Proof.
  apply (repeated_analysis_is_served_from_cache [] (Examples.cropped 21)
           (Examples.cropped 21) "https://cdn.example.com/p/1.jpg"
           "https://mirror.example.com/p/1.jpg").
  - reflexivity.
  - left. discriminate.
Defined.

Module SearchImagesFacts.
Import JsString Js DownloadManager SearchFlow SearchNotions.

Lemma unique_fold (urls : list string) :
  forall set,
    List.NoDup set ->
    List.NoDup (List.fold_left
                  (fun set url => if array_includes set url then set else set ++ [url])
                  urls set) /\
    forall x, In x (List.fold_left
                      (fun set url => if array_includes set url then set else set ++ [url])
                      urls set) <-> In x set \/ In x urls.
Proof.
  induction urls as [|u r IH]; intros set Hnd; simpl.
  - split; [exact Hnd | tauto].
  - destruct (array_includes set u) eqn:E.
    + apply UrlFilterFacts.array_includes_In in E.
      destruct (IH set Hnd) as [H1 H2]. split; [exact H1|].
      intros x. rewrite H2. split; [tauto|]. intros [H | [<- | H]]; tauto.
    + assert (Hn : ~ In u set).
      { intros H. apply UrlFilterFacts.array_includes_In in H. congruence. }
      assert (Hnd' : List.NoDup (set ++ [u])).
      { apply List.NoDup_app; [exact Hnd | repeat constructor; intros [] |].
        intros a Ha [<- | []]. contradiction. }
      destruct (IH _ Hnd') as [H1 H2]. split; [exact H1|].
      intros x. rewrite H2, in_app_iff. simpl. tauto.
Qed.

Lemma unique_spec (urls : list string) :
  List.NoDup (unique urls) /\ forall x, In x (unique urls) <-> In x urls.
Proof.
  destruct (unique_fold urls [] (List.NoDup_nil _)) as [H1 H2].
  split; [exact H1|]. intros x. rewrite (H2 x). simpl. tauto.
Qed.

Lemma In_firstn {A : Type} (n : nat) (l : list A) (x : A) :
  In x (List.firstn n l) -> In x l.
Proof.
  revert n. induction l as [|y r IH]; intros [|n]; simpl; try tauto.
  intros [H | H]; [now left | right; eauto].
Qed.

Lemma NoDup_firstn {A : Type} (n : nat) (l : list A) :
  List.NoDup l -> List.NoDup (List.firstn n l).
Proof.
  revert n. induction l as [|x r IH]; intros [|n] H; simpl; try constructor.
  - inversion H as [|? ? Hx Hr]; subst. intros Hin. apply Hx.
    now apply In_firstn in Hin.
  - inversion H; subst. now apply IH.
Qed.

Section WithWorld.
Variable pathname_of : string -> option string.

Lemma finish_spec (allImageUrls : list string) :
  (List.length (finish pathname_of allImageUrls) <= 6)%nat /\
  List.NoDup (finish pathname_of allImageUrls) /\
  forall u, In u (finish pathname_of allImageUrls) ->
            In u allImageUrls /\ ImageSearch.keepUrl pathname_of u = true.
Proof.
  unfold finish. destruct (unique_spec allImageUrls) as [Hnd Hin].
  split; [rewrite List.length_firstn; unfold Settings.maxImagesPerItem; lia|].
  split.
  - apply NoDup_firstn. unfold ImageSearch.filterImageUrls. now apply List.NoDup_filter.
  - intros u Hu. apply In_firstn in Hu. unfold ImageSearch.filterImageUrls in Hu.
    apply filter_In in Hu. destruct Hu as [Hu Hk]. split; [now apply Hin | exact Hk].
Qed.

End WithWorld.

Section WithEngines.

Lemma searchAttempts_source (answer : nat -> option (list string)) (budget : nat)
    (remaining : nat) :
  forall attempt slept u,
    In u (fst (searchAttempts answer budget attempt remaining slept)) ->
    exists k urls, answer k = Some urls /\ In u urls.
Proof.
  induction remaining as [|r IH]; intros attempt slept u; simpl; [intros []|].
  destruct (answer attempt) as [urls|] eqn:E.
  - destruct (0 <? List.length urls)%nat; [intros H; eauto|].
    destruct (attempt =? budget)%nat; [intros [] | apply IH].
  - destruct (attempt <? budget)%nat; apply IH.
Qed.

Variable engineAnswer : string -> string -> nat -> option (list string).

Lemma engine_step (queries : list string) (q e : string) (a : list string) (u : string) :
  In e engines -> In q queries ->
  In u (if (0 <? List.length (fst (searchByEngineWithRetry (engineAnswer e q))))%nat
        then a ++ fst (searchByEngineWithRetry (engineAnswer e q))
        else a) ->
  In u a \/ FromEngine engineAnswer queries u.
Proof.
  intros He Hq. destruct (0 <? _)%nat; intros Hi; [|now left].
  apply in_app_or in Hi. destruct Hi as [Hi | Hi]; [now left|]. right.
  apply searchAttempts_source in Hi. destruct Hi as [k [urls [Ha Hu]]].
  exists e, q, k, urls. auto.
Qed.

Lemma FromEngine_cons (q : string) (queries : list string) (u : string) :
  FromEngine engineAnswer queries u -> FromEngine engineAnswer (q :: queries) u.
Proof.
  intros [e [q' [k [urls [He [Hq [Ha Hu]]]]]]].
  exists e, q', k, urls. repeat split; [exact He | now right | exact Ha | exact Hu].
Qed.

Lemma searchEngines_source (queries : list string) :
  forall all u,
    In u (searchEngines engineAnswer all queries) ->
    In u all \/ FromEngine engineAnswer queries u.
Proof.
  unfold searchEngines.
  induction queries as [|q r IH]; intros all u; simpl; [tauto|].
  intros H. apply IH in H. destruct H as [H | H]; [|right; now apply FromEngine_cons].
  unfold engines in H. simpl in H.
  apply (engine_step (q :: r)) in H; [|unfold engines; simpl; tauto | now left].
  destruct H as [H | H]; [|now right].
  apply (engine_step (q :: r)) in H; [|unfold engines; simpl; tauto | now left].
  destruct H as [H | H]; [|now right].
  apply (engine_step (q :: r)) in H; [|unfold engines; simpl; tauto | now left].
  exact H.
Qed.

End WithEngines.
End SearchImagesFacts.

(** X9. Whatever the brand site and the engines answer, [searchImages]
    returns at most six URLs, no URL twice, each of which passes the URL
    filter and was returned by the brand site or, for a query made from the
    product, by one of the engines amazon, google and bing.  For a product
    without name the list of queries is empty and no engine is asked. *)
Theorem searchImages_result_properties
    (pathname_of : string -> option string) (brandSearch : option (list string))
    (engineAnswer : string -> string -> nat -> option (list string))
    (product : DownloadManager.Product) :
  let urls := SearchFlow.searchImages pathname_of brandSearch engineAnswer product in
  (List.length urls <= Settings.maxImagesPerItem)%nat /\
  List.NoDup urls /\
  (forall u, In u urls ->
     ImageSearch.keepUrl pathname_of u = true /\
     (In u (default [] brandSearch) \/
      SearchNotions.FromEngine engineAnswer (SearchFlow.generateSearchQueries product) u)) /\
  (DownloadManager.name product = "" ->
   SearchFlow.generateSearchQueries product = [] /\
   forall u, In u urls -> In u (default [] brandSearch)).
Proof.
  cbv zeta.
  assert (Hsrc : forall u,
            In u (SearchFlow.searchImages pathname_of brandSearch engineAnswer product) ->
            ImageSearch.keepUrl pathname_of u = true /\
            (In u (default [] brandSearch) \/
             SearchNotions.FromEngine engineAnswer
               (SearchFlow.generateSearchQueries product) u)).
  { unfold SearchFlow.searchImages. intros u.
    destruct (ImageValidator.branded _ && _).
    - intros H. apply SearchImagesFacts.finish_spec in H. destruct H as [H Hk].
      split; [exact Hk|]. left. destruct (ImageValidator.branded _); [exact H | destruct H].
    - intros H. apply SearchImagesFacts.finish_spec in H. destruct H as [H Hk].
      split; [exact Hk|]. apply SearchImagesFacts.searchEngines_source in H.
      destruct H as [H | H]; [|now right]. left.
      destruct (ImageValidator.branded _); [exact H | destruct H]. }
  assert (Hq : DownloadManager.name product = "" ->
               SearchFlow.generateSearchQueries product = []).
  { intros Hn. unfold SearchFlow.generateSearchQueries. rewrite Hn.
    destruct (DownloadManager.brand product); reflexivity. }
  split; [|split; [|split; [exact Hsrc|]]].
  - unfold SearchFlow.searchImages. destruct (ImageValidator.branded _ && _);
      apply SearchImagesFacts.finish_spec.
  - unfold SearchFlow.searchImages. destruct (ImageValidator.branded _ && _);
      apply SearchImagesFacts.finish_spec.
  - intros Hn. split; [now apply Hq|]. intros u Hu.
    destruct (Hsrc u Hu) as [_ [H | [e [q [k [l [_ [Hin _]]]]]]]]; [exact H|].
    rewrite (Hq Hn) in Hin. destruct Hin.
Qed.

Module EngineRetryFacts.
Import JsString Js SearchFlow SearchNotions.

Lemma power_two_ge_one (n : nat) : (1 <= Qpower 2 (Z.of_nat n))%Q.
Proof.
  induction n as [|n IH]; [discriminate|].
  replace (Z.of_nat (S n)) with (Z.of_nat n + 1)%Z by lia.
  rewrite Qpower_plus by discriminate. change (Qpower 2 1) with 2%Q. lra.
Qed.

Lemma retryDelay_range (attempt : nat) :
  (2000 <= retryDelay attempt <= 30000)%Q.
Proof.
  unfold retryDelay. split; [|apply Q.le_min_l].
  apply Q.min_glb; [discriminate|].
  pose proof (power_two_ge_one (attempt - 1)). lra.
Qed.

Lemma searchAttempts_spec (answer : nat -> option (list string)) (budget : nat)
    (remaining : nat) :
  forall attempt slept,
    (attempt + remaining = budget + 1)%nat ->
    exists added,
      snd (searchAttempts answer budget attempt remaining slept) = slept ++ added /\
      (List.length added + 1 <= Nat.max remaining 1)%nat /\
      Forall (fun d => (2000 <= d <= 30000)%Q) added /\
      ((fst (searchAttempts answer budget attempt remaining slept) = [] /\
        forall k, (attempt <= k <= budget)%nat -> Fruitless answer k) \/
       exists k, (attempt <= k <= budget)%nat /\
                 answer k = Some (fst (searchAttempts answer budget attempt remaining slept)) /\
                 fst (searchAttempts answer budget attempt remaining slept) <> [] /\
                 forall j, (attempt <= j < k)%nat -> Fruitless answer j).
Proof.
  induction remaining as [|r IH]; intros attempt slept Hinv.
  - exists []. simpl. rewrite app_nil_r. repeat split; [simpl; lia | constructor|].
    left. split; [reflexivity|]. intros k Hk. lia.
  - simpl. destruct (answer attempt) as [urls|] eqn:E.
    + destruct (0 <? List.length urls)%nat eqn:El.
      * exists []. cbn [fst snd]. rewrite app_nil_r. repeat split; [simpl; lia | constructor|].
        right. exists attempt. split; [lia|]. split; [exact E|].
        split; [|intros j Hj; lia].
        apply Nat.ltb_lt in El. destruct urls; [simpl in El; lia | discriminate].
      * assert (Hu : urls = []).
        { apply Nat.ltb_ge in El. destruct urls; [reflexivity | simpl in El; lia]. }
        subst urls.
        destruct (attempt =? budget)%nat eqn:Eb.
        -- apply Nat.eqb_eq in Eb. exists []. cbn [fst snd]. rewrite app_nil_r.
           repeat split; [simpl; lia | constructor|]. left. split; [reflexivity|].
           intros k Hk. assert (k = attempt) as -> by lia. now right.
        -- apply Nat.eqb_neq in Eb.
           destruct (IH (S attempt) slept) as [added [H1 [H2 [H3 H4]]]]; [lia|].
           exists added. split; [exact H1|]. split; [lia|]. split; [exact H3|].
           destruct H4 as [[Hn Hall] | [k [Hk [Ha [Hne Hall]]]]].
           ++ left. split; [exact Hn|]. intros k Hk.
              destruct (Nat.eq_dec k attempt) as [->|]; [now right | apply Hall; lia].
           ++ right. exists k. repeat split; try lia; try assumption.
              intros j Hj. destruct (Nat.eq_dec j attempt) as [->|];
                [now right | apply Hall; lia].
    + destruct (attempt <? budget)%nat eqn:Eb.
      * apply Nat.ltb_lt in Eb.
        destruct (IH (S attempt) (slept ++ [retryDelay attempt]))
          as [added [H1 [H2 [H3 H4]]]]; [lia|].
        exists (retryDelay attempt :: added). rewrite H1, <- app_assoc.
        split; [reflexivity|]. split; [simpl; lia|].
        split; [constructor; [apply retryDelay_range | exact H3]|].
        destruct H4 as [[Hn Hall] | [k [Hk [Ha [Hne Hall]]]]].
        -- left. split; [exact Hn|]. intros k Hk.
           destruct (Nat.eq_dec k attempt) as [->|]; [now left | apply Hall; lia].
        -- right. exists k. split; [lia|]. split; [exact Ha|]. split; [exact Hne|].
           intros j Hj. destruct (Nat.eq_dec j attempt) as [->|];
             [now left | apply Hall; lia].
      * apply Nat.ltb_ge in Eb.
        destruct (IH (S attempt) slept) as [added [H1 [H2 [H3 H4]]]]; [lia|].
        exists added. split; [exact H1|]. split; [lia|]. split; [exact H3|].
        destruct H4 as [[Hn Hall] | [k [Hk [Ha [Hne Hall]]]]].
        -- left. split; [exact Hn|]. intros k Hk.
           destruct (Nat.eq_dec k attempt) as [->|]; [now left | apply Hall; lia].
        -- exfalso. lia.
Qed.

End EngineRetryFacts.

(** X10. [searchByEngineWithRetry], for any budget of attempts, never
    throws: it returns the first list that is not empty among the answers
    of the attempts 1 to the budget, the attempts before it having thrown
    or returned nothing, and the empty list when every attempt did so.  It
    pauses fewer times than the budget, and every pause lasts between 2000
    and 30000 ms: the backoff of the search step is capped. *)
Theorem engine_search_retry_properties
    (budget : nat) (answer : nat -> option (list string)) :
  let urls := fst (SearchFlow.searchWithBudget budget answer) in
  let slept := snd (SearchFlow.searchWithBudget budget answer) in
  (List.length slept < Nat.max budget 1)%nat /\
  Forall (fun d => (2000 <= d <= 30000)%Q) slept /\
  ((urls = [] /\
    forall k, (1 <= k <= budget)%nat -> SearchNotions.Fruitless answer k) \/
   exists k, (1 <= k <= budget)%nat /\ answer k = Some urls /\ urls <> [] /\
             forall j, (1 <= j < k)%nat -> SearchNotions.Fruitless answer j).
Proof.
  cbv zeta. unfold SearchFlow.searchWithBudget.
  destruct (EngineRetryFacts.searchAttempts_spec answer budget budget 1 [])
    as [added [H1 [H2 [H3 H4]]]]; [lia|].
  rewrite H1. simpl. split; [lia|]. split; [exact H3 | exact H4].
Qed.

Module SummaryFacts.
Import JsString Js DownloadManager FileManager.

Lemma map_get_set {V : Type} (m : list (string * V)) (k k' : string) (v : V) :
  map_get (map_set m k' v) k = if String.eqb k k' then Some v else map_get m k.
Proof.
  induction m as [|[k0 v0] r IH]; simpl.
  - reflexivity.
  - destruct (String.eqb k' k0) eqn:E0; simpl.
    + apply String.eqb_eq in E0. subst k0.
      destruct (String.eqb k k'); reflexivity.
    + rewrite IH. destruct (String.eqb k k0) eqn:E1; [|reflexivity].
      apply String.eqb_eq in E1. subst k0.
      destruct (String.eqb k k') eqn:E2; [|reflexivity].
      apply String.eqb_eq in E2. subst k'. rewrite String.eqb_refl in E0. discriminate.
Qed.

Lemma resultMap_snoc (rs : list DownloadResult) (r : DownloadResult) :
  resultMap (rs ++ [r]) = map_set (resultMap rs) (itemId r) r.
Proof. unfold resultMap. now rewrite fold_left_app. Qed.

(** The map answers with the last result of an item. *)
Lemma resultMap_last (rs : list DownloadResult) (k : string) :
  map_get (resultMap rs) k =
  List.find (fun r => String.eqb (itemId r) k) (List.rev rs).
Proof.
  induction rs as [|r rs IH] using rev_ind; [reflexivity|].
  rewrite resultMap_snoc, map_get_set, List.rev_app_distr. simpl.
  rewrite (String.eqb_sym k). destruct (String.eqb (itemId r) k); [reflexivity | exact IH].
Qed.

Lemma find_app {A : Type} (f : A -> bool) (a b : list A) :
  List.find f (a ++ b) =
  match List.find f a with Some x => Some x | None => List.find f b end.
Proof.
  induction a as [|x r IH]; simpl; [reflexivity|]. destruct (f x); [reflexivity | exact IH].
Qed.

(** With one result per item at most, the last one is the first one. *)
Lemma find_rev_unique (rs : list DownloadResult) (k : string) :
  List.NoDup (List.map itemId rs) ->
  List.find (fun r => String.eqb (itemId r) k) (List.rev rs) =
  List.find (fun r => String.eqb (itemId r) k) rs.
Proof.
  induction rs as [|r rs IH]; intros Hnd; [reflexivity|].
  inversion Hnd as [|? ? Hn Hr]; subst. simpl. rewrite find_app, (IH Hr). simpl.
  destruct (String.eqb (itemId r) k) eqn:E.
  - apply String.eqb_eq in E.
    destruct (List.find _ rs) as [x|] eqn:F; [|reflexivity].
    exfalso. apply List.find_some in F. destruct F as [Hx Hk].
    apply String.eqb_eq in Hk. apply Hn. rewrite E, <- Hk. now apply List.in_map.
  - destruct (List.find _ rs); reflexivity.
Qed.

End SummaryFacts.

(** X30. [createProductSummary] gives one row per product, in the order of
    the products; the figures of a row are those of the last download
    result that carries the item identifier of the product (0 when there is
    none), whereas step 4 of [run] reads the first one.  When no two
    results carry the same identifier the two agree: the products of step
    4 are those whose row counts no downloaded image. *)
Theorem summary_rows_and_the_products_without_image
    (products : list FileManager.Item)
    (downloadResults : list DownloadManager.DownloadResult) :
  Forall2
    (fun p row =>
       FileManager.summaryItemId row = DownloadManager.itemid (FileManager.product p) /\
       FileManager.imagesDownloaded row =
         match List.find
                 (fun r => String.eqb (DownloadManager.itemId r)
                                      (DownloadManager.itemid (FileManager.product p)))
                 (List.rev downloadResults)
         with
         | Some r => DownloadManager.downloaded r
         | None => 0%nat
         end /\
       (List.NoDup (List.map DownloadManager.itemId downloadResults) ->
        (Main.isNifProduct downloadResults (FileManager.product p) = true <->
         FileManager.imagesDownloaded row = 0%nat)))
    products (FileManager.createProductSummary products downloadResults).
Proof.
  unfold FileManager.createProductSummary. cbv zeta.
  induction products as [|p ps IH]; simpl; constructor; [|exact IH].
  cbn [FileManager.summaryItemId FileManager.imagesDownloaded].
  split; [reflexivity|]. rewrite SummaryFacts.resultMap_last. split; [reflexivity|].
  intros Hnd. rewrite (SummaryFacts.find_rev_unique _ _ Hnd). unfold Main.isNifProduct.
  destruct (List.find _ downloadResults) as [r|]; [apply Nat.eqb_eq | tauto].
Qed.

Module AgreementFacts.
Import JsString Js DownloadManager.

Lemma allowed_dotted (e : string) :
  array_includes Settings.allowedFormats e =
  array_includes [".jpg"; ".jpeg"; ".png"] (String Path.dot e).
Proof. reflexivity. Qed.

End AgreementFacts.

(** X8. On a URL that parses, the URL filter and the download manager
    agree about the extension: [isAllowedExtension] accepts what
    [getFileExtension] reads from the URL exactly when
    [downloadSingleImage], called for an item that has not reached its
    number of images, gets past its own extension check and goes on to
    the requests.  A URL without extension passes both. *)
Theorem filter_and_download_agree_on_extensions
    (pathname_of : string -> option string) (st : DownloadManager.State)
    (url pathname itemId : string) :
  pathname_of url = Some pathname ->
  (default 0 (DownloadManager.itemImageCounts st !! itemId) < 5)%nat ->
  Helpers.isAllowedExtension (Helpers.getFileExtension pathname_of url) = true <->
  exists pending,
    fst (DownloadManager.beginDownload pathname_of st url itemId) = inr pending.
Proof.
  intros Hp Hc. unfold Helpers.getFileExtension, DownloadManager.beginDownload.
  rewrite Hp. apply Nat.leb_gt in Hc. rewrite Hc.
  destruct (ExtensionFacts.lower_extname_shape pathname) as [E | [e E]]; rewrite E.
  - cbn. split; [eauto | reflexivity].
  - cbn [JsString.truthy String.eqb negb andb].
    unfold Helpers.isAllowedExtension.
    replace (JsString.toLowerCase (String Path.dot (JsString.toLowerCase e)))
      with (String Path.dot (JsString.toLowerCase e))
      by (cbn; now rewrite UrlFilterFacts.toLowerCase_idem).
    cbn [JsString.remove_first]. rewrite Ascii.eqb_refl.
    rewrite AgreementFacts.allowed_dotted.
    destruct (JsString.array_includes _ _); cbn.
    + split; [eauto | reflexivity].
    + split; [discriminate | intros [p H]; discriminate].
Qed.

Lemma filter_and_download_agree_on_extensions_witness :
  Helpers.isAllowedExtension
    (Helpers.getFileExtension Examples.simple_pathname
       "https://img.example.com/p/12345.webp") = true <->
  exists pending,
    fst (DownloadManager.beginDownload Examples.simple_pathname
           (DownloadManager.initial DownloadManager.emptyDisk)
           "https://img.example.com/p/12345.webp" "W-100") = inr pending.
Proof.
  refine (filter_and_download_agree_on_extensions Examples.simple_pathname
            (DownloadManager.initial DownloadManager.emptyDisk)
            "https://img.example.com/p/12345.webp" "/p/12345.webp" "W-100" _ _).
  - reflexivity.
  - vm_compute. lia.
Defined.

(** * The download manager under the event loop *)

Module AsyncFacts.
Import JsString Js DownloadManager Async AsyncNotions.

Lemma Grows_refl (st : State) : Grows st st.
Proof.
  repeat split; auto. intros p l H. exists []. now rewrite app_nil_r.
Qed.

Lemma Grows_trans (a b c : State) : Grows a b -> Grows b c -> Grows a c.
Proof.
  intros (F1 & A1 & O1 & U1) (F2 & A2 & O2 & U2). repeat split; auto.
  - intros p l H. destruct (A1 p l H) as [l1 H1]. destruct (A2 p _ H1) as [l2 H2].
    exists (l1 ++ l2). now rewrite app_assoc.
  - intros p H. destruct (U1 p H) as [H1 | [l1 H1]]; [auto|].
    right. destruct (A2 p _ H1) as [l2 H2]. eauto.
Qed.

Lemma Grows_same (st st' : State) :
  files st' = files st -> sidecars st' = sidecars st -> Grows st st'.
Proof.
  intros Hf Hs. unfold Grows. rewrite Hf, Hs. apply Grows_refl.
Qed.

Lemma Grows_file (st st' : State) (p : string) (bytes : list Z) :
  files st' = <[p := bytes]> (files st) -> sidecars st' = sidecars st -> Grows st st'.
Proof.
  intros Hf Hs. unfold Grows. rewrite Hf, Hs. split; [|apply Grows_refl].
  intros q H. destruct (decide (p = q)) as [->|Hn].
  - rewrite lookup_insert_eq. eauto.
  - now rewrite lookup_insert_ne.
Qed.

Lemma Grows_sidecar (st st' : State) (p : string) (metadata : list Element)
    (e : Element) :
  files st' = files st ->
  readSidecar (sidecars st !! p) = inr metadata ->
  sidecars st' = <[p := JsonArray (metadata ++ [e])]> (sidecars st) ->
  Grows st st'.
Proof.
  intros Hf Hr Hs. unfold Grows. rewrite Hf, Hs. split; [auto|].
  repeat split.
  - intros q l H. destruct (decide (p = q)) as [->|Hn].
    + rewrite lookup_insert_eq. rewrite H in Hr. cbn in Hr. injection Hr as <-. eauto.
    + rewrite lookup_insert_ne by exact Hn. exists []. now rewrite app_nil_r.
  - intros q x H. destruct (decide (p = q)) as [->|Hn].
    + rewrite H in Hr. discriminate.
    + now rewrite lookup_insert_ne.
  - intros q H. destruct (decide (p = q)) as [->|Hn].
    + right. rewrite lookup_insert_eq. eauto.
    + left. now rewrite lookup_insert_ne.
Qed.

Section WithUrlParser.
Variable pathname_of : string -> option string.

Lemma start_grows (st : State) (url itemId : string) :
  Grows st (snd (start pathname_of st url itemId)).
Proof.
  unfold start, throw. repeat case_match; cbn; apply Grows_same; reflexivity.
Qed.

Lemma resume_grows (st : State) (url outputDir itemId : string) (imageIndex : nat)
    (w : World) (stage : Stage) :
  Grows st (snd (resume st url outputDir itemId imageIndex w stage)).
Proof.
  unfold resume, throw. repeat case_match; cbn;
    first [ apply Grows_same; reflexivity
          | eapply Grows_file; reflexivity
          | eapply Grows_sidecar; [reflexivity | eassumption | reflexivity] ].
Qed.

End WithUrlParser.
End AsyncFacts.

Module RunFacts.
Import JsString Js DownloadManager Async AsyncNotions AsyncFacts.

Section WithUrlParser.
Variable pathname_of : string -> option string.
Variables outputDir itemId : string.

Lemma advance_hit (tasks : list Task) (st : State) (k : nat) (t : Task) :
  tasks !! k = Some t ->
  advance outputDir itemId (tasks, st) k =
    (<[k := {| candidate := candidate t; imageIndex := imageIndex t;
               stage := fst (resume st (fst (candidate t)) outputDir itemId
                                    (imageIndex t) (snd (candidate t) 1%nat) (stage t)) |}]>
       tasks,
     snd (resume st (fst (candidate t)) outputDir itemId (imageIndex t)
                 (snd (candidate t) 1%nat) (stage t))).
Proof.
  intros H. unfold advance. rewrite H.
  now destruct (resume _ _ _ _ _ _ _) as [s st1].
Qed.

Lemma advance_miss (tasks : list Task) (st : State) (k : nat) :
  tasks !! k = None -> advance outputDir itemId (tasks, st) k = (tasks, st).
Proof. intros H. unfold advance. now rewrite H. Qed.

Lemma advance_grows (acc : list Task * State) (k : nat) :
  Grows (snd acc) (snd (advance outputDir itemId acc k)).
Proof.
  destruct acc as [tasks st]. destruct (tasks !! k) as [t|] eqn:H.
  - rewrite (advance_hit _ _ _ _ H). apply resume_grows.
  - rewrite (advance_miss _ _ _ H). apply Grows_refl.
Qed.

Lemma advance_candidates (acc : list Task * State) (k : nat) :
  List.map candidate (fst (advance outputDir itemId acc k)) = List.map candidate (fst acc) /\
  List.map imageIndex (fst (advance outputDir itemId acc k)) = List.map imageIndex (fst acc).
Proof.
  destruct acc as [tasks st]. destruct (tasks !! k) as [t|] eqn:H.
  - rewrite (advance_hit _ _ _ _ H). cbn [fst].
    change (@List.map Task Candidate candidate) with (@fmap list _ Task Candidate candidate).
    change (@List.map Task nat imageIndex) with (@fmap list _ Task nat imageIndex).
    rewrite !list_fmap_insert. cbn.
    split; apply list_insert_id; rewrite list_lookup_fmap, H; reflexivity.
  - rewrite (advance_miss _ _ _ H). split; reflexivity.
Qed.

Lemma run_grows (schedule : list nat) :
  forall tasks st, Grows st (snd (run outputDir itemId schedule tasks st)).
Proof.
  unfold run. induction schedule as [|k r IH]; intros tasks st; [apply Grows_refl|].
  cbn [List.fold_left]. pose proof (advance_grows (tasks, st) k) as H.
  destruct (advance outputDir itemId (tasks, st) k) as [tasks1 st1].
  eapply Grows_trans; [exact H | apply IH].
Qed.

Lemma run_candidates (schedule : list nat) :
  forall tasks st,
    List.map candidate (fst (run outputDir itemId schedule tasks st)) = List.map candidate tasks /\
    List.map imageIndex (fst (run outputDir itemId schedule tasks st)) = List.map imageIndex tasks.
Proof.
  unfold run. induction schedule as [|k r IH]; intros tasks st; [split; reflexivity|].
  cbn [List.fold_left]. pose proof (advance_candidates (tasks, st) k) as [H1 H2].
  destruct (advance outputDir itemId (tasks, st) k) as [tasks1 st1].
  destruct (IH tasks1 st1) as [I1 I2]. cbn [fst] in *. split; congruence.
Qed.

Lemma run_app (a b : list nat) (tasks : list Task) (st : State) :
  run outputDir itemId (a ++ b) tasks st =
  run outputDir itemId b (fst (run outputDir itemId a tasks st))
      (snd (run outputDir itemId a tasks st)).
Proof.
  unfold run. rewrite List.fold_left_app.
  now destruct (List.fold_left _ a _).
Qed.

Lemma startAll_grows (chunk : list Candidate) :
  forall st i, Grows st (snd (startAll pathname_of st chunk itemId i)).
Proof.
  induction chunk as [|c r IH]; intros st i; [apply Grows_refl|].
  cbn [startAll]. pose proof (start_grows pathname_of st (fst c) itemId) as H.
  destruct (start pathname_of st (fst c) itemId) as [s st1].
  specialize (IH st1 (S i)). destruct (startAll pathname_of st1 r itemId (S i)) as [ts st2].
  cbn [snd] in *. eapply Grows_trans; eassumption.
Qed.

Lemma startAll_candidates (chunk : list Candidate) :
  forall st i, List.map candidate (fst (startAll pathname_of st chunk itemId i)) = chunk.
Proof.
  induction chunk as [|c r IH]; intros st i; [reflexivity|].
  cbn [startAll]. destruct (start pathname_of st (fst c) itemId) as [s st1].
  specialize (IH st1 (S i)). destruct (startAll pathname_of st1 r itemId (S i)) as [ts st2].
  cbn in *. now rewrite IH.
Qed.

(** *** Invariants of the tasks *)

Section Invariant.
Variable P : State -> Task -> Prop.
Hypothesis P_grows : forall st st' t, Grows st st' -> P st t -> P st' t.
Hypothesis P_start : forall st c i,
  P (snd (start pathname_of st (fst c) itemId))
    {| candidate := c; imageIndex := i; stage := fst (start pathname_of st (fst c) itemId) |}.
Hypothesis P_resume : forall st t,
  P st t ->
  P (snd (resume st (fst (candidate t)) outputDir itemId (imageIndex t)
                 (snd (candidate t) 1%nat) (stage t)))
    {| candidate := candidate t; imageIndex := imageIndex t;
       stage := fst (resume st (fst (candidate t)) outputDir itemId (imageIndex t)
                            (snd (candidate t) 1%nat) (stage t)) |}.

Lemma startAll_inv (chunk : list Candidate) :
  forall st i,
    Forall (P (snd (startAll pathname_of st chunk itemId i)))
           (fst (startAll pathname_of st chunk itemId i)).
Proof.
  induction chunk as [|c r IH]; intros st i; [constructor|].
  cbn [startAll]. pose proof (P_start st c i) as H.
  destruct (start pathname_of st (fst c) itemId) as [s st1].
  specialize (IH st1 (S i)). pose proof (startAll_grows r st1 (S i)) as G.
  destruct (startAll pathname_of st1 r itemId (S i)) as [ts st2].
  cbn [fst snd] in *. constructor; [|exact IH]. eapply P_grows; eassumption.
Qed.

Lemma advance_inv (tasks : list Task) (st : State) (k : nat) :
  Forall (P st) tasks ->
  Forall (P (snd (advance outputDir itemId (tasks, st) k)))
         (fst (advance outputDir itemId (tasks, st) k)).
Proof.
  intros H. destruct (tasks !! k) as [t|] eqn:E.
  - rewrite (advance_hit _ _ _ _ E). cbn [fst snd].
    apply Forall_insert.
    + eapply List.Forall_impl; [|exact H]. intros u. apply P_grows, resume_grows.
    + apply P_resume. rewrite Forall_lookup in H. exact (H _ _ E).
  - now rewrite (advance_miss _ _ _ E).
Qed.

Lemma run_inv (schedule : list nat) :
  forall tasks st,
    Forall (P st) tasks ->
    Forall (P (snd (run outputDir itemId schedule tasks st)))
           (fst (run outputDir itemId schedule tasks st)).
Proof.
  unfold run. induction schedule as [|k r IH]; intros tasks st H; [exact H|].
  cbn [List.fold_left]. pose proof (advance_inv tasks st k H) as H1.
  destruct (advance outputDir itemId (tasks, st) k) as [tasks1 st1]. now apply IH.
Qed.

End Invariant.

End WithUrlParser.
End RunFacts.

Module SettleFacts.
Import JsString Js DownloadManager Async AsyncNotions AsyncFacts RunFacts.

Lemma rank_le (s : Stage) : (rank s <= 9)%nat.
Proof. destruct s; cbn; lia. Qed.

Lemma rank_settled (s : Stage) : rank s = 0%nat -> exists res, s = Settled res.
Proof. destruct s; cbn; try discriminate. eauto. Qed.

Lemma resume_rank (st : State) (url outputDir itemId : string) (imageIndex : nat)
    (w : World) (s : Stage) :
  (rank (fst (resume st url outputDir itemId imageIndex w s)) <= Nat.pred (rank s))%nat.
Proof.
  unfold resume, throw. repeat case_match; cbn; lia.
Qed.

Section Runs.
Variables outputDir itemId : string.

Lemma advance_length (acc : list Task * State) (k : nat) :
  List.length (fst (advance outputDir itemId acc k)) = List.length (fst acc).
Proof.
  destruct acc as [tasks st]. destruct (tasks !! k) as [t|] eqn:H.
  - rewrite (advance_hit _ _ _ _ _ _ H). cbn [fst]. apply length_insert.
  - now rewrite (advance_miss _ _ _ _ _ H).
Qed.

Lemma run_length (schedule : list nat) :
  forall tasks st,
    List.length (fst (run outputDir itemId schedule tasks st)) = List.length tasks.
Proof.
  unfold run. induction schedule as [|k r IH]; intros tasks st; [reflexivity|].
  cbn [List.fold_left]. pose proof (advance_length (tasks, st) k) as H.
  destruct (advance outputDir itemId (tasks, st) k) as [tasks1 st1].
  rewrite IH. exact H.
Qed.

(** A turn lowers the rank of the task that takes it and leaves the
    ranks of the others. *)
Lemma advance_rank (tasks : list Task) (st : State) (k i : nat) :
  (rankAt (fst (advance outputDir itemId (tasks, st) k)) i <=
   (if decide (i = k) then Nat.pred (rankAt tasks i) else rankAt tasks i))%nat.
Proof.
  unfold rankAt. destruct (tasks !! k) as [t|] eqn:H.
  - rewrite (advance_hit _ _ _ _ _ _ H). cbn [fst].
    destruct (decide (i = k)) as [->|Hn].
    + rewrite list_lookup_insert_eq by (eapply lookup_lt_Some; eassumption).
      rewrite H. cbn. apply resume_rank.
    + rewrite list_lookup_insert_ne by congruence. reflexivity.
  - rewrite (advance_miss _ _ _ _ _ H). cbn [fst].
    destruct (decide (i = k)) as [->|Hn]; [|reflexivity]. rewrite H. cbn. lia.
Qed.

Lemma run_rank_le (schedule : list nat) (i : nat) :
  forall tasks st,
    (rankAt (fst (run outputDir itemId schedule tasks st)) i <= rankAt tasks i)%nat.
Proof.
  unfold run. induction schedule as [|k r IH]; intros tasks st; [reflexivity|].
  cbn [List.fold_left]. pose proof (advance_rank tasks st k i) as H.
  destruct (advance outputDir itemId (tasks, st) k) as [tasks1 st1].
  specialize (IH tasks1 st1). cbn [fst] in *.
  destruct (decide (i = k)); lia.
Qed.

Lemma run_repeat_rank (k n : nat) :
  forall tasks st,
    (rankAt (fst (run outputDir itemId (List.repeat k n) tasks st)) k <=
     rankAt tasks k - n)%nat.
Proof.
  unfold run. induction n as [|n IH]; intros tasks st; [cbn; lia|].
  cbn [List.repeat List.fold_left]. pose proof (advance_rank tasks st k k) as H.
  destruct (advance outputDir itemId (tasks, st) k) as [tasks1 st1].
  specialize (IH tasks1 st1). cbn [fst] in *.
  destruct (decide (k = k)); [lia | congruence].
Qed.

Lemma rankAt_le (tasks : list Task) (i : nat) : (rankAt tasks i <= 9)%nat.
Proof. unfold rankAt. destruct (tasks !! i); [apply rank_le | lia]. Qed.

Lemma run_flat_rank (ks : list nat) (i : nat) :
  forall tasks st,
    In i ks ->
    rankAt (fst (run outputDir itemId (List.flat_map (fun k => List.repeat k 9) ks)
                     tasks st)) i = 0%nat.
Proof.
  induction ks as [|k r IH]; intros tasks st Hi; [destruct Hi|].
  cbn [List.flat_map]. rewrite run_app.
  destruct (decide (i = k)) as [->|Hn].
  - pose proof (run_repeat_rank k 9 tasks st) as H1.
    pose proof (rankAt_le tasks k) as H2.
    match goal with |- rankAt (fst (run _ _ ?s ?t ?u)) _ = _ =>
      pose proof (run_rank_le s k t u) as H3 end.
    lia.
  - destruct Hi as [Hi|Hi]; [congruence|]. now apply IH.
Qed.

(** Whatever the schedule, every task is settled once the tasks it leaves
    have run to their end. *)
Lemma run_settles (schedule : list nat) (tasks : list Task) (st : State) :
  Forall (fun t => exists res, stage t = Settled res)
         (fst (run outputDir itemId (schedule ++ toTheEnd (List.length tasks)) tasks st)).
Proof.
  apply Forall_lookup. intros i t Ht.
  apply rank_settled.
  assert (Hlen : (i < List.length tasks)%nat).
  { apply lookup_lt_Some in Ht. now rewrite run_length in Ht. }
  rewrite run_app in Ht.
  pose proof (run_flat_rank (List.seq 0 (List.length tasks)) i
                (fst (run outputDir itemId schedule tasks st))
                (snd (run outputDir itemId schedule tasks st))) as H.
  unfold toTheEnd in Ht. unfold rankAt in H. rewrite Ht in H. apply H.
  apply List.in_seq. lia.
Qed.

Lemma outcomes_settled (tasks : list Task) :
  Forall (fun t => exists res, stage t = Settled res) tasks ->
  Forall2 (fun t res => stage t = Settled res) tasks (outcomes tasks).
Proof.
  induction 1 as [|t r [res Hr] _ IH]; [constructor|].
  cbn [outcomes]. rewrite Hr. constructor; assumption.
Qed.

Lemma unsettled_settled (tasks : list Task) :
  Forall (fun t => exists res, stage t = Settled res) tasks -> unsettled tasks = 0%nat.
Proof.
  unfold unsettled. induction 1 as [|t r [res Hr] _ IH]; [reflexivity|].
  cbn. rewrite Hr. cbn. exact IH.
Qed.

End Runs.
End SettleFacts.

Module ChunkFacts.
Import JsString Js DownloadManager Async AsyncNotions AsyncFacts RunFacts SettleFacts.

Lemma chunk_acc_concat {A : Type} (size : nat) (l : list A) :
  forall room cur, List.concat (chunk_acc size room cur l) = List.rev cur ++ l.
Proof.
  induction l as [|x r IH]; intros room cur.
  - simpl. destruct cur; simpl; [reflexivity | now rewrite !app_nil_r].
  - simpl. destruct room as [|room'].
    + simpl. rewrite IH. reflexivity.
    + rewrite IH. simpl. now rewrite <- app_assoc.
Qed.

Lemma chunksOf_concat {A : Type} (size : nat) (l : list A) :
  List.concat (chunksOf size l) = l.
Proof. unfold chunksOf. now rewrite chunk_acc_concat. Qed.

Lemma Settles_grows (st st' : State) (c : Candidate) (res : Failure + Success) :
  Grows st st' -> Settles st c res -> Settles st' c res.
Proof.
  intros [Hf _]. destruct res as [e|ok]; [auto|]. cbn. intros [H1 H2]. auto.
Qed.

Lemma Forall2_Settles_grows (st st' : State) (cs : list Candidate)
    (rs : list (Failure + Success)) :
  Grows st st' -> Forall2 (Settles st) cs rs -> Forall2 (Settles st') cs rs.
Proof.
  intros Hg H. induction H; constructor; [|assumption].
  eapply Settles_grows; eassumption.
Qed.

Section WithUrlParser.
Variable pathname_of : string -> option string.
Variables outputDir itemId : string.

Lemma TaskOk_grows (st st' : State) (t : Task) :
  Grows st st' -> TaskOk outputDir st t -> TaskOk outputDir st' t.
Proof.
  intros Hg. unfold TaskOk. destruct (stage t); auto.
  - destruct Hg as [Hf _]. auto.
  - now apply Settles_grows.
Qed.

Lemma TaskOk_start (st : State) (c : Candidate) (i : nat) :
  TaskOk outputDir (snd (start pathname_of st (fst c) itemId))
    {| candidate := c; imageIndex := i;
       stage := fst (start pathname_of st (fst c) itemId) |}.
Proof.
  unfold TaskOk, start, throw. repeat case_match; cbn in *; simplify_eq; cbn; auto.
Qed.

Lemma TaskOk_resume (st : State) (t : Task) :
  TaskOk outputDir st t ->
  TaskOk outputDir
    (snd (resume st (fst (candidate t)) outputDir itemId (imageIndex t)
                 (snd (candidate t) 1%nat) (stage t)))
    {| candidate := candidate t; imageIndex := imageIndex t;
       stage := fst (resume st (fst (candidate t)) outputDir itemId (imageIndex t)
                            (snd (candidate t) 1%nat) (stage t)) |}.
Proof.
  unfold TaskOk. destruct t as [c i s]. cbn [candidate imageIndex stage].
  intros H. unfold resume, throw.
  destruct s; repeat case_match; cbn in *; simplify_eq; cbn; auto.
  - rewrite lookup_insert_eq. eauto.
Qed.

(** The chunk: one result for each of its candidates, in their order. *)
Lemma allSettled_settles (schedule : list nat) (tasks : list Task) (st : State) :
  Forall (TaskOk outputDir st) tasks ->
  Forall2 (Settles (snd (allSettled outputDir itemId schedule tasks st)))
          (List.map candidate tasks)
          (fst (allSettled outputDir itemId schedule tasks st)) /\
  Grows st (snd (allSettled outputDir itemId schedule tasks st)).
Proof.
  intros H. unfold allSettled.
  pose proof (run_inv outputDir itemId (TaskOk outputDir) TaskOk_grows TaskOk_resume
                (schedule ++ toTheEnd (List.length tasks)) tasks st H) as Hok.
  pose proof (run_settles outputDir itemId schedule tasks st) as Hs.
  pose proof (run_candidates outputDir itemId
                (schedule ++ toTheEnd (List.length tasks)) tasks st) as [Hc _].
  pose proof (run_grows outputDir itemId
                (schedule ++ toTheEnd (List.length tasks)) tasks st) as Hg.
  destruct (run outputDir itemId _ tasks st) as [tasks1 st1]. cbn [fst snd] in *.
  split; [|exact Hg]. rewrite <- Hc.
  apply outcomes_settled in Hs. clear Hc Hg H.
  induction Hs as [|t res ts rs Ht _ IH]; [constructor|].
  inversion Hok as [|? ? Hk Hoks]; subst. cbn [List.map]. constructor; [|now apply IH].
  unfold TaskOk in Hk. now rewrite Ht in Hk.
Qed.

Lemma processChunk_settles (chunk : list Candidate)
    (results : list (Failure + Success)) (st : State) (i : nat)
    (schedules : list (list nat)) :
  let '(results', st', _, _) :=
    processChunk pathname_of outputDir itemId (results, st, i, schedules) chunk in
  exists chunkResults,
    results' = results ++ chunkResults /\
    Forall2 (Settles st') chunk chunkResults /\ Grows st st'.
Proof.
  unfold processChunk.
  pose proof (startAll_inv pathname_of itemId (TaskOk outputDir) TaskOk_grows
                TaskOk_start chunk st (i + 1)) as Hs.
  pose proof (startAll_candidates pathname_of itemId chunk st (i + 1)) as Hc.
  pose proof (startAll_grows pathname_of itemId chunk st (i + 1)) as Hg.
  destruct (startAll pathname_of st chunk itemId (i + 1)) as [tasks st1].
  cbn [fst snd] in *.
  pose proof (allSettled_settles (List.hd [] schedules) tasks st1 Hs) as [Ha Hg2].
  destruct (allSettled outputDir itemId (List.hd [] schedules) tasks st1)
    as [chunkResults st2].
  cbn [fst snd] in *. exists chunkResults. rewrite Hc in Ha.
  split; [reflexivity|]. split; [exact Ha|]. eapply Grows_trans; eassumption.
Qed.

Lemma processDownloadsInChunks_settles (schedules : list (list nat)) (st : State)
    (imageUrls : list Candidate) :
  Forall2 (Settles (snd (processDownloadsInChunks pathname_of schedules st imageUrls
                           outputDir itemId)))
          imageUrls
          (fst (processDownloadsInChunks pathname_of schedules st imageUrls
                  outputDir itemId)) /\
  Grows st (snd (processDownloadsInChunks pathname_of schedules st imageUrls
                   outputDir itemId)).
Proof.
  unfold processDownloadsInChunks. cbv zeta.
  rewrite <- (chunksOf_concat Settings.concurrentDownloads imageUrls) at 2.
  generalize (chunksOf Settings.concurrentDownloads imageUrls). intros chunks.
  assert (H : forall chunks results st0 i schedules done,
             Forall2 (Settles st0) done results -> Grows st st0 ->
             let '(results', st', _, _) :=
               List.fold_left (processChunk pathname_of outputDir itemId) chunks
                              (results, st0, i, schedules) in
             Forall2 (Settles st') (done ++ List.concat chunks) results' /\ Grows st st').
  { clear chunks. induction chunks as [|chunk r IH]; intros results st0 i sch done Hd Hg.
    - cbn. now rewrite app_nil_r.
    - cbn [List.fold_left List.concat].
      pose proof (processChunk_settles chunk results st0 i sch) as Hp.
      destruct (processChunk pathname_of outputDir itemId (results, st0, i, sch) chunk)
        as [[[results1 st1] i1] sch1].
      destruct Hp as (cr & -> & Hcr & Hg1).
      rewrite app_assoc. apply IH.
      + apply Forall2_app; [|exact Hcr]. now apply (Forall2_Settles_grows st0).
      + eapply Grows_trans; eassumption. }
  specialize (H chunks [] st 0%nat schedules [] ltac:(constructor) (Grows_refl st)).
  destruct (List.fold_left _ chunks _) as [[[results' st'] i'] sch']. exact H.
Qed.

End WithUrlParser.
End ChunkFacts.

Module StatsFacts.
Import JsString Js DownloadManager Async AsyncNotions StatsNotions RunFacts SettleFacts.

Lemma unsettled_insert (tasks : list Task) :
  forall (k : nat) (t t' : Task),
    tasks !! k = Some t ->
    (unsettled (<[k := t']> tasks) + pending (stage t) =
     unsettled tasks + pending (stage t'))%nat.
Proof.
  unfold unsettled. set (f := fun t0 : Task => pending (stage t0)).
  induction tasks as [|u r IH]; intros k t t' H; [discriminate|].
  destruct k as [|k].
  - injection H as ->. clear IH.
    change (list_sum (List.map f (<[0%nat := t']> (t :: r))))
      with (f t' + list_sum (List.map f r))%nat.
    change (list_sum (List.map f (t :: r))) with (f t + list_sum (List.map f r))%nat.
    change (pending (stage t)) with (f t). change (pending (stage t')) with (f t'). lia.
  - change ((u :: r) !! S k) with (r !! k) in H. specialize (IH k t t' H).
    change (list_sum (List.map f (<[S k := t']> (u :: r))))
      with (f u + list_sum (List.map f (<[k := t']> r)))%nat.
    change (list_sum (List.map f (u :: r))) with (f u + list_sum (List.map f r))%nat.
    lia.
Qed.

Lemma pending_le_unsettled (tasks : list Task) :
  forall (k : nat) (t : Task),
    tasks !! k = Some t -> (pending (stage t) <= unsettled tasks)%nat.
Proof.
  unfold unsettled. set (f := fun t0 : Task => pending (stage t0)).
  induction tasks as [|u r IH]; intros k t E; [discriminate|].
  change (list_sum (List.map f (u :: r))) with (f u + list_sum (List.map f r))%nat.
  destruct k as [|k].
  - injection E as ->. change (pending (stage t)) with (f t). lia.
  - change ((u :: r) !! S k) with (r !! k) in E. specialize (IH k t E). lia.
Qed.

Section WithUrlParser.
Variable pathname_of : string -> option string.
Variables outputDir itemId : string.

(** The figures with [n] other calls under way, before and after a call
    is started. *)
Lemma start_stats (st : State) (url : string) (n L : nat) :
  ConsistentWith n (stats st) /\ lowMatchSkipped (stats st) = L ->
  ConsistentWith (n + pending (fst (start pathname_of st url itemId)))
                 (stats (snd (start pathname_of st url itemId))) /\
  lowMatchSkipped (stats (snd (start pathname_of st url itemId))) = L.
Proof.
  unfold ConsistentWith, start, throw. intros [(H1 & H2 & H3) H4].
  repeat case_match; cbn in *; repeat split; lia.
Qed.

(** ... and before and after a call takes a turn. *)
Lemma resume_stats (st : State) (url : string) (imageIndex : nat) (w : World)
    (s : Stage) (n L : nat) :
  ConsistentWith (n + pending s) (stats st) /\ lowMatchSkipped (stats st) = L ->
  ConsistentWith
    (n + pending (fst (resume st url outputDir itemId imageIndex w s)))
    (stats (snd (resume st url outputDir itemId imageIndex w s))) /\
  lowMatchSkipped (stats (snd (resume st url outputDir itemId imageIndex w s))) = L.
Proof.
  unfold ConsistentWith, resume, throw. intros [(H1 & H2 & H3) H4].
  destruct s; repeat case_match; cbn in *; repeat split; lia.
Qed.

Lemma startAll_stats (chunk : list Candidate) (L : nat) :
  forall st i n,
    ConsistentWith n (stats st) /\ lowMatchSkipped (stats st) = L ->
    ConsistentWith (n + unsettled (fst (startAll pathname_of st chunk itemId i)))
                   (stats (snd (startAll pathname_of st chunk itemId i))) /\
    lowMatchSkipped (stats (snd (startAll pathname_of st chunk itemId i))) = L.
Proof.
  induction chunk as [|c r IH]; intros st i n H.
  - cbn. now rewrite Nat.add_0_r.
  - cbn [startAll]. pose proof (start_stats st (fst c) n L H) as Hs.
    destruct (start pathname_of st (fst c) itemId) as [s st1]. cbn [fst snd] in Hs.
    specialize (IH st1 (S i) _ Hs).
    destruct (startAll pathname_of st1 r itemId (S i)) as [ts st2]. cbn [fst snd] in *.
    match goal with |- context [unsettled (?t :: ts)] =>
      change (unsettled (t :: ts)) with (pending s + unsettled ts)%nat end.
    now rewrite Nat.add_assoc.
Qed.

Lemma advance_stats (tasks : list Task) (st : State) (k n L : nat) :
  ConsistentWith (n + unsettled tasks) (stats st) /\ lowMatchSkipped (stats st) = L ->
  ConsistentWith (n + unsettled (fst (advance outputDir itemId (tasks, st) k)))
                 (stats (snd (advance outputDir itemId (tasks, st) k))) /\
  lowMatchSkipped (stats (snd (advance outputDir itemId (tasks, st) k))) = L.
Proof.
  intros H. destruct (tasks !! k) as [t|] eqn:E.
  - rewrite (advance_hit _ _ _ _ _ _ E). cbn [fst snd].
    match goal with |- context [<[k := ?t']> tasks] =>
      pose proof (unsettled_insert tasks k t t' E) as Hu end.
    cbn [stage] in Hu.
    pose proof (resume_stats st (fst (candidate t)) (imageIndex t)
                  (snd (candidate t) 1%nat) (stage t)
                  (n + unsettled tasks - pending (stage t)) L) as Hr.
    pose proof (pending_le_unsettled tasks k t E) as Hp.
    replace (n + unsettled tasks - pending (stage t) + pending (stage t))%nat
      with (n + unsettled tasks)%nat in Hr by lia.
    specialize (Hr H).
    match goal with |- ConsistentWith ?a _ /\ _ =>
      match type of Hr with ConsistentWith ?b _ /\ _ =>
        replace a with b by lia end end.
    exact Hr.
  - now rewrite (advance_miss _ _ _ _ _ E).
Qed.

Lemma run_stats (schedule : list nat) (n L : nat) :
  forall tasks st,
    ConsistentWith (n + unsettled tasks) (stats st) /\ lowMatchSkipped (stats st) = L ->
    ConsistentWith (n + unsettled (fst (run outputDir itemId schedule tasks st)))
                   (stats (snd (run outputDir itemId schedule tasks st))) /\
    lowMatchSkipped (stats (snd (run outputDir itemId schedule tasks st))) = L.
Proof.
  unfold run. induction schedule as [|k r IH]; intros tasks st H; [exact H|].
  cbn [List.fold_left]. pose proof (advance_stats tasks st k n L H) as H1.
  destruct (advance outputDir itemId (tasks, st) k) as [tasks1 st1]. now apply IH.
Qed.

Lemma allSettled_stats (schedule : list nat) (tasks : list Task) (st : State)
    (n L : nat) :
  ConsistentWith (n + unsettled tasks) (stats st) /\ lowMatchSkipped (stats st) = L ->
  ConsistentWith n (stats (snd (allSettled outputDir itemId schedule tasks st))) /\
  lowMatchSkipped (stats (snd (allSettled outputDir itemId schedule tasks st))) = L.
Proof.
  intros H. unfold allSettled.
  pose proof (run_stats (schedule ++ toTheEnd (List.length tasks)) n L tasks st H) as Hr.
  pose proof (run_settles outputDir itemId schedule tasks st) as Hs.
  destruct (run outputDir itemId _ tasks st) as [tasks1 st1]. cbn [fst snd] in *.
  rewrite (unsettled_settled _ Hs), Nat.add_0_r in Hr. exact Hr.
Qed.

Lemma processDownloadsInChunks_stats (schedules : list (list nat)) (st : State)
    (imageUrls : list Candidate) (n L : nat) :
  ConsistentWith n (stats st) /\ lowMatchSkipped (stats st) = L ->
  ConsistentWith n
    (stats (snd (processDownloadsInChunks pathname_of schedules st imageUrls
                   outputDir itemId))) /\
  lowMatchSkipped
    (stats (snd (processDownloadsInChunks pathname_of schedules st imageUrls
                   outputDir itemId))) = L.
Proof.
  unfold processDownloadsInChunks. cbv zeta.
  generalize (chunksOf Settings.concurrentDownloads imageUrls). intros chunks.
  assert (H : forall chunks results st0 i schedules,
             ConsistentWith n (stats st0) /\ lowMatchSkipped (stats st0) = L ->
             let '(_, st', _, _) :=
               List.fold_left (processChunk pathname_of outputDir itemId) chunks
                              (results, st0, i, schedules) in
             ConsistentWith n (stats st') /\ lowMatchSkipped (stats st') = L).
  { clear chunks. induction chunks as [|chunk r IH]; intros results st0 i sch H0.
    - exact H0.
    - cbn [List.fold_left]. unfold processChunk at 2.
      pose proof (startAll_stats chunk L st0 (i + 1) n H0) as Hs.
      destruct (startAll pathname_of st0 chunk itemId (i + 1)) as [tasks st1].
      cbn [fst snd] in Hs.
      pose proof (allSettled_stats (List.hd [] sch) tasks st1 n L Hs) as Ha.
      destruct (allSettled outputDir itemId (List.hd [] sch) tasks st1) as [cr st2].
      cbn [fst snd] in Ha. now apply IH. }
  intros H0. specialize (H chunks [] st 0%nat schedules H0).
  destruct (List.fold_left _ chunks _) as [[[results' st'] i'] sch']. exact H.
Qed.

End WithUrlParser.
End StatsFacts.

Module AccountingFacts.
Import JsString Js DownloadManager Async AsyncNotions.

Lemma length_keptFiles (results : list (Failure + Success)) :
  (List.length (keptFiles results) <= List.length results)%nat.
Proof. induction results as [|[e|ok] r IH]; simpl; lia. Qed.

Lemma keptFiles_settled (st : State) (cs : list Candidate)
    (rs : list (Failure + Success)) :
  Forall2 (Settles st) cs rs -> Forall (fun path => is_Some (files st !! path)) (keptFiles rs).
Proof.
  induction 1 as [|c res cs rs Hs _ IH]; [constructor|].
  destruct res as [e|ok]; simpl; [exact IH|]. constructor; [exact (proj2 Hs) | exact IH].
Qed.

Lemma filter_length_le {A : Type} (f g : A -> bool) (l : list A) :
  (forall x, f x = true -> g x = true) ->
  (List.length (List.filter f l) <= List.length (List.filter g l) <= List.length l)%nat.
Proof.
  intros H. induction l as [|x r IH]; simpl; [lia|].
  destruct (f x) eqn:Ef; [rewrite (H x Ef); simpl; lia|].
  destruct (g x); simpl; lia.
Qed.

Section Pipeline.
Variable validateImageMatch :
  string -> option string -> string -> option string -> ImageValidator.Validation.
Variable plus : Q -> Q -> Q.

Lemma collect_counts (product : Product) (results : list (Failure + Success)) :
  forall (i : nat) (acc : DownloadResult) (v : nat) (t : Q),
    let '(acc', v', _) := collect validateImageMatch plus product results i acc v t in
    itemId acc' = itemId acc /\
    attempted acc' = attempted acc /\
    downloadedFiles acc' = downloadedFiles acc ++ keptFiles results /\
    downloaded acc' = (downloaded acc + List.length (keptFiles results))%nat /\
    (failedCount acc' + List.length (keptFiles results) =
     failedCount acc + List.length results)%nat /\
    (List.length (errors acc') + List.length (keptFiles results) =
     List.length (errors acc) + List.length results)%nat /\
    List.length (validationResults acc') =
      (List.length (validationResults acc) + List.length (keptFiles results))%nat /\
    v' = (v + List.length (keptFiles results))%nat.
Proof.
  induction results as [|[e|ok] r IH]; intros i acc v t.
  - simpl. rewrite app_nil_r. repeat split; lia.
  - simpl. match goal with |- context [collect _ _ _ r ?i' ?a' ?v' ?t'] =>
      specialize (IH i' a' v' t');
      destruct (collect validateImageMatch plus product r i' a' v' t')
        as [[acc' v''] t''] end.
    simpl in IH. rewrite length_app in IH. simpl in IH.
    destruct IH as (H0 & H1 & H2 & H3 & H4 & H5 & H6 & H7).
    repeat split; try assumption; lia.
  - simpl. match goal with |- context [collect _ _ _ r ?i' ?a' ?v' ?t'] =>
      specialize (IH i' a' v' t');
      destruct (collect validateImageMatch plus product r i' a' v' t')
        as [[acc' v''] t''] end.
    simpl in IH. rewrite length_app in IH. simpl in IH.
    destruct IH as (H0 & H1 & H2 & H3 & H4 & H5 & H6 & H7).
    repeat split; try assumption; try lia.
    rewrite H2, <- app_assoc. reflexivity.
Qed.

End Pipeline.
End AccountingFacts.


(** X25. The figures of [getStats] stay consistent across
    [downloadProductImages], whatever the order in which the calls of a
    chunk take their turns: when, before the call, the successes do not
    exceed the attempts, every attempt is counted as a success or as a
    failure, and the rejections for quality and for duplication are among
    the failures, the same holds after it (so that the success rate never
    exceeds 100%), and [lowMatchSkipped] is what it was: nothing on the
    download path counts a low match. *)
Theorem download_statistics_stay_consistent
    (pathname_of : string -> option string)
    (validateImageMatch :
       string -> option string -> string -> option string -> ImageValidator.Validation)
    (plus quotient : Q -> Q -> Q)
    (ensureDir : option string) (schedules : list (list nat))
    (st : Async.State) (product : DownloadManager.Product)
    (imageUrls : list DownloadManager.Candidate) (outputDir : string) :
  StatsNotions.Consistent (Async.stats st) ->
  let st' :=
    snd (Async.downloadProductImages pathname_of validateImageMatch plus quotient
           ensureDir schedules st product imageUrls outputDir) in
  StatsNotions.Consistent (Async.stats st') /\
  DownloadManager.lowMatchSkipped (Async.stats st') =
    DownloadManager.lowMatchSkipped (Async.stats st).
Proof.
  intros (H1 & H2 & H3). cbv zeta. unfold Async.downloadProductImages.
  destruct ensureDir as [error|].
  { cbn. unfold StatsNotions.Consistent. auto. }
  match goal with |- context [Async.processDownloadsInChunks ?p ?sc ?s ?u ?o ?i] =>
    pose proof (StatsFacts.processDownloadsInChunks_stats p o i sc s u 0
                  (DownloadManager.lowMatchSkipped (Async.stats st))) as H;
    destruct (Async.processDownloadsInChunks p sc s u o i) as [results st1] end.
  destruct (Async.collect _ _ _ _ _ _ _ _) as [[acc v] t].
  cbn [snd] in *.
  destruct H as [(K1 & K2 & K3) K4];
    [unfold StatsNotions.ConsistentWith; cbn; repeat split; lia|].
  unfold StatsNotions.Consistent. repeat split; lia.
Qed.

Lemma download_statistics_stay_consistent_witness :
  let st' :=
    snd (Async.downloadProductImages Examples.simple_pathname
           (ImageValidator.validateImageMatch Examples.noSimilarity Examples.sizesOf)
           Qplus Qdiv None [[0; 1; 0; 1]%nat]
           (Async.initial ∅ ∅) Examples.widget
           [Examples.good 1; Examples.samePicture] "out/W-100") in
  StatsNotions.Consistent (Async.stats st') /\
  DownloadManager.lowMatchSkipped (Async.stats st') = 0%nat.
Proof.
  apply (download_statistics_stay_consistent Examples.simple_pathname
           (ImageValidator.validateImageMatch Examples.noSimilarity Examples.sizesOf)
           Qplus Qdiv None [[0; 1; 0; 1]%nat]
           (Async.initial ∅ ∅) Examples.widget
           [Examples.good 1; Examples.samePicture] "out/W-100").
  unfold StatsNotions.Consistent. simpl. lia.
Defined.

(** X26. [processDownloadsInChunks] settles every URL once, whatever the
    number of URLs and the order in which the calls of a chunk take their
    turns: it returns one result for each URL, in the order of the URLs.
    A success carries the URL of its place, and its file is in the output
    tree when the function returns. *)
Theorem chunks_settle_every_url_in_order
    (pathname_of : string -> option string) (schedules : list (list nat))
    (st : Async.State) (imageUrls : list DownloadManager.Candidate)
    (outputDir itemId : string) :
  let '(results, st') :=
    Async.processDownloadsInChunks pathname_of schedules st imageUrls outputDir itemId in
  List.length results = List.length imageUrls /\
  Forall2 (AsyncNotions.Settles st') imageUrls results.
Proof.
  pose proof (proj1 (ChunkFacts.processDownloadsInChunks_settles pathname_of outputDir
                       itemId schedules st imageUrls)) as H.
  destruct (Async.processDownloadsInChunks _ _ _ _ _ _) as [results st'].
  cbn [fst snd] in H. split; [|exact H].
  apply Forall2_length in H. symmetry. exact H.
Qed.

(** X27. What [downloadProductImages] returns adds up, whatever the order
    in which the calls of a chunk take their turns.  When [fs.ensureDir]
    fails, its error is rethrown and neither the output tree nor the
    statistics have changed.  Otherwise the attempts are the URLs offered,
    six at most; every attempt is counted once, as a downloaded image or
    as a failure; the listed files, the validation results and the errors
    are as many as their counters say; the perfect matches are among the
    high-confidence ones, and these among the downloaded images; and every
    listed file is in the output tree when the function returns. *)
Theorem product_download_accounting
    (pathname_of : string -> option string)
    (validateImageMatch :
       string -> option string -> string -> option string -> ImageValidator.Validation)
    (plus quotient : Q -> Q -> Q)
    (ensureDir : option string) (schedules : list (list nat))
    (st : Async.State) (product : DownloadManager.Product)
    (imageUrls : list DownloadManager.Candidate) (outputDir : string) :
  match
    Async.downloadProductImages pathname_of validateImageMatch plus quotient
      ensureDir schedules st product imageUrls outputDir
  with
  | (inl error, st') =>
      ensureDir = Some error /\
      Async.files st' = Async.files st /\ Async.sidecars st' = Async.sidecars st /\
      Async.stats st' = Async.stats st
  | (inr (r, _), st') =>
      ensureDir = None /\
      DownloadManager.itemId r = DownloadManager.itemid product /\
      DownloadManager.attempted r =
        Nat.min (List.length imageUrls) Settings.maxImagesPerItem /\
      (DownloadManager.downloaded r + DownloadManager.failedCount r =
       DownloadManager.attempted r)%nat /\
      List.length (DownloadManager.downloadedFiles r) = DownloadManager.downloaded r /\
      List.length (DownloadManager.validationResults r) = DownloadManager.downloaded r /\
      List.length (DownloadManager.errors r) = DownloadManager.failedCount r /\
      (DownloadManager.perfectMatches r <= DownloadManager.highConfidenceMatches r <=
       DownloadManager.downloaded r)%nat /\
      Forall (fun path => is_Some (Async.files st' !! path))
             (DownloadManager.downloadedFiles r)
  end.
Proof.
  unfold Async.downloadProductImages.
  destruct ensureDir as [error|]; [repeat split; reflexivity|].
  match goal with |- context [Async.processDownloadsInChunks ?p ?sc ?s ?u ?o ?i] =>
    pose proof (proj1 (ChunkFacts.processDownloadsInChunks_settles p o i sc s u)) as Hs;
    destruct (Async.processDownloadsInChunks p sc s u o i) as [results st1] end.
  cbn [fst snd] in Hs.
  pose proof Hs as Hlen. apply Forall2_length in Hlen.
  rewrite List.length_firstn in Hlen.
  pose proof (AccountingFacts.keptFiles_settled _ _ _ Hs) as Hfiles.
  pose proof (AccountingFacts.length_keptFiles results) as Hk.
  match goal with |- context [Async.collect _ _ _ _ ?i ?a ?v ?t] =>
    pose proof (AccountingFacts.collect_counts validateImageMatch plus product
                  results i a v t) as H;
    destruct (Async.collect validateImageMatch plus product results i a v t)
      as [[acc v'] t'] end.
  simpl in H. destruct H as (H0 & H1 & H2 & H3 & H4 & H5 & H6 & H7).
  cbn [DownloadManager.attempted DownloadManager.downloaded DownloadManager.failedCount
       DownloadManager.downloadedFiles DownloadManager.validationResults
       DownloadManager.errors DownloadManager.perfectMatches
       DownloadManager.highConfidenceMatches DownloadManager.itemId].
  rewrite H0, H1, H2, H3, H6.
  split; [reflexivity|]. split; [reflexivity|].
  split; [unfold Settings.maxImagesPerItem in *; lia|].
  split; [lia|]. split; [reflexivity|]. split; [reflexivity|].
  split; [lia|]. split; [|exact Hfiles].
  rewrite <- H6.
  apply (AccountingFacts.filter_length_le
           (fun v0 => Js.Qleb 1 (snd (fst v0)))
           (fun v0 => Js.Qleb Async.double_0_7 (snd (fst v0)))).
  intros x Hx. apply QualityFacts.Qleb_le in Hx. apply QualityFacts.Qleb_le.
  unfold Async.double_0_7. eapply Qle_trans; [|exact Hx]. vm_compute. discriminate.
Qed.

Module ProcessingFacts.
Import JsString Js DownloadManager FileManager Processing.

Section WithLibraries.
Variable pathname_of : string -> option string.
Variable validateImageMatch :
  string -> option string -> string -> option string -> ImageValidator.Validation.
Variable plus quotient : Q -> Q -> Q.

Lemma downloadProductImages_ids (ensureDir : option string)
    (schedules : list (list nat)) (st : Async.State) (p : Product)
    (imageUrls : list Candidate) (outputDir : string) :
  match
    Async.downloadProductImages pathname_of validateImageMatch plus quotient
      ensureDir schedules st p imageUrls outputDir
  with
  | (inl error, _) => ensureDir = Some error
  | (inr (r, p'), _) => ensureDir = None /\ itemId r = itemid p /\ itemid p' = itemid p
  end.
Proof.
  unfold Async.downloadProductImages. destruct ensureDir as [error|]; [reflexivity|].
  destruct (Async.processDownloadsInChunks _ _ _ _ _ _) as [results st1].
  match goal with |- context [Async.collect _ _ _ _ ?i ?a ?v ?t] =>
    pose proof (AccountingFacts.collect_counts validateImageMatch plus p
                  results i a v t) as H;
    destruct (Async.collect validateImageMatch plus p results i a v t)
      as [[acc v'] t'] end.
  destruct H as [H0 _]. cbn in *. auto.
Qed.

(** One product: its result and what is left of it depend on the state
    and on the product, not on the results so far. *)
Lemma processOne_step (outputDir : string) (job : Job) (st : Async.State) :
  exists (r : DownloadResult) (d : Item) (st1 : Async.State),
    (forall R D,
       processOne pathname_of validateImageMatch plus quotient outputDir (R, D, st) job =
       (R ++ [r], D ++ [d], st1)) /\
    itemId r = itemid (product (item job)) /\
    itemid (product d) = itemid (product (item job)) /\
    (imageUrls job = [] ->
     r = bareResult (itemid (product (item job))) 0 "No images found") /\
    (imageUrls job <> [] -> forall error, ensureDir job = Some error ->
     r = bareResult (itemid (product (item job))) 1 error).
Proof.
  unfold processOne. destruct (imageUrls job) as [|c urls] eqn:E.
  - eexists _, _, _. split; [intros; reflexivity|].
    repeat split; try reflexivity. intros H. now destruct H.
  - pose proof (downloadProductImages_ids (ensureDir job) (schedules job) st
                  (product (item job)) (c :: urls) (productDir outputDir (item job)))
      as H.
    destruct (Async.downloadProductImages _ _ _ _ _ _ _ _ _ _) as [[error|[r p]] st1].
    + eexists _, _, _. split; [intros; reflexivity|].
      repeat split; try reflexivity; try discriminate.
      intros _ e He. rewrite H in He. now injection He as ->.
    + destruct H as (Hn & H1 & H2). eexists _, _, _. split; [intros; reflexivity|].
      repeat split; try assumption; try discriminate.
      intros _ e He. rewrite Hn in He. discriminate.
Qed.

Lemma processBatch_acc (outputDir : string) (jobs : list Job) :
  forall (R : list DownloadResult) (D : list Item) (st : Async.State),
    List.fold_left (processOne pathname_of validateImageMatch plus quotient outputDir)
                   jobs (R, D, st) =
    let '(r, d, st') :=
      processBatch pathname_of validateImageMatch plus quotient st jobs outputDir in
    (R ++ r, D ++ d, st').
Proof.
  unfold processBatch.
  induction jobs as [|job jobs IH]; intros R D st.
  - simpl. now rewrite !app_nil_r.
  - cbn [List.fold_left].
    destruct (processOne_step outputDir job st) as (r & d & st1 & Hstep & _).
    rewrite (Hstep R D), (Hstep [] []).
    rewrite (IH (R ++ [r]) (D ++ [d]) st1).
    rewrite (IH ([] ++ [r]) ([] ++ [d]) st1).
    destruct (List.fold_left _ jobs ([], [], st1)) as [[r' d'] st'].
    simpl. now rewrite <- !app_assoc.
Qed.

Lemma processBatch_app (outputDir : string) (a b : list Job) (st : Async.State) :
  processBatch pathname_of validateImageMatch plus quotient st (a ++ b) outputDir =
  let '(r1, d1, st1) :=
    processBatch pathname_of validateImageMatch plus quotient st a outputDir in
  let '(r2, d2, st2) :=
    processBatch pathname_of validateImageMatch plus quotient st1 b outputDir in
  (r1 ++ r2, d1 ++ d2, st2).
Proof.
  unfold processBatch at 1. rewrite fold_left_app.
  fold (processBatch pathname_of validateImageMatch plus quotient st a outputDir).
  destruct (processBatch pathname_of validateImageMatch plus quotient st a outputDir)
    as [[r1 d1] st1].
  apply processBatch_acc.
Qed.

Lemma processProducts_acc (outputDir : string) (chunks : list (list Job)) :
  forall (R : list DownloadResult) (D : list Item) (st : Async.State),
    List.fold_left (processSlice pathname_of validateImageMatch plus quotient outputDir)
                   chunks (R, D, st) =
    let '(r, d, st') :=
      processBatch pathname_of validateImageMatch plus quotient st (List.concat chunks)
                   outputDir in
    (R ++ r, D ++ d, st').
Proof.
  induction chunks as [|chunk chunks IH]; intros R D st.
  - simpl. now rewrite !app_nil_r.
  - cbn [List.fold_left List.concat]. rewrite processBatch_app.
    unfold processSlice at 2.
    destruct (processBatch pathname_of validateImageMatch plus quotient st chunk outputDir)
      as [[r1 d1] st1].
    rewrite IH.
    destruct (processBatch pathname_of validateImageMatch plus quotient st1
                (List.concat chunks) outputDir) as [[r2 d2] st2].
    now rewrite !app_assoc.
Qed.

Lemma processBatch_results (outputDir : string) (jobs : list Job) :
  forall st,
    let '(r, d, _) :=
      processBatch pathname_of validateImageMatch plus quotient st jobs outputDir in
    Forall2
      (fun job result =>
         itemId result = itemid (product (item job)) /\
         (imageUrls job = [] ->
          result = bareResult (itemid (product (item job))) 0 "No images found") /\
         (imageUrls job <> [] -> forall error, ensureDir job = Some error ->
          result = bareResult (itemid (product (item job))) 1 error))
      jobs r /\
    List.map (fun i => itemid (product i)) d =
      List.map (fun job => itemid (product (item job))) jobs.
Proof.
  induction jobs as [|job jobs IH]; intros st; [split; [constructor | reflexivity]|].
  change (job :: jobs) with ([job] ++ jobs) at 1. rewrite processBatch_app.
  unfold processBatch at 1. cbn [List.fold_left].
  destruct (processOne_step outputDir job st) as (r & d & st1 & Hstep & H1 & H2 & H3 & H4).
  rewrite (Hstep [] []). cbn [app]. specialize (IH st1).
  destruct (processBatch pathname_of validateImageMatch plus quotient st1 jobs outputDir)
    as [[r2 d2] st2].
  destruct IH as [I1 I2]. split.
  - constructor; [|exact I1]. auto.
  - cbn [List.map]. now rewrite H2, I2.
Qed.

End WithLibraries.
End ProcessingFacts.

(** X29. The batches of ten of [processProducts] cannot be told from the
    outside: its results, the products it leaves and the state of the
    download manager are those of one [processBatch] over all the
    products, whatever the order in which the calls of a chunk take their
    turns.  Every product gets one result, in the order of the products and
    under its item identifier: for a product without URL the result with no
    attempt and the error [No images found]; for a product with URLs whose
    processing throws (its directory cannot be made), the result with one
    failure and the message of the error; so that the search of step 4 of
    [run] finds a result for every product. *)
Theorem batches_are_invisible
    (pathname_of : string -> option string)
    (validateImageMatch :
       string -> option string -> string -> option string -> ImageValidator.Validation)
    (plus quotient : Q -> Q -> Q)
    (st : Async.State) (products : list Processing.Job) (outputDir : string) :
  Processing.processProducts pathname_of validateImageMatch plus quotient st products
                             outputDir =
  Processing.processBatch pathname_of validateImageMatch plus quotient st products
                          outputDir /\
  let '(downloadResults, done, _) :=
    Processing.processProducts pathname_of validateImageMatch plus quotient st products
                               outputDir in
  let id job := DownloadManager.itemid (FileManager.product (Processing.item job)) in
  Forall2
    (fun job result =>
       DownloadManager.itemId result = id job /\
       (Processing.imageUrls job = [] ->
        result = Processing.bareResult (id job) 0 "No images found") /\
       (Processing.imageUrls job <> [] ->
        forall error, Processing.ensureDir job = Some error ->
        result = Processing.bareResult (id job) 1 error))
    products downloadResults /\
  List.map (fun item => DownloadManager.itemid (FileManager.product item)) done =
    List.map id products /\
  Forall (fun job =>
            is_Some (List.find
                       (fun r => String.eqb (DownloadManager.itemId r) (id job))
                       downloadResults))
         products.
Proof.
  assert (E : Processing.processProducts pathname_of validateImageMatch plus quotient st
                products outputDir =
              Processing.processBatch pathname_of validateImageMatch plus quotient st
                products outputDir).
  { unfold Processing.processProducts. cbv zeta.
    rewrite ProcessingFacts.processProducts_acc, ChunkFacts.chunksOf_concat.
    now destruct (Processing.processBatch _ _ _ _ _ _ _) as [[r d] st']. }
  split; [exact E|]. rewrite E.
  pose proof (ProcessingFacts.processBatch_results pathname_of validateImageMatch plus
                quotient outputDir products st) as H.
  destruct (Processing.processBatch _ _ _ _ _ _ _) as [[r d] st'].
  cbv zeta. destruct H as [H1 H2]. split; [exact H1|]. split; [exact H2|].
  clear H2 E. induction H1 as [|job res jobs rs (Hid & _) _ IH]; [constructor|].
  constructor.
  - cbn [List.find]. rewrite Hid, String.eqb_refl. eauto.
  - eapply List.Forall_impl; [|exact IH]. intros j Hj. cbn [List.find].
    destruct (String.eqb _ _); [eauto | exact Hj].
Qed.

(** Two URLs of one chunk that deliver the same picture.  When the two
    calls take their turns one after the other, both pass the fingerprint
    check before either has recorded its fingerprint, and both images are
    kept; when the second call resumes after the first has settled, it is
    refused as a duplicate. *)
Example same_picture_twice_in_a_chunk :
  let outcome schedule :=
    Async.processDownloadsInChunks Examples.simple_pathname [schedule]
      (Async.initial ∅ ∅) [Examples.good 1; Examples.samePicture] "out/W-100" "W-100" in
  let kept results :=
    List.map (fun r : Async.Failure + DownloadManager.Success =>
                match r with inr _ => "kept" | inl e => Async.message e end) results in
  let turns := [0; 1; 0; 1; 0; 1; 0; 1; 0; 1; 0; 1; 0; 1; 0; 1; 0; 1]%nat in
  kept (fst (outcome turns)) = ["kept"; "kept"] /\
  size (Async.files (snd (outcome turns))) = 2%nat /\
  DownloadManager.successful (Async.stats (snd (outcome turns))) = 2%nat /\
  Async.itemImageCounts (snd (outcome turns)) !! "W-100" = Some 1%nat /\
  kept (fst (outcome [])) = ["kept"; "Duplicate image detected"] /\
  size (Async.files (snd (outcome []))) = 1%nat /\
  DownloadManager.duplicatesSkipped (Async.stats (snd (outcome []))) = 1%nat.
Proof. vm_compute. repeat split. Qed.

(** The [metadata.json] that a download finds.  One that cannot be read
    or parsed is replaced by an array with the new entry alone; one that
    holds a JSON value other than an array makes [metadata.push] throw
    after the image is written and counted, so that the download is
    counted both as a success and as a failure; an array, whatever its
    elements, gets the entry at its end. *)
Example sidecar_found_by_a_download :
  let after file :=
    Async.processDownloadsInChunks Examples.simple_pathname []
      (Async.initial ∅ {[ "out/W-100/metadata.json" := file ]})
      [Examples.good 1] "out/W-100" "W-100" in
  let sidecar file := Async.sidecars (snd (after file)) !! "out/W-100/metadata.json" in
  let names file :=
    match sidecar file with
    | Some (Async.JsonArray elements) =>
        List.map (fun e => match e with
                           | Async.Entry e => DownloadManager.fileName e
                           | Async.Foreign json => json
                           end) elements
    | _ => []
    end in
  names Async.Unreadable = ["W-100_1_42b58f70.jpg"] /\
  names (Async.JsonArray [Async.Foreign "42"]) = ["42"; "W-100_1_42b58f70.jpg"] /\
  sidecar (Async.JsonOther "metadata.push is not a function") =
    Some (Async.JsonOther "metadata.push is not a function") /\
  fst (after (Async.JsonOther "metadata.push is not a function")) =
    [inl (Async.PushFailed "metadata.push is not a function")] /\
  size (Async.files (snd (after (Async.JsonOther "metadata.push is not a function"))))
    = 1%nat /\
  DownloadManager.successful
    (Async.stats (snd (after (Async.JsonOther "metadata.push is not a function"))))
    = 1%nat /\
  DownloadManager.failed
    (Async.stats (snd (after (Async.JsonOther "metadata.push is not a function"))))
    = 1%nat.
Proof. vm_compute. repeat split. Qed.

Module SequentialFacts.
Import JsString Js DownloadManager.

Lemma analyzeImage_split (cache : list (string * QualityAnalyzer.Analysis))
    (b : Buffer) (u : string) :
  QualityAnalyzer.analyzeImage cache b u =
  match Async.analyzeImageBegin cache b u with
  | (Some a, c) => (a, c)
  | (None, c) => Async.analyzeImageEnd c b u
  end.
Proof.
  unfold QualityAnalyzer.analyzeImage, Async.analyzeImageBegin, Async.analyzeImageEnd,
    QualityAnalyzer.cacheAndReturn.
  repeat case_match; simplify_eq; reflexivity.
Qed.

Lemma readSidecar_ofState (st : State) (p : string) :
  Async.readSidecar (Async.sidecars (Async.ofState st) !! p) =
  inr (List.map Async.Entry (default [] (sidecars (disk st) !! p))).
Proof.
  unfold Async.ofState. cbn [Async.sidecars]. rewrite lookup_fmap.
  destruct (sidecars (disk st) !! p); reflexivity.
Qed.

(** One turn of a call, and the turns that are left once it has thrown. *)
Ltac turn f :=
  rewrite Nat.iter_succ_r; unfold f at 2; cbv beta; cbn [fst snd];
  unfold Async.resume; cbv beta iota.
Ltac thrown Hs := unfold Async.throw, throw; rewrite Hs; reflexivity.
Ltac sidecar st Hs :=
  match goal with |- context [Async.readSidecar (Async.sidecars ?s !! ?p)] =>
    change (Async.sidecars s) with (Async.sidecars (Async.ofState st));
    rewrite (readSidecar_ofState st p)
  end;
  destruct (negb (writeSidecar _)); [thrown Hs|];
  rewrite ?Hs; cbn [Nat.iter fst snd Async.ofResult]; f_equal;
  unfold Async.ofState; cbn; f_equal;
  rewrite fmap_insert, List.map_app; reflexivity.

Section WithUrlParser.
Variable pathname_of : string -> option string.

Lemma start_beginDownload (st : State) (url itemId : string) :
  Async.start pathname_of (Async.ofState st) url itemId =
  (match fst (beginDownload pathname_of st url itemId) with
   | inl e => Async.Settled (inl (Async.Thrown e))
   | inr pending => Async.AwaitHead (currentCount pending)
   end,
   Async.ofState (snd (beginDownload pathname_of st url itemId))).
Proof.
  unfold Async.start, beginDownload, Async.throw, throw.
  cbn [Async.itemImageCounts Async.ofState Async.stats].
  repeat case_match; cbn in *; simplify_eq; reflexivity.
Qed.

End WithUrlParser.

(** The nine turns of a call that no other call interleaves with are
    [finishDownload]. *)
Lemma resume_finishDownload (st : State) (cc : nat)
    (url outputDir itemId : string) (imageIndex : nat) (w : World) :
  Nat.iter 9
    (fun acc : Async.Stage * Async.State =>
       Async.resume (snd acc) url outputDir itemId imageIndex w (fst acc))
    (Async.AwaitHead cc, Async.ofState st) =
  (Async.Settled
     (Async.ofResult
        (fst (finishDownload st {| currentCount := cc |} url outputDir itemId
                             imageIndex w))),
   Async.ofState
     (snd (finishDownload st {| currentCount := cc |} url outputDir itemId imageIndex w))).
Proof.
  set (f := fun acc : Async.Stage * Async.State =>
              Async.resume (snd acc) url outputDir itemId imageIndex w (fst acc)).
  assert (Hs : forall n r s, Nat.iter n f (Async.Settled r, s) = (Async.Settled r, s)).
  { induction n as [|n IH]; intros r s; [reflexivity|].
    rewrite Nat.iter_succ_r. apply IH. }
  unfold finishDownload.
  turn f. destruct (truthy _ && negb _) eqn:E1; [thrown Hs|].
  turn f. destruct (get w) as [msg|imageBuffer]; [thrown Hs|].
  turn f. destruct (decoded imageBuffer) as [meta|]; [|thrown Hs].
  destruct (negb (array_includes _ _)); [thrown Hs|].
  turn f. cbn [Async.downloadedHashes Async.ofState].
  destruct (bool_decide _); [thrown Hs|].
  turn f. cbn [Async.analyzerCache Async.ofState].
  rewrite analyzeImage_split.
  destruct (Async.analyzeImageBegin _ _ _) as [[qa|] cache].
  - turn f. destruct (negb (QualityAnalyzer.isValid qa)); [thrown Hs|].
    turn f. destruct (negb (writeFile w)); [thrown Hs|].
    turn f. destruct (fstat w) as [fsize|]; [|thrown Hs].
    destruct (negb (fsize =? _)%Z); [thrown Hs|].
    sidecar st Hs.
  - turn f. cbn [Async.analyzerCache Async.set_cache].
    destruct (Async.analyzeImageEnd _ _ _) as [qa cache1].
    turn f. destruct (negb (QualityAnalyzer.isValid qa)); [thrown Hs|].
    turn f. destruct (negb (writeFile w)); [thrown Hs|].
    turn f. destruct (fstat w) as [fsize|]; [|thrown Hs].
    destruct (negb (fsize =? _)%Z); [thrown Hs|].
    sidecar st Hs.
Qed.

Section Chunk.
Variable pathname_of : string -> option string.
Variables outputDir itemId : string.

Lemma run_repeat (k n : nat) :
  forall (tasks : list Async.Task) (st : Async.State) (t : Async.Task),
    tasks !! k = Some t ->
    Async.run outputDir itemId (List.repeat k n) tasks st =
    (<[k := {| Async.candidate := Async.candidate t;
               Async.imageIndex := Async.imageIndex t;
               Async.stage :=
                 fst (Nat.iter n
                        (fun acc : Async.Stage * Async.State =>
                           Async.resume (snd acc) (fst (Async.candidate t)) outputDir
                                        itemId (Async.imageIndex t)
                                        (snd (Async.candidate t) 1%nat) (fst acc))
                        (Async.stage t, st)) |}]> tasks,
     snd (Nat.iter n
            (fun acc : Async.Stage * Async.State =>
               Async.resume (snd acc) (fst (Async.candidate t)) outputDir itemId
                            (Async.imageIndex t) (snd (Async.candidate t) 1%nat) (fst acc))
            (Async.stage t, st))).
Proof.
  induction n as [|n IH]; intros tasks st t Ht.
  - cbn. f_equal. symmetry. apply list_insert_id. rewrite Ht. now destruct t.
  - cbn [List.repeat]. unfold Async.run. cbn [List.fold_left].
    rewrite (RunFacts.advance_hit _ _ _ _ _ _ Ht).
    match goal with |- List.fold_left _ _ (<[k := ?t1]> tasks, ?st1) = _ =>
      specialize (IH (<[k := t1]> tasks) st1 t1) end.
    unfold Async.run in IH. rewrite IH.
    + cbn [Async.candidate Async.imageIndex Async.stage].
      rewrite list_insert_insert_eq, Nat.iter_succ_r, <- surjective_pairing.
      reflexivity.
    + apply list_lookup_insert_eq. eapply lookup_lt_Some. exact Ht.
Qed.

Lemma iter_settled (f : Async.Stage * Async.State -> Async.Stage * Async.State)
    (n : nat) (r : Async.Failure + Success) (s : Async.State) :
  f (Async.Settled r, s) = (Async.Settled r, s) ->
  Nat.iter n f (Async.Settled r, s) = (Async.Settled r, s).
Proof.
  intros H. induction n as [|n IH]; [reflexivity|]. now rewrite Nat.iter_succ_r, H.
Qed.

Section Turns.
Variable turns : nat.
Hypothesis turns_9 : turns = 9%nat.

(** The calls of a chunk, each run to its end before the next resumes,
    are [finishAll]. *)
Lemma run_finishAll (started : list (Candidate * (Error + Pending))) :
  forall (prefix : list Async.Task) (st : State) (i : nat),
  exists tasks',
    Async.run outputDir itemId
      (List.flat_map (fun k => List.repeat k turns)
                     (List.seq (List.length prefix) (List.length started)))
      (prefix ++ Async.ofStarted started i) (Async.ofState st) =
    (prefix ++ tasks',
     Async.ofState (snd (finishAll st started outputDir itemId i))) /\
    Async.outcomes tasks' =
      List.map Async.ofResult (fst (finishAll st started outputDir itemId i)).
Proof.
  induction started as [|[c b] r IH]; intros prefix st i.
  - exists []. split; reflexivity.
  - cbn [List.length List.seq List.flat_map Async.ofStarted finishAll].
    rewrite RunFacts.run_app.
    match goal with |- context [prefix ++ ?t :: Async.ofStarted r (S i)] =>
      rewrite (run_repeat (List.length prefix) turns
                 (prefix ++ t :: Async.ofStarted r (S i)) (Async.ofState st) t
                 (list_lookup_middle _ _ _ _ eq_refl))
    end.
    cbn [Async.candidate Async.imageIndex Async.stage fst snd].
    rewrite insert_app_r_alt by lia. rewrite Nat.sub_diag. cbn [insert list_insert].
    assert (E : Nat.iter turns
                  (fun acc : Async.Stage * Async.State =>
                     Async.resume (snd acc) (fst c) outputDir itemId i (snd c 1%nat)
                                  (fst acc))
                  (match b with
                   | inl e => Async.Settled (inl (Async.Thrown e))
                   | inr pending => Async.AwaitHead (currentCount pending)
                   end, Async.ofState st) =
                (Async.Settled
                   (Async.ofResult
                      (fst (match b with
                            | inl e => (inl e, st)
                            | inr pending =>
                                finishDownload st pending (fst c) outputDir itemId i
                                               (snd c 1%nat)
                            end))),
                 Async.ofState
                   (snd (match b with
                         | inl e => (inl e, st)
                         | inr pending =>
                             finishDownload st pending (fst c) outputDir itemId i
                                            (snd c 1%nat)
                         end)))).
    { destruct b as [e|[cc]].
      - apply iter_settled. reflexivity.
      - rewrite turns_9. apply resume_finishDownload. }
    rewrite E. clear E. cbn [fst snd].
    destruct (match b with
              | inl e => (inl e, st)
              | inr pending =>
                  finishDownload st pending (fst c) outputDir itemId i (snd c 1%nat)
              end) as [res st1].
    cbn [fst snd].
    match goal with |- context [prefix ++ ?t' :: Async.ofStarted r (S i)] =>
      specialize (IH (prefix ++ [t']) st1 (S i));
      destruct IH as (tasks' & H1 & H2);
      exists (t' :: tasks') end.
    rewrite length_app, Nat.add_1_r, <- app_assoc in H1. cbn [app] in H1.
    destruct (finishAll st1 r outputDir itemId (S i)) as [rs st2].
    cbn [fst snd] in *. split.
    + rewrite H1, <- app_assoc. reflexivity.
    + cbn [Async.outcomes Async.stage List.map]. now rewrite H2.
Qed.

End Turns.

Lemma length_ofStarted (started : list (Candidate * (Error + Pending))) :
  forall i, List.length (Async.ofStarted started i) = List.length started.
Proof.
  induction started as [|[c b] r IH]; intros i; [reflexivity|].
  cbn. now rewrite IH.
Qed.

Lemma allSettled_finishAll (started : list (Candidate * (Error + Pending)))
    (st : State) (i : nat) :
  Async.allSettled outputDir itemId [] (Async.ofStarted started i) (Async.ofState st) =
  (List.map Async.ofResult (fst (finishAll st started outputDir itemId i)),
   Async.ofState (snd (finishAll st started outputDir itemId i))).
Proof.
  unfold Async.allSettled, Async.toTheEnd. cbn [app].
  rewrite length_ofStarted.
  destruct (run_finishAll 9 eq_refl started [] st i) as (tasks' & H1 & H2).
  cbn [app List.length] in H1. rewrite H1, H2. reflexivity.
Qed.

Lemma startAll_beginAll (chunk : list Candidate) :
  forall (st : State) (i : nat),
    Async.startAll pathname_of (Async.ofState st) chunk itemId i =
    (Async.ofStarted (fst (beginAll pathname_of st chunk itemId)) i,
     Async.ofState (snd (beginAll pathname_of st chunk itemId))).
Proof.
  induction chunk as [|c r IH]; intros st i; [reflexivity|].
  cbn [Async.startAll beginAll]. rewrite start_beginDownload.
  destruct (beginDownload pathname_of st (fst c) itemId) as [b st1]. cbn [fst snd].
  rewrite IH. destruct (beginAll pathname_of st1 r itemId) as [bs st2]. reflexivity.
Qed.

End Chunk.

End SequentialFacts.

(** The model of [DownloadManager], in which the calls of a chunk resume
    one after the other, is the run of the interleaved model in which no
    call takes a turn before the call before it has settled, over an
    output tree whose [metadata.json] files are arrays of entries: the
    results and the final state are the same. *)
Theorem calls_one_after_the_other
    (pathname_of : string -> option string) (st : DownloadManager.State)
    (imageUrls : list DownloadManager.Candidate) (outputDir itemId : string) :
  Async.processDownloadsInChunks pathname_of [] (Async.ofState st) imageUrls
                                 outputDir itemId =
  (List.map Async.ofResult
     (fst (DownloadManager.processDownloadsInChunks pathname_of st imageUrls
             outputDir itemId)),
   Async.ofState
     (snd (DownloadManager.processDownloadsInChunks pathname_of st imageUrls
             outputDir itemId))).
Proof.
  unfold Async.processDownloadsInChunks, DownloadManager.processDownloadsInChunks.
  cbv zeta.
  generalize (DownloadManager.chunksOf Settings.concurrentDownloads imageUrls).
  intros chunks.
  match goal with |- context [List.fold_left ?g chunks ([], st, 0%nat)] =>
    assert (H : forall chunks results st0 i,
               List.fold_left (Async.processChunk pathname_of outputDir itemId) chunks
                 (List.map Async.ofResult results, Async.ofState st0, i, []) =
               let '(results', st', i') := List.fold_left g chunks (results, st0, i) in
               (List.map Async.ofResult results', Async.ofState st', i', []))
  end.
  { clear chunks. induction chunks as [|chunk r IH]; intros results st0 i; [reflexivity|].
    cbn [List.fold_left]. unfold Async.processChunk at 2. cbn [List.hd List.tl].
    rewrite SequentialFacts.startAll_beginAll.
    destruct (DownloadManager.beginAll pathname_of st0 chunk itemId) as [started st1].
    cbn [fst snd]. rewrite SequentialFacts.allSettled_finishAll.
    destruct (DownloadManager.finishAll st1 started outputDir itemId (i + 1))
      as [chunkResults st2].
    cbn [fst snd]. rewrite <- List.map_app. apply IH. }
  specialize (H chunks [] st 0%nat). cbn [List.map] in H. rewrite H.
  match goal with |- context [List.fold_left ?g chunks ([], st, 0%nat)] =>
    destruct (List.fold_left g chunks ([], st, 0%nat)) as [[results' st'] i'] end.
  reflexivity.
Qed.

